(** * qwen3-semantic-search: embedding cache, similarity graph and ranking

    A shallow embedding of the TypeScript sources

      - [src/App.tsx]                      (modal validation, bank
                                            synchronisation, search ranking,
                                            relevance tiers, creation and
                                            deletion of custom banks),
      - [src/components/MemoryVisualizer.tsx] (neighbour graph, scores,
                                            tooltip, drawing decisions),
      - [src/memory/indexeddb.ts]          (record store, schema upgrade,
                                            lazy connection),
      - [src/memory/embedding.ts]          (lazy model instance, progress
                                            events, degenerate inputs),

    together with the properties the specification states about them and
    further properties of the code itself.

    Conventions.  JavaScript numbers that are only compared, maximised and
    subtracted (similarity scores) are rationals [Q]; where the code tests
    for not-a-number the type [number] adds a [NaN] constructor.  Strings
    are [string]s of 8-bit code units, read as Latin-1 code points.
    Objects used as maps are read as JavaScript reads them: [obj[name]]
    is the own property or else what the prototype chain answers.
    Asynchronous code is sequentialised: every [await] is a step of a state
    and exception monad, and what the surroundings decide (cancellation of
    an effect, rejection of a store request, failure of the embedding
    model, settlement of a pending open) is explicit. *)

From Stdlib Require Import QArith Qminmax ZArith String Ascii List Permutation Sorted Lia.
From stdpp Require Import base option list strings gmap.

Local Open Scope string_scope.
Local Open Scope list_scope.

(** ** JavaScript numbers and strings *)

Module Js.

Inductive number : Type :=
| NaN
| Num (q : Q).

(** [a > b] on numbers: false as soon as one side is NaN. *)
Definition gt (a b : number) : bool :=
  match a, b with
  | Num x, Num y => negb (Qle_bool x y)
  | _, _ => false
  end.

Definition isNaN (a : number) : bool :=
  match a with NaN => true | Num _ => false end.

(** [Array(n).fill(0)] *)
Definition zeros (n : nat) : list number := repeat (Num 0) n.

(** White space as [String.prototype.trim] sees it, below U+0100:
    TAB, LF, VT, FF, CR, SPACE and NO-BREAK SPACE. *)
Definition isWhiteSpace (c : ascii) : bool :=
  let n := nat_of_ascii c in
  (Nat.leb 9 n && Nat.leb n 13) || Nat.eqb n 32 || Nat.eqb n 160.

Fixpoint trimStart (s : string) : string :=
  match s with
  | EmptyString => EmptyString
  | String c s' => if isWhiteSpace c then trimStart s' else s
  end.

Fixpoint trimEnd (s : string) : string :=
  match s with
  | EmptyString => EmptyString
  | String c s' =>
      match trimEnd s' with
      | EmptyString => if isWhiteSpace c then EmptyString else String c EmptyString
      | r => String c r
      end
  end.

Definition trim (s : string) : string := trimEnd (trimStart s).

(** [s.split('\n')]: never empty, [''.split('\n')] is [['']]. *)
Fixpoint split_newline (s : string) : list string :=
  match s with
  | EmptyString => [EmptyString]
  | String c s' =>
      if Nat.eqb (nat_of_ascii c) 10 then EmptyString :: split_newline s'
      else match split_newline s' with
           | h :: t => String c h :: t
           | [] => [String c EmptyString]
           end
  end.

(** [toLowerCase] on Latin-1 code points: A-Z, and U+00C0..U+00DE except
    the multiplication sign U+00D7. *)
Definition lowerChar (c : ascii) : ascii :=
  let n := nat_of_ascii c in
  if (Nat.leb 65 n && Nat.leb n 90) ||
     (Nat.leb 192 n && Nat.leb n 222 && negb (Nat.eqb n 215))
  then ascii_of_nat (n + 32) else c.

Fixpoint toLowerCase (s : string) : string :=
  match s with
  | EmptyString => EmptyString
  | String c s' => String (lowerChar c) (toLowerCase s')
  end.

(** [arr.includes(x)] on an array of strings. *)
Definition includes (arr : list string) (x : string) : bool :=
  existsb (String.eqb x) arr.

(** A string is truthy iff it is not empty ([filter(Boolean)]). *)
Definition truthy (s : string) : bool := negb (String.eqb s EmptyString).

(** What [obj[name]] can give for the objects of the application, whose
    own properties are arrays of strings: such an array, or what the
    object inherits, which is a function with its number of parameters, a
    string, a number, an object without [length], or nothing. *)
Inductive value : Type :=
| Undefined
| Arr (content : list string)
| Str (s : string)
| Numeric (n : nat)
| Func (arity : nat)
| Obj.

(** Truthiness, as [||] and [!] see it. *)
Definition toBoolean (v : value) : bool :=
  match v with
  | Undefined => false
  | Arr _ => true
  | Str s => truthy s
  | Numeric n => negb (Nat.eqb n 0)
  | Func _ => true
  | Obj => true
  end.

(** [a || b] *)
Definition or (a b : value) : value := if toBoolean a then a else b.

(** [v.length]; [None] is [undefined]. *)
Definition lengthOf (v : value) : option nat :=
  match v with
  | Arr content => Some (length content)
  | Str s => Some (String.length s)
  | Func arity => Some arity
  | _ => None
  end.

(** What an object literal inherits from [Object.prototype]: its methods
    with their [length], and under [__proto__] the prototype itself. *)
Definition objectPrototype (name : string) : value :=
  if String.eqb name "constructor" then Func 1
  else if String.eqb name "hasOwnProperty" then Func 1
  else if String.eqb name "isPrototypeOf" then Func 1
  else if String.eqb name "propertyIsEnumerable" then Func 1
  else if String.eqb name "toLocaleString" then Func 0
  else if String.eqb name "toString" then Func 0
  else if String.eqb name "valueOf" then Func 0
  else if String.eqb name "__defineGetter__" then Func 2
  else if String.eqb name "__defineSetter__" then Func 2
  else if String.eqb name "__lookupGetter__" then Func 1
  else if String.eqb name "__lookupSetter__" then Func 1
  else if String.eqb name "__proto__" then Obj
  else Undefined.

End Js.

(** ** Relevance tiers ([getRelevance], App.tsx) *)

Module Relevance.

Inductive relevance : Type :=
| high_relevance
| medium_relevance
| low_relevance.

Definition getRelevance (score : Js.number) : relevance :=
  if Js.gt score (Js.Num (49 # 100)) then high_relevance
  else if Js.gt score (Js.Num (38 # 100)) then medium_relevance
  else low_relevance.

(** The two places that classify a score: the list view of [App] and the
    visualizer, which receives the classifier as its [getRelevance] prop. *)
Definition listItemClass (score : Js.number) : relevance := getRelevance score.

Definition renderRelevanceInfo
  (getRelevanceProp : Js.number -> relevance) (score : Js.number) : relevance :=
  getRelevanceProp score.

Definition visualizerClass (score : Js.number) : relevance :=
  renderRelevanceInfo getRelevance score.

End Relevance.

(** ** Neighbour graph ([MemoryVisualizer.tsx]) *)

Module MemoryVisualizer.

Definition MAX_CONNECTIONS : nat := 3.

(** [Math.max(x, ...xs)] of a non-empty argument list. *)
Definition Math_max (x : Q) (xs : list Q) : Q := fold_left Qmax xs x.

(** [arr.indexOf(x)]: first position holding a number equal to [x], or -1. *)
Fixpoint indexOfFrom (arr : list Q) (x : Q) (k : nat) : Z :=
  match arr with
  | [] => (-1)%Z
  | y :: ys => if Qeq_bool y x then Z.of_nat k else indexOfFrom ys x (S k)
  end.

Definition indexOf (arr : list Q) (x : Q) : Z := indexOfFrom arr x 0.

(** [arr[i] = v].  At -1 JavaScript writes a property that is no element of
    the array; [i] is never beyond the end here, because it is an [indexOf]
    of a row of the same length. *)
Definition assignAt (arr : list Q) (i : Z) (v : Q) : list Q :=
  if (0 <=? i)%Z then <[Z.to_nat i := v]> arr else arr.

(** The [for (let i = 0; i < MAX_CONNECTIONS; i++)] loop of one node;
    [n] counts the iterations left, [row] is [similarityMatrix[id]],
    [similarities] its working copy. *)
Fixpoint selectLoop (row : list Q) (n : nat) (similarities : list Q)
    (connections : list Z) : list Z :=
  match n with
  | O => connections
  | S n' =>
      match similarities with
      | [] => connections
      | s :: rest =>
          let maxSim := Math_max s rest in
          if Qle_bool maxSim (1 # 10) then connections
          else
            let maxIndex := indexOf row maxSim in
            selectLoop row n' (assignAt similarities maxIndex (-1)%Q)
                       (connections ++ [maxIndex])
      end
  end.

Definition connectionsOf (row : list Q) : list Z :=
  selectLoop row MAX_CONNECTIONS row [].

Section Graph.
Context {vec : Type}.
(** [cosineSimilarity] lives in [src/memory/similarity.ts], which is not
    part of the sources at hand: the graph is built for any such function. *)
Variable cosineSimilarity : vec -> vec -> Q.

Definition similarityRow (embeddings : list vec) (i : nat) (ei : vec) : list Q :=
  imap (fun j ej => if Nat.eqb i j then 0%Q else cosineSimilarity ei ej) embeddings.

Definition similarityMatrix (embeddings : list vec) : list (list Q) :=
  imap (similarityRow embeddings) embeddings.

Record MemoryNode : Type := mkNode {
  node_id : nat;
  node_text : string;
  connections : list Z;
  node_embedding : option vec
}.

(** The effect that rebuilds the nodes; [None] when its guard returns
    early and the nodes are left as they were. *)
Definition buildNodes (isLoaded : bool) (memoryItems : list string)
    (embeddings : list vec) : option (list MemoryNode) :=
  if negb isLoaded || Nat.eqb (length memoryItems) 0
     || negb (Nat.eqb (length embeddings) (length memoryItems))
  then None
  else
    let matrix := similarityMatrix embeddings in
    Some (imap (fun id text =>
                  mkNode id text
                    (connectionsOf (default [] (matrix !! id)))
                    (embeddings !! id))
               memoryItems).
End Graph.

(** The selection as the specification words it: among the candidates not
    yet selected take the largest similarity, lowest index first on equal
    values; keep it if it exceeds the threshold; drop that candidate. *)
Fixpoint bestCandidate (cands : list (nat * Q)) : option (nat * Q) :=
  match cands with
  | [] => None
  | (j, s) :: rest =>
      match bestCandidate rest with
      | Some (j', s') => if Qle_bool s' s then Some (j, s) else Some (j', s')
      | None => Some (j, s)
      end
  end.

Fixpoint greedySpec (k : nat) (cands : list (nat * Q)) : list Z :=
  match k with
  | O => []
  | S k' =>
      match bestCandidate cands with
      | None => []
      | Some (j, s) =>
          if Qle_bool s (1 # 10) then []
          else Z.of_nat j ::
               greedySpec k' (List.filter (fun c => negb (Nat.eqb (fst c) j)) cands)
      end
  end.

Definition neighboursSpec (row : list Q) : list Z :=
  greedySpec MAX_CONNECTIONS (imap (fun j s => (j, s)) row).

End MemoryVisualizer.

(** ** The record store ([indexeddb.ts]) *)

Module IndexedDB.

Abbreviation vector := (list Js.number).

(** [Omit<MemoryRecord, 'id'>], what [addRecord] receives. *)
Record NewRecord : Type := mkNew {
  new_bank : string;
  new_text : string;
  new_embedding : vector
}.

Record MemoryRecord : Type := mkRecord {
  id : nat;
  text : string;
  embedding : vector;
  bank : string
}.

Record CustomBankRecord : Type := mkBank {
  name : string;
  content : list string
}.

(** The two object stores.  [memories] has an auto-increment key, so its
    records are kept in insertion order, which is key order; [nextId] is the
    key generator.  [custom_banks] is keyed by [name]. *)
Record Database : Type := mkDb {
  memories : list MemoryRecord;
  nextId : nat;
  custom_banks : gmap string (list string)
}.

Definition emptyDb : Database := mkDb [] 1 ∅.

Definition addRecord (r : NewRecord) (db : Database) : nat * Database :=
  (nextId db,
   mkDb (memories db ++ [mkRecord (nextId db) (new_text r) (new_embedding r) (new_bank r)])
        (S (nextId db)) (custom_banks db)).

Definition getRecordsByBank (b : string) (db : Database) : list MemoryRecord :=
  List.filter (fun r => String.eqb (bank r) b) (memories db).

(** The cursor over [IDBKeyRange.only(bank)] deletes every record it meets. *)
Definition clearRecordsByBank (b : string) (db : Database) : Database :=
  mkDb (List.filter (fun r => negb (String.eqb (bank r) b)) (memories db))
       (nextId db) (custom_banks db).

Definition saveCustomBank (bk : CustomBankRecord) (db : Database) : Database :=
  mkDb (memories db) (nextId db) (<[name bk := content bk]> (custom_banks db)).

Definition getCustomBank (n : string) (db : Database) : option CustomBankRecord :=
  mkBank n <$> custom_banks db !! n.

(** Keys of an object store come in ascending key order; string keys are
    compared code unit by code unit. *)
Fixpoint insertKey (k : string) (keys : list string) : list string :=
  match keys with
  | [] => [k]
  | x :: rest => if String.leb k x then k :: x :: rest else x :: insertKey k rest
  end.

Definition inKeyOrder (keys : list string) : list string :=
  fold_right insertKey [] keys.

(** [getAllKeys()]: the names of the stored banks in ascending order. *)
Definition getAllCustomBankNames (db : Database) : list string :=
  inKeyOrder (map_to_list (custom_banks db)).*1.

Definition deleteCustomBank (n : string) (db : Database) : Database :=
  mkDb (memories db) (nextId db) (delete n (custom_banks db)).

(** *** The lazily opened connection ([openDB])

    [dbPromise] caches the promise of the open request.  Promises are
    numbered in the order the open requests are issued, so [promises] also
    counts the calls of [indexedDB.open].  That call sits in the promise's
    executor without a [try]: when it throws (the database is not
    available to the page), the promise is rejected on the spot, no
    handler has been installed, and the assignment to [dbPromise] still
    takes place. *)

Inductive settled (A : Type) : Type :=
| Pending
| Fulfilled (a : A)
| Rejected.
Arguments Pending {A}.
Arguments Fulfilled {A} a.
Arguments Rejected {A}.

Record Connection : Type := mkConn {
  dbPromise : option nat;
  promises : list (settled nat)
}.

Definition initial : Connection := mkConn None [].

Definition openDB (openThrows : bool) (c : Connection) : nat * Connection :=
  match dbPromise c with
  | Some p => (p, c)
  | None =>
      let p := length (promises c) in
      (p, mkConn (Some p)
            (promises c ++ [if openThrows then Rejected else Pending]))
  end.

(** [request.onsuccess] of the open request behind promise [p]. *)
Definition onsuccess (p : nat) (handle : nat) (c : Connection) : Connection :=
  mkConn (dbPromise c) (<[p := Fulfilled handle]> (promises c)).

(** [request.onerror] of the open request behind promise [p]. *)
Definition onerror (p : nat) (c : Connection) : Connection :=
  mkConn None (<[p := Rejected]> (promises c)).

(** What can happen to the connection: a caller asks for it, or the
    pending open request fires one of its two events. *)
Inductive step : Connection -> Connection -> Prop :=
| step_call openThrows c : step c (openDB openThrows c).2
| step_success c p h :
    promises c !! p = Some Pending -> step c (onsuccess p h c)
| step_error c p :
    promises c !! p = Some Pending -> step c (onerror p c).

Inductive reachable : Connection -> Prop :=
| reach_initial : reachable initial
| reach_step c c' : reachable c -> step c c' -> reachable c'.

End IndexedDB.

(** ** The embedding model ([embedding.ts]) *)

Module Embedding.

Import IndexedDB.

Record options : Type := mkOptions {
  normalize : option bool;
  truncate : option bool
}.

Definition noOptions : options := mkOptions None None.

(** What the code uses of a loaded model and tokenizer:
    [hidden_size] is [model.config.hidden_size] (0 when it is missing or
    falsy), [pooled] runs tokenizer, model and [last_token_pool] on a text
    ([None] when one of them throws) and [normalize2] is the tensor
    library's [normalize(2, -1)]. *)
Record EmbeddingInstance : Type := mkInstance {
  hidden_size : nat;
  pooled : string -> option vector;
  normalize2 : vector -> vector
}.

(** [hidden_size || 384] *)
Definition nativeSize (inst : EmbeddingInstance) : nat :=
  if Nat.eqb (hidden_size inst) 0 then 384 else hidden_size inst.

(** [options?.x !== false] *)
Definition notFalse (o : option bool) : bool :=
  match o with Some false => false | _ => true end.

(** [generateEmbedding] on one text, after [await getInstance()] gave
    [loaded] ([None]: the load was rejected and the call throws). *)
Definition generateEmbedding (loaded : option EmbeddingInstance)
    (text : string) (opts : options) : option vector :=
  match loaded with
  | None => None
  | Some inst =>
      if String.eqb (Js.trim text) EmptyString then
        Some (Js.zeros (nativeSize inst))
      else
        match pooled inst text with
        | None => None
        | Some p =>
            if existsb Js.isNaN p then
              Some (Js.zeros (if notFalse (truncate opts) then 256
                              else nativeSize inst))
            else
              let r1 := if notFalse (truncate opts) then take 256 p else p in
              let r2 := if notFalse (normalize opts) then normalize2 inst r1
                        else r1 in
              Some r2
        end
  end.

(** [generateEmbedding] on an array: one embedding per entry, in order;
    the first failure aborts. *)
Definition generateEmbeddings (loaded : option EmbeddingInstance)
    (texts : list string) (opts : options) : option (list vector) :=
  match loaded with
  | None => None
  | Some _ => mapM (fun t => generateEmbedding loaded t opts) texts
  end.

(** What [generateEmbedding] returns: [number[]] for a text, [number[][]]
    for an array of texts. *)
Inductive embeddings : Type :=
| One (v : vector)
| Many (vs : list vector).

(** [generateEmbedding] on whatever the caller passes.  On a value that is
    neither an array nor a string, [text.trim] is not a function; the
    [catch] rethrows the error. *)
Definition generateEmbeddingOf (loaded : option EmbeddingInstance)
    (text : Js.value) (opts : options) : option embeddings :=
  match text with
  | Js.Arr texts => Many <$> generateEmbeddings loaded texts opts
  | Js.Str s => One <$> generateEmbedding loaded s opts
  | _ => None
  end.

(** *** The lazily loaded instance ([getInstance]) *)

Record Loader : Type := mkLoader {
  instance : option nat;
  instancePromise : option nat;
  loads : list (settled nat)
}.

Definition initial : Loader := mkLoader None None [].

(** What a caller of [getInstance] awaits: the cached instance itself, or
    the promise of a load. *)
Inductive awaited : Type :=
| Ready (inst : nat)
| Promise (p : nat).

Definition getInstance (l : Loader) : awaited * Loader :=
  match instance l with
  | Some i => (Ready i, l)
  | None =>
      match instancePromise l with
      | Some p => (Promise p, l)
      | None =>
          let p := length (loads l) in
          (Promise p, mkLoader None (Some p) (loads l ++ [Pending]))
      end
  end.

(** Both [from_pretrained] calls of load [p] succeeded. *)
Definition loadSucceeded (p : nat) (inst : nat) (l : Loader) : Loader :=
  mkLoader (Some inst) (instancePromise l) (<[p := Fulfilled inst]> (loads l)).

(** The [catch] branch of load [p]. *)
Definition loadFailed (p : nat) (l : Loader) : Loader :=
  mkLoader (instance l) None (<[p := Rejected]> (loads l)).

Inductive step : Loader -> Loader -> Prop :=
| step_call l : step l (getInstance l).2
| step_success l p i :
    loads l !! p = Some Pending -> step l (loadSucceeded p i l)
| step_failure l p :
    loads l !! p = Some Pending -> step l (loadFailed p l).

Inductive reachable : Loader -> Prop :=
| reach_initial : reachable initial
| reach_step l l' : reachable l -> step l l' -> reachable l'.

End Embedding.

(** ** The application ([App.tsx]) *)

Module App.

Import IndexedDB.

(** *** The modal's validation ([CustomBankModal.handleSave]) *)

Inductive saveDecision : Type :=
| SetError (message : string)
| OnSave (trimmedName : string) (inputText : string).

Definition nonBlank (line : string) : bool :=
  negb (String.eqb (Js.trim line) EmptyString).

Definition handleSave (existingNames : list string)
    (bankName inputText : string) : saveDecision :=
  let trimmedName := Js.trim bankName in
  if String.eqb trimmedName EmptyString then
    SetError "Bank name cannot be empty."
  else if Js.includes existingNames (Js.toLowerCase trimmedName) then
    SetError "This name is already taken. Please choose another."
  else
    let lines := List.filter nonBlank (Js.split_newline inputText) in
    if Nat.eqb (length lines) 0 then
      SetError "Bank content cannot be empty."
    else if Nat.ltb 20 (length lines) then
      SetError "You can add a maximum of 20 facts."
    else OnSave trimmedName inputText.

(** *** Search ranking ([handleSearch]) *)

Record SearchResult : Type := mkResult {
  res_text : string;
  score : Q
}.

(** The comparator [(a, b) => b.score - a.score]. *)
Definition byScore (a b : SearchResult) : Q := (score b - score a)%Q.

(** [Array.prototype.sort] with a comparator.  ECMAScript requires the sort
    to be stable, and for a consistent comparator that fixes the result: an
    element goes before the first one it does not compare greater than. *)
Fixpoint insertSorted {A : Type} (cmp : A -> A -> Q) (x : A) (l : list A) : list A :=
  match l with
  | [] => [x]
  | y :: ys =>
      if Qle_bool (cmp x y) 0 then x :: y :: ys
      else y :: insertSorted cmp x ys
  end.

Definition Array_sort {A : Type} (cmp : A -> A -> Q) (l : list A) : list A :=
  fold_right (insertSorted cmp) [] l.

Definition newline : string := String (ascii_of_nat 10) EmptyString.

Definition generateQueryEmbedding (loaded : option Embedding.EmbeddingInstance)
    (text : string) (opts : Embedding.options) : option vector :=
  let instruction :=
    "Given a web search query, retrieve relevant passages that answer the query" in
  let instructedQuery := "Instruct: " +:+ instruction +:+ newline +:+ "Query: " +:+ text in
  Embedding.generateEmbedding loaded instructedQuery opts.

Inductive searchOutcome : Type :=
| Alert (message : string)
| SetSearchResults (results : list SearchResult).

Section Search.
(** See [MemoryVisualizer]: the function is not among the sources. *)
Variable cosineSimilarity : vector -> vector -> Q.

(** [currentMemoryBank.map((text, i) => ...)]; an entry without an
    embedding at its position makes [cosineSimilarity] read [undefined],
    taken here to throw. *)
Definition scoreAll (queryEmbedding : vector) (currentMemoryBank : list string)
    (memoryBankEmbeddings : list vector) : option (list SearchResult) :=
  mapM (fun it : nat * string =>
          e ← memoryBankEmbeddings !! it.1;
          Some (mkResult it.2 (cosineSimilarity queryEmbedding e)))
       (imap (fun i text => (i, text)) currentMemoryBank).

Definition handleSearch (loaded : option Embedding.EmbeddingInstance)
    (query : string) (currentMemoryBank : list string)
    (memoryBankEmbeddings : option (list vector)) : searchOutcome :=
  if String.eqb query EmptyString then Alert "Please enter a query."
  else
    match memoryBankEmbeddings with
    | None => Alert "Memory bank is not ready yet."
    | Some embs =>
        match generateQueryEmbedding loaded query Embedding.noOptions with
        | None => Alert "Failed to perform search."
        | Some queryEmbedding =>
            match scoreAll queryEmbedding currentMemoryBank embs with
            | None => Alert "Failed to perform search."
            | Some results => SetSearchResults (Array_sort byScore results)
            end
        end
    end.
End Search.

(** *** State, effects and the monad of the asynchronous functions *)

(** Store writes and embedding requests, in the order they are issued. *)
Inductive Effect : Type :=
| ClearRecords (bankName : string)
| AddRecord (r : NewRecord)
| SaveBank (bk : CustomBankRecord)
| DeleteBank (bankName : string)
| EmbedRequest (texts : list string)
| EmbedRequestOf (text : Js.value).

Record World : Type := mkWorld {
  db : Database;
  effects : list Effect;
  now : nat;
  availableBanks : list string;
  customBankData : gmap string (list string);
  activeBank : string;
  memoryBankEmbeddings : option (list vector);
  isAppLoading : bool;
  customBankPrototype : option (list string)
}.

(** [customBankData] is a plain object used as a map.  [customBankData w]
    holds its own properties.  Its prototype is [Object.prototype], except
    after [setup] has assigned the content of a stored bank to
    [customData['__proto__']], which makes that array the prototype:
    [customBankPrototype w] is then [Some] of it. *)

(** What surrounds a run: the model as [getInstance] delivers it, the
    value of the effect's [isCancelled] flag after each number of awaits,
    and whether the store request issued after that many awaits is
    rejected. *)
Record Env : Type := mkEnv {
  loaded : option Embedding.EmbeddingInstance;
  cancelled : nat -> bool;
  storeFails : nat -> bool
}.

Definition storeReliable (env : Env) : Prop := forall t, storeFails env t = false.

Inductive outcome (A : Type) : Type :=
| Normal (a : A)
| Returned
| Thrown.
Arguments Normal {A} a.
Arguments Returned {A}.
Arguments Thrown {A}.

Definition M (A : Type) : Type := World -> outcome A * World.

#[global] Instance M_ret : MRet M := fun A a w => (Normal a, w).

#[global] Instance M_bind : MBind M := fun A B f m w =>
  match m w with
  | (Normal a, w') => f a w'
  | (Returned, w') => (Returned, w')
  | (Thrown, w') => (Thrown, w')
  end.

Definition tick (w : World) : World :=
  mkWorld (db w) (effects w) (S (now w)) (availableBanks w) (customBankData w)
          (activeBank w) (memoryBankEmbeddings w) (isAppLoading w)
          (customBankPrototype w).

Definition withDb (e : Effect) (d : Database) (w : World) : World :=
  mkWorld d (effects w ++ [e]) (S (now w)) (availableBanks w) (customBankData w)
          (activeBank w) (memoryBankEmbeddings w) (isAppLoading w)
          (customBankPrototype w).

Definition withEffect (e : Effect) (w : World) : World :=
  mkWorld (db w) (effects w ++ [e]) (S (now w)) (availableBanks w)
          (customBankData w) (activeBank w) (memoryBankEmbeddings w)
          (isAppLoading w) (customBankPrototype w).

(** An awaited read of the store; a rejected request throws. *)
Definition await_read {A : Type} (env : Env) (f : Database -> A) : M A :=
  fun w => if storeFails env (now w) then (Thrown, tick w)
           else (Normal (f (db w)), tick w).

(** An awaited write of the store; a rejected request changes nothing
    and throws. *)
Definition await_write (env : Env) (e : Effect) (f : Database -> Database)
    : M unit :=
  fun w => if storeFails env (now w) then (Thrown, tick w)
           else (Normal tt, withDb e (f (db w)) w).

Definition await_addRecord (env : Env) (r : NewRecord) : M nat :=
  fun w => if storeFails env (now w) then (Thrown, tick w)
           else let '(k, d) := addRecord r (db w) in
                (Normal k, withDb (AddRecord r) d w).

(** [await generateEmbedding(texts, {})]: one request for the whole list. *)
Definition await_generateEmbedding (env : Env) (texts : list string)
    : M (list vector) :=
  fun w =>
    let w' := withEffect (EmbedRequest texts) w in
    match Embedding.generateEmbeddings (loaded env) texts Embedding.noOptions with
    | Some vs => (Normal vs, w')
    | None => (Thrown, w')
    end.

(** The request a call of [generateEmbedding] stands for. *)
Definition requestFor (text : Js.value) : Effect :=
  match text with
  | Js.Arr texts => EmbedRequest texts
  | _ => EmbedRequestOf text
  end.

(** [await generateEmbedding(content, {})] on whatever [content] is. *)
Definition await_generateEmbeddingOf (env : Env) (content : Js.value)
    : M Embedding.embeddings :=
  fun w =>
    let w' := withEffect (requestFor content) w in
    match Embedding.generateEmbeddingOf (loaded env) content Embedding.noOptions with
    | Some r => (Normal r, w')
    | None => (Thrown, w')
    end.

(** [if (isCancelled) return;] *)
Definition returnIfCancelled (env : Env) : M unit :=
  fun w => if cancelled env (now w) then (Returned, w) else (Normal tt, w).

Definition throw {A : Type} : M A := fun w => (Thrown, w).

(** [try { body } catch (error) { console.error(...) }] *)
Definition tryCatch (body : M unit) : M unit :=
  fun w => match body w with
           | (Thrown, w') => (Normal tt, w')
           | r => r
           end.

Fixpoint forEach {A : Type} (l : list A) (body : A -> M unit) : M unit :=
  match l with
  | [] => mret tt
  | x :: xs => body x;; forEach xs body
  end.

Definition setAvailableBanks (f : list string -> list string) : M unit :=
  fun w => (Normal tt,
            mkWorld (db w) (effects w) (now w) (f (availableBanks w))
              (customBankData w) (activeBank w) (memoryBankEmbeddings w)
              (isAppLoading w) (customBankPrototype w)).

(** [setCustomBankData(prev => ...)] with a callback that builds its
    result from [{ ...prev }]: the spread copies the own properties into a
    new object literal, whose prototype is [Object.prototype]. *)
Definition setCustomBankData
    (f : gmap string (list string) -> gmap string (list string)) : M unit :=
  fun w => (Normal tt,
            mkWorld (db w) (effects w) (now w) (availableBanks w)
              (f (customBankData w)) (activeBank w) (memoryBankEmbeddings w)
              (isAppLoading w) None).

(** [setCustomBankData(customData)] with the object [setup] has filled. *)
Definition setCustomBankObject
    (customData : gmap string (list string) * option (list string)) : M unit :=
  fun w => (Normal tt,
            mkWorld (db w) (effects w) (now w) (availableBanks w)
              customData.1 (activeBank w) (memoryBankEmbeddings w)
              (isAppLoading w) customData.2).

Definition setActiveBank (b : string) : M unit :=
  fun w => (Normal tt,
            mkWorld (db w) (effects w) (now w) (availableBanks w)
              (customBankData w) b (memoryBankEmbeddings w) (isAppLoading w)
              (customBankPrototype w)).

Definition setMemoryBankEmbeddings (e : list vector) : M unit :=
  fun w => (Normal tt,
            mkWorld (db w) (effects w) (now w) (availableBanks w)
              (customBankData w) (activeBank w) (Some e) (isAppLoading w)
              (customBankPrototype w)).

Definition setIsAppLoading (b : bool) : M unit :=
  fun w => (Normal tt,
            mkWorld (db w) (effects w) (now w) (availableBanks w)
              (customBankData w) (activeBank w) (memoryBankEmbeddings w) b
              (customBankPrototype w)).

(** [Array.isArray(embeddings) && Array.isArray(embeddings[0])] on the
    array of vectors [generateEmbedding] returns for an array of texts. *)
Definition isArrayOfArrays (embeddings : list vector) : bool :=
  match embeddings with [] => false | _ :: _ => true end.

(** The insertion loop shared by the three places that fill a bank:
    [for (j = 0; j < texts.length; j++) { check; await addRecord(...) }].
    [texts[j]] is always in range; [embeddings[j]] is, because the provider
    returns one vector per text. *)
Definition insertAll (env : Env) (check : M unit) (bankName : string)
    (texts : list string) (embeddings : list vector) : M unit :=
  forEach (seq 0 (length texts)) (fun j =>
    check;;
    _ ← await_addRecord env
          (mkNew bankName (default EmptyString (texts !! j))
                 (default [] (embeddings !! j)));
    mret tt).

(** A plain object used as a map from names to arrays of strings, as the
    code that reads it sees it: its own properties and what it inherits. *)
Record Dictionary : Type := mkDict {
  properties : gmap string (list string);
  inherited : string -> Js.value
}.

(** [{}] *)
#[global] Instance Dictionary_empty : Empty Dictionary :=
  mkDict ∅ Js.objectPrototype.

(** [obj[name]] *)
Definition get (obj : Dictionary) (name : string) : Js.value :=
  match properties obj !! name with
  | Some content => Js.Arr content
  | None => inherited obj name
  end.

(** [customData[name] = content] on the object [setup] fills, given by its
    own properties and its prototype when that has been replaced: the
    assignment creates or overwrites an own property, except that
    ['__proto__'] names the accessor of [Object.prototype], whose setter
    makes the array the prototype. *)
Definition assign (name : string) (content : list string)
    (customData : gmap string (list string) * option (list string))
    : gmap string (list string) * option (list string) :=
  if String.eqb name "__proto__" then (customData.1, Some content)
  else (<[name := content]> customData.1, customData.2).

(** [customBankData] as a render reads it.  With an array as prototype,
    [__proto__] gives that array; what the array answers for any other
    name (an index, [length], a method) is the engine's, [arrayProperty]. *)
Definition customBankObject (arrayProperty : list string -> string -> Js.value)
    (w : World) : Dictionary :=
  mkDict (customBankData w)
    (match customBankPrototype w with
     | None => Js.objectPrototype
     | Some arr => fun name => if String.eqb name "__proto__" then Js.Arr arr
                               else arrayProperty arr name
     end).

Section Banks.
(** The built-in banks of [src/memory/banks.ts], an object literal with a
    key per bank, in [Object.keys] order; the texts themselves are in files
    that are not at hand. *)
Variable memoryBanks : list (string * list string).

Definition defaultBankNames : list string := memoryBanks.*1.

(** The own property [n] of the literal, if it has one. *)
Fixpoint lookupBank (banks : list (string * list string)) (n : string)
    : option (list string) :=
  match banks with
  | [] => None
  | (k, v) :: rest => if String.eqb k n then Some v else lookupBank rest n
  end.

(** [memoryBanks[name]] for any name: the own property, or what the
    literal inherits from [Object.prototype]. *)
Definition memoryBankAt (name : string) : Js.value :=
  match lookupBank memoryBanks name with
  | Some content => Js.Arr content
  | None => Js.objectPrototype name
  end.

(** [memoryBanks[activeBank] || customBankData[activeBank] || []];
    arrays are truthy, also the empty one, and so are inherited methods. *)
Definition currentBankContent (custom : Dictionary) (bankName : string)
    : Js.value :=
  Js.or (Js.or (memoryBankAt bankName) (get custom bankName)) (Js.Arr []).

(** The staleness test of [setup]. *)
Definition needsGeneration (cachedRecords : list MemoryRecord)
    (bankData : list string) : bool :=
  negb (Nat.eqb (length cachedRecords) (length bankData))
  || negb (forallb (fun ir : nat * MemoryRecord =>
                      match bankData !! ir.1 with
                      | Some t => String.eqb (text ir.2) t
                      | None => false
                      end)
                   (imap (fun i r => (i, r)) cachedRecords)).

(** The body of the [try] block of [setup] for one built-in bank. *)
Definition cacheBank (env : Env) (bankName : string) (bankData : list string)
    : M unit :=
  cachedRecords ← await_read env (getRecordsByBank bankName);
  returnIfCancelled env;;
  if needsGeneration cachedRecords bankData then
    await_write env (ClearRecords bankName) (clearRecordsByBank bankName);;
    embeddings ← await_generateEmbedding env bankData;
    returnIfCancelled env;;
    if isArrayOfArrays embeddings then
      insertAll env (returnIfCancelled env) bankName bankData embeddings
    else mret tt
  else mret tt.

(** The loop of [setup] that embeds and caches the built-in banks, one
    after the other; a failure is logged and the loop goes on.
    [memoryBanks[bankName]] is read at a key of the literal. *)
Definition cacheDefaultBanks (env : Env) : M unit :=
  forEach defaultBankNames (fun bankName =>
    returnIfCancelled env;;
    tryCatch (cacheBank env bankName
                (default [] (lookupBank memoryBanks bankName)))).

(** [for (const name of customBankNames) { ... customData[name] = ... }] *)
Fixpoint collectCustomData (env : Env) (names : list string)
    (customData : gmap string (list string) * option (list string))
    : M (gmap string (list string) * option (list string)) :=
  match names with
  | [] => mret customData
  | n :: rest =>
      bk ← await_read env (getCustomBank n);
      collectCustomData env rest
        (match bk with
         | Some b => assign n (content b) customData
         | None => customData
         end)
  end.

(** The part of [setup] that loads the custom banks from the store. *)
Definition loadCustomBanks (env : Env) : M unit :=
  customBankNames ← await_read env getAllCustomBankNames;
  if Nat.ltb 0 (length customBankNames) then
    setAvailableBanks (fun _ => defaultBankNames ++ customBankNames);;
    customData ← collectCustomData env customBankNames (∅, None);
    setCustomBankObject customData
  else mret tt.

(** [setup], without the progress display.  The model preload swallows
    its own failure. *)
Definition setup (env : Env) : M unit :=
  (fun w => (Normal tt, tick w));;
  returnIfCancelled env;;
  cacheDefaultBanks env;;
  loadCustomBanks env;;
  returnIfCancelled env;;
  (fun w => (Normal tt, tick w));;
  setIsAppLoading false.

(** The staleness test of [loadBank] on a content that is an array. *)
Definition lengthDiffers (cachedRecords : list MemoryRecord)
    (currentContent : list string) : bool :=
  negb (Nat.eqb (length cachedRecords) (length currentContent)).

(** [cachedRecords.length !== currentBankContent.length], whatever the
    content is; a number is never [undefined]. *)
Definition lengthDiffersFrom (cachedRecords : list MemoryRecord)
    (currentContent : Js.value) : bool :=
  match Js.lengthOf currentContent with
  | Some n => negb (Nat.eqb (length cachedRecords) n)
  | None => true
  end.

(** [loadBank], the effect run when the active bank changes.  [custom] is
    the [customBankData] of the render that started the effect; the effect
    starts by fetching a custom bank for which that object answers nothing
    truthy: [!customBankData[activeBank]]. *)
Definition fetchCustomBank (env : Env) (bankName : string)
    (custom : Dictionary) : M unit :=
  if negb (Js.includes defaultBankNames bankName)
     && negb (Js.toBoolean (get custom bankName))
  then
    bk ← await_read env (getCustomBank bankName);
    match bk with
    | Some b => setCustomBankData (fun prev => <[bankName := content b]> prev)
    | None => mret tt
    end
  else mret tt.

(** Only an array of texts is answered with an array of arrays, which
    the insertion loop then walks along the texts. *)
Definition loadBank (env : Env) (bankName : string)
    (custom : Dictionary) : M unit :=
  fetchCustomBank env bankName custom;;
  cachedRecords ← await_read env (getRecordsByBank bankName);
  returnIfCancelled env;;
  let content := currentBankContent custom bankName in
  if lengthDiffersFrom cachedRecords content then
    await_write env (ClearRecords bankName) (clearRecordsByBank bankName);;
    embeddings ← await_generateEmbeddingOf env content;
    returnIfCancelled env;;
    match embeddings, content with
    | Embedding.Many vectors, Js.Arr texts =>
        if isArrayOfArrays vectors then
          insertAll env (returnIfCancelled env) bankName texts vectors;;
          newCachedRecords ← await_read env (getRecordsByBank bankName);
          returnIfCancelled env;;
          setMemoryBankEmbeddings (embedding <$> newCachedRecords)
        else mret tt
    | _, _ => mret tt
    end
  else setMemoryBankEmbeddings (embedding <$> cachedRecords).

(** [handleSaveCustomBank]; its [catch] logs and rethrows. *)
Definition handleSaveCustomBank (env : Env) (n : string) (inputText : string)
    : M unit :=
  let newBankContent :=
    List.filter Js.truthy (Js.trim <$> Js.split_newline inputText) in
  if Nat.eqb (length newBankContent) 0 then mret tt
  else
    embeddings ← await_generateEmbedding env newBankContent;
    await_write env (SaveBank (mkBank n newBankContent))
                (saveCustomBank (mkBank n newBankContent));;
    (if isArrayOfArrays embeddings then
       insertAll env (mret tt) n newBankContent embeddings
     else throw);;
    setAvailableBanks (fun prev => prev ++ [n]);;
    setCustomBankData (fun prev => <[n := newBankContent]> prev);;
    setActiveBank n.

(** What the modal shows once a click on "Save Bank" has run its course. *)
Inductive modalResult : Type :=
| ShowsError (message : string)
| Closed.

(** The click on "Save Bank": validation, then [onSave] from the timer. *)
Definition saveBankClicked (env : Env) (bankName inputText : string)
    (w : World) : modalResult * World :=
  match handleSave (Js.toLowerCase <$> availableBanks w) bankName inputText with
  | SetError msg => (ShowsError msg, w)
  | OnSave trimmedName txt =>
      match handleSaveCustomBank env trimmedName txt w with
      | (Thrown, w') =>
          (ShowsError "Failed to save and embed the bank. Please try again.", w')
      | (_, w') => (Closed, w')
      end
  end.

(** [handleConfirmDelete] with its timer; its [catch] raises an alert. *)
Definition handleConfirmDelete (env : Env) (bankToDelete : string) : M unit :=
  tryCatch (
    await_write env (DeleteBank bankToDelete) (deleteCustomBank bankToDelete);;
    await_write env (ClearRecords bankToDelete) (clearRecordsByBank bankToDelete);;
    (fun w => if String.eqb (activeBank w) bankToDelete
              then setActiveBank "General" w else (Normal tt, w));;
    setAvailableBanks (List.filter (fun b => negb (String.eqb b bankToDelete)));;
    setCustomBankData (delete bankToDelete)).

(** The state of a freshly mounted [App] over a given store. *)
Definition mount (d : Database) : World :=
  mkWorld d [] 0 defaultBankNames ∅ "General" None true None.

(** What a user session can do to the world, whatever the store, the
    provider and the cancellation flags do meanwhile.  The page is
    (re)loaded and [setup] runs.  Once loading is over, the [loadBank]
    effect runs for the active bank.  The controls are rendered when
    loading is over and embeddings are set; then a listed bank is selected,
    a bank is created from the modal, or a custom bank is deleted with its
    button. *)
Inductive sessionStep : World -> World -> Prop :=
| step_reload env w :
    sessionStep w (setup env (mount (db w))).2
| step_load env arrayProperty w :
    isAppLoading w = false ->
    sessionStep w
      (loadBank env (activeBank w) (customBankObject arrayProperty w) w).2
| step_select bankName w :
    isAppLoading w = false ->
    is_Some (memoryBankEmbeddings w) ->
    bankName ∈ availableBanks w ->
    sessionStep w (setActiveBank bankName w).2
| step_create env bankName inputText w :
    isAppLoading w = false ->
    is_Some (memoryBankEmbeddings w) ->
    sessionStep w (saveBankClicked env bankName inputText w).2
| step_delete env bankToDelete w :
    isAppLoading w = false ->
    is_Some (memoryBankEmbeddings w) ->
    bankToDelete ∈ availableBanks w ->
    Js.includes defaultBankNames bankToDelete = false ->
    sessionStep w (handleConfirmDelete env bankToDelete w).2.

Inductive sessionReachable : World -> Prop :=
| reach_install : sessionReachable (mount emptyDb)
| reach_next w w' : sessionReachable w -> sessionStep w w' -> sessionReachable w'.

End Banks.

End App.

(** ** The remaining operations of the record store ([indexeddb.ts]) *)

Module Records.

Import IndexedDB.

(** [store.get(id)]: the record under the key, if any. *)
Definition getRecord (k : nat) (db : Database) : option MemoryRecord :=
  List.find (fun r => Nat.eqb (id r) k) (memories db).

(** [store.getAll()] *)
Definition getAllRecords (db : Database) : list MemoryRecord := memories db.

(** [store.delete(id)]; deleting a key that is not there succeeds too. *)
Definition deleteRecord (k : nat) (db : Database) : Database :=
  mkDb (List.filter (fun r => negb (Nat.eqb (id r) k)) (memories db))
       (nextId db) (custom_banks db).

(** [store.clear()]; the key generator of the store is not reset. *)
Definition clearAllRecords (db : Database) : Database :=
  mkDb [] (nextId db) (custom_banks db).

(** The requests the module can send to an open database. *)
Inductive request : Type :=
| Add (r : NewRecord)
| Delete (k : nat)
| ClearBank (b : string)
| ClearAll
| SaveCustom (bk : CustomBankRecord)
| DeleteCustom (n : string).

Definition perform (q : request) (db : Database) : Database :=
  match q with
  | Add r => (addRecord r db).2
  | Delete k => deleteRecord k db
  | ClearBank b => clearRecordsByBank b db
  | ClearAll => clearAllRecords db
  | SaveCustom bk => saveCustomBank bk db
  | DeleteCustom n => deleteCustomBank n db
  end.

(** The database after a sequence of requests, the first one first. *)
Definition performAll (qs : list request) (db : Database) : Database :=
  fold_left (fun d q => perform q d) qs db.

End Records.

(** ** The schema upgrade of [openDB] ([request.onupgradeneeded]) *)

Module Schema.

(** An index of an object store: its key path and whether it is unique. *)
Record Index : Type := mkIndex {
  indexKeyPath : string;
  unique : bool
}.

Record ObjectStore : Type := mkStore {
  keyPath : string;
  autoIncrement : bool;
  indexes : gmap string Index
}.

(** The object stores of a database by name ([db.objectStoreNames]). *)
Abbreviation Stores := (gmap string ObjectStore).

Definition EMBEDDINGS_STORE_NAME : string := "memories".
Definition CUSTOM_BANKS_STORE_NAME : string := "custom_banks".

(** The handler; [hasTransaction] is false when [event.target.transaction]
    is null and the handler returns at once. *)
Definition onupgradeneeded (hasTransaction : bool) (db : Stores) : Stores :=
  if negb hasTransaction then db
  else
    let embeddingsStore :=
      match db !! EMBEDDINGS_STORE_NAME with
      | None => mkStore "id" true ∅
      | Some st => st
      end in
    let withoutTimestamp :=
      if bool_decide (is_Some (indexes embeddingsStore !! "timestamp"))
      then mkStore (keyPath embeddingsStore) (autoIncrement embeddingsStore)
             (delete "timestamp" (indexes embeddingsStore))
      else embeddingsStore in
    let withBank :=
      if bool_decide (is_Some (indexes withoutTimestamp !! "bank"))
      then withoutTimestamp
      else mkStore (keyPath withoutTimestamp) (autoIncrement withoutTimestamp)
             (<["bank" := mkIndex "bank" false]> (indexes withoutTimestamp)) in
    let db1 := <[EMBEDDINGS_STORE_NAME := withBank]> db in
    if bool_decide (is_Some (db1 !! CUSTOM_BANKS_STORE_NAME)) then db1
    else <[CUSTOM_BANKS_STORE_NAME := mkStore "name" false ∅]> db1.

End Schema.

(** ** Scores, tooltip and drawing decisions ([MemoryVisualizer.tsx]) *)

Module Display.

Section Display.
Context {vec : Type}.
Variable cosineSimilarity : vec -> vec -> Q.

(** The "most related" list of [handleMouseMove] for the node under the
    pointer: the other nodes, scored against it, sorted, the first three.
    A node without embedding makes [cosineSimilarity] read [undefined],
    taken to throw as in [App.scoreAll]. *)
Definition relatedNodes (nodes : list (@MemoryVisualizer.MemoryNode vec))
    (foundNode : @MemoryVisualizer.MemoryNode vec)
    : option (list App.SearchResult) :=
  scoredNodes ←
    mapM (fun n =>
            fe ← MemoryVisualizer.node_embedding foundNode;
            e ← MemoryVisualizer.node_embedding n;
            Some (App.mkResult (MemoryVisualizer.node_text n)
                    (cosineSimilarity fe e)))
         (List.filter
            (fun n => negb (Nat.eqb (MemoryVisualizer.node_id n)
                              (MemoryVisualizer.node_id foundNode)))
            nodes);
  Some (take 3 (App.Array_sort App.byScore scoredNodes)).

(** A node together with its optional [score]. *)
Record ScoredNode : Type := mkScored {
  node : @MemoryVisualizer.MemoryNode vec;
  nodeScore : option Q
}.

(** The effect on [searchResults]:
    [prevNodes.map(node => ({ ...node, score: ... }))]. *)
Definition updateScores (searchResults : list App.SearchResult)
    (prevNodes : list ScoredNode) : list ScoredNode :=
  if Nat.eqb (length searchResults) 0 then
    (fun n => mkScored (node n) None) <$> prevNodes
  else
    (fun n =>
       mkScored (node n)
         (App.score <$>
            List.find (fun r => String.eqb (App.res_text r)
                                  (MemoryVisualizer.node_text (node n)))
                      searchResults))
      <$> prevNodes.
End Display.

(** *** What [drawCanvas] decides from the scores *)

Inductive stroke : Type :=
| Bright
| Dim
| Neutral.

Inductive fill : Type :=
| Gold
| Amber
| Gray
| Base.

(** [typeof score === 'number' && score > 0.3] *)
Definition nodeRelevant (score : option Q) : bool :=
  match score with
  | Some s => Js.gt (Js.Num s) (Js.Num (3 # 10))
  | None => false
  end.

(** The stroke of the line between a node and one of its connections. *)
Definition strokeStyle (resultCount : nat) (nodeScore connScore : option Q) : stroke :=
  if Nat.ltb 0 resultCount then
    if nodeRelevant nodeScore && nodeRelevant connScore then Bright else Dim
  else Neutral.

(** [node.score && node.score > 0.5]: the node pulses and its label is
    dark. *)
Definition pulses (score : option Q) : bool :=
  match score with
  | Some s => negb (Qeq_bool s 0) && Js.gt (Js.Num s) (Js.Num (5 # 10))
  | None => false
  end.

(** The fill of a node that is not under the pointer. *)
Definition fillStyle (getRelevance : Js.number -> Relevance.relevance)
    (resultCount : nat) (score : option Q) : fill :=
  match score with
  | Some s =>
      if Nat.ltb 0 resultCount then
        match getRelevance (Js.Num s) with
        | Relevance.high_relevance => Gold
        | Relevance.medium_relevance => Amber
        | Relevance.low_relevance => Gray
        end
      else Base
  | None => Base
  end.

End Display.

(** ** Progress events of the model download ([embedding.ts], [App.tsx]) *)

Module Progress.

(** The [progress] property of an event: missing, a value that is not a
    number, or a number. *)
Inductive value : Type :=
| Undefined
| NotNumber
| Number (n : Js.number).

Record ProgressInfo : Type := mkInfo {
  status : string;
  file : option string;
  progress : value
}.

(** [typeof v !== 'number' || isNaN(v)] *)
Definition unusable (v : value) : bool :=
  match v with
  | Number n => Js.isNaN n
  | _ => true
  end.

(** The callback [getInstance] hands to both [from_pretrained] calls, up
    to the call of the caller's callback:
    [if (p.status === 'progress' && ...) p = { ...p, progress: 0 }]. *)
Definition progress_callback (p : ProgressInfo) : ProgressInfo :=
  if String.eqb (status p) "progress" && unusable (progress p)
  then mkInfo (status p) (file p) (Number (Js.Num 0))
  else p.

(** What reaches the caller: nothing without a callback. *)
Definition forwarded {A : Type} (callback : option (ProgressInfo -> A))
    (p : ProgressInfo) : option A :=
  (fun f => f (progress_callback p)) <$> callback.

(** [v || 0] for a number [v]. *)
Definition orZero (n : Js.number) : Js.number :=
  match n with
  | Js.NaN => Js.Num 0
  | Js.Num q => Js.Num q
  end.

(** The callback [setup] passes to [preloadEmbeddingModel], as far as the
    progress bar goes: [None] when it throws ([p.progress.toFixed] on a
    value that is no number), otherwise the argument of
    [setLoadingProgress], if it is called. *)
Definition setupCallback (p : ProgressInfo) : option (option Js.number) :=
  if String.eqb (status p) "initiate" then Some (Some (Js.Num 0))
  else if String.eqb (status p) "download" then Some (Some (Js.Num 0))
  else if String.eqb (status p) "progress" then
    match progress p with
    | Number n => Some (Some (orZero n))
    | _ => None
    end
  else Some None.

End Progress.

(** * The vocabulary of the properties *)

(** Scores in descending order. *)
Definition descending (rs : list App.SearchResult) : Prop :=
  StronglySorted (fun a b => (App.score b <= App.score a)%Q) rs.

(** The results whose score is [s], in list order. *)
Definition withScore (s : Q) (rs : list App.SearchResult) : list App.SearchResult :=
  List.filter (fun r => Qeq_bool (App.score r) s) rs.

(** Each record with its similarity to the query, in record order. *)
Definition scored (cosineSimilarity : IndexedDB.vector -> IndexedDB.vector -> Q)
    (queryEmbedding : IndexedDB.vector)
    (records : list IndexedDB.MemoryRecord) : list App.SearchResult :=
  (fun r => App.mkResult (IndexedDB.text r)
              (cosineSimilarity queryEmbedding (IndexedDB.embedding r)))
    <$> records.

(** The working copy of a row once the indices [sel] have been selected:
    their entries are overwritten with -1. *)
Definition marked (row : list Q) (sel : list nat) : list Q :=
  imap (fun i x => if bool_decide (i ∈ sel) then (-1)%Q else x) row.

(** The candidates of a row that are not yet selected, with their index. *)
Definition remaining (row : list Q) (sel : list nat) : list (nat * Q) :=
  List.filter (fun c : nat * Q => negb (bool_decide (c.1 ∈ sel)))
    (imap (fun j s => (j, s)) row).

(** No similarity above the threshold occurs twice in the row. *)
Definition distinctAbove (row : list Q) : Prop :=
  forall i j x y,
    row !! i = Some x -> row !! j = Some y ->
    (1 # 10 < x)%Q -> (x == y)%Q -> i = j.

(** The records [addRecord] stores for a list of new records, the first
    under key [k]. *)
Definition stored (k : nat) (rs : list IndexedDB.NewRecord) : list IndexedDB.MemoryRecord :=
  imap (fun j r => IndexedDB.mkRecord (k + j) (IndexedDB.new_text r)
                     (IndexedDB.new_embedding r) (IndexedDB.new_bank r)) rs.

(** The world after [await addRecord(r)] for each [r] in turn. *)
Fixpoint addMany (rs : list IndexedDB.NewRecord) (w : App.World) : App.World :=
  match rs with
  | [] => w
  | r :: rs' =>
      addMany rs' (App.withDb (App.AddRecord r) (IndexedDB.addRecord r (App.db w)).2 w)
  end.

(** The effect's [isCancelled] flag is never set during the run. *)
Definition neverCancelled (env : App.Env) : Prop :=
  forall t, App.cancelled env t = false.

(** The world after the delete and the embedding request of a stale bank. *)
Definition cleared (b : string) (content : list string) (w : App.World) : App.World :=
  App.withEffect (App.EmbedRequest content)
    (App.withDb (App.ClearRecords b)
       (IndexedDB.clearRecordsByBank b (App.db (App.tick w))) (App.tick w)).

(** The specification's predicate: the counts differ, or some position
    holds a record whose text is not the declared one. *)
Definition stale (existing : list IndexedDB.MemoryRecord) (content : list string) : Prop :=
  length existing <> length content \/
  exists i r t, existing !! i = Some r /\ content !! i = Some t /\ IndexedDB.text r <> t.

(** A bank has been replaced wholesale between [w] and [w']: the only
    effects are the delete, one embedding request for the whole content and
    one insertion per entry in content order; the store holds the records
    of the other banks as before, followed by the new ones under fresh keys. *)
Definition replacedWholesale (b : string) (content : list string)
    (vs : list IndexedDB.vector) (w w' : App.World) : Prop :=
  App.effects w'
  = App.effects w ++
    App.ClearRecords b :: App.EmbedRequest content ::
    (App.AddRecord <$> zip_with (IndexedDB.mkNew b) content vs)
  /\ IndexedDB.memories (App.db w')
     = List.filter (fun r => negb (String.eqb (IndexedDB.bank r) b))
         (IndexedDB.memories (App.db w))
       ++ stored (IndexedDB.nextId (App.db w))
            (zip_with (IndexedDB.mkNew b) content vs)
  /\ IndexedDB.text <$> IndexedDB.getRecordsByBank b (App.db w') = content
  /\ IndexedDB.embedding <$> IndexedDB.getRecordsByBank b (App.db w') = vs.

(** What the store connection keeps true: the cached promise is one of
    the requests issued, and an open request in flight is the cached one. *)
Definition connectionInv (c : IndexedDB.Connection) : Prop :=
  (forall p, IndexedDB.dbPromise c = Some p ->
     is_Some (IndexedDB.promises c !! p))
  /\ (forall p, IndexedDB.promises c !! p = Some IndexedDB.Pending ->
        IndexedDB.dbPromise c = Some p).

(** The same for the model loader, whose [instance] is set exactly when the
    cached load is fulfilled. *)
Definition loaderInv (l : Embedding.Loader) : Prop :=
  (forall p, Embedding.instancePromise l = Some p ->
     (Embedding.loads l !! p = Some IndexedDB.Pending /\ Embedding.instance l = None) \/
     exists i, Embedding.loads l !! p = Some (IndexedDB.Fulfilled i)
               /\ Embedding.instance l = Some i)
  /\ (forall p, Embedding.loads l !! p = Some IndexedDB.Pending ->
        Embedding.instancePromise l = Some p /\ Embedding.instance l = None)
  /\ (Embedding.instancePromise l = None -> Embedding.instance l = None).

(** Between [w] and [w'] the stored custom banks and the bank lists of the
    interface are the same. *)
Definition frame (w w' : App.World) : Prop :=
  IndexedDB.custom_banks (App.db w') = IndexedDB.custom_banks (App.db w)
  /\ App.availableBanks w' = App.availableBanks w
  /\ App.customBankData w' = App.customBankData w
  /\ App.isAppLoading w' = App.isAppLoading w
  /\ App.customBankPrototype w' = App.customBankPrototype w.

Definition keepsFrame {A : Type} (m : App.M A) : Prop :=
  forall w, frame w (m w).2.

(** Without cancellation nothing in the caching loop returns early, and
    its [try] blocks turn every failure into a normal completion. *)
Definition noReturn {A : Type} (m : App.M A) : Prop :=
  forall w, (m w).1 <> App.Returned.

(** The names under which custom banks are stored. *)
Definition storedNames (m : gmap string (list string)) : list string :=
  IndexedDB.inKeyOrder (map_to_list m).*1.

(** What [setup] has done to a freshly mounted [App] when it ends, in
    whichever way. *)
Definition startedUp (memoryBanks : list (string * list string)) (env : App.Env)
    (d : IndexedDB.Database) (w' : App.World) : Prop :=
  let names := storedNames (IndexedDB.custom_banks d) in
  IndexedDB.custom_banks (App.db w') = IndexedDB.custom_banks d
  /\ (App.availableBanks w' = App.defaultBankNames memoryBanks
      \/ App.availableBanks w' = App.defaultBankNames memoryBanks ++ names)
  /\ (App.isAppLoading w' = false ->
      App.availableBanks w' = App.defaultBankNames memoryBanks ++ names)
  /\ (neverCancelled env -> App.storeReliable env ->
      App.isAppLoading w' = false
      /\ App.customBankData w' = delete "__proto__" (IndexedDB.custom_banks d)
      /\ App.customBankPrototype w' = IndexedDB.custom_banks d !! "__proto__").

(** The world after a successful [handleSaveCustomBank]. *)
Definition saved (n : string) (content : list string) (vs : list IndexedDB.vector)
    (w w' : App.World) : Prop :=
  App.effects w'
  = App.effects w ++
    App.EmbedRequest content :: App.SaveBank (IndexedDB.mkBank n content) ::
    (App.AddRecord <$> zip_with (IndexedDB.mkNew n) content vs)
  /\ IndexedDB.custom_banks (App.db w')
     = <[n := content]> (IndexedDB.custom_banks (App.db w))
  /\ IndexedDB.memories (App.db w')
     = IndexedDB.memories (App.db w)
       ++ stored (IndexedDB.nextId (App.db w)) (zip_with (IndexedDB.mkNew n) content vs)
  /\ App.availableBanks w' = App.availableBanks w ++ [n]
  /\ App.customBankData w' = <[n := content]> (App.customBankData w)
  /\ App.activeBank w' = n
  /\ App.isAppLoading w' = App.isAppLoading w.

(** No two names of the list are equal up to letter case. *)
Definition distinctNames (names : list string) : Prop :=
  NoDup (Js.toLowerCase <$> names).

(** The names of the stored custom banks differ from the built-in names
    and from one another, letter case aside. *)
Definition distinctInStore (memoryBanks : list (string * list string))
    (d : IndexedDB.Database) : Prop :=
  let stored := IndexedDB.custom_banks d in
  (forall k, is_Some (stored !! k) ->
     Js.toLowerCase k ∉ Js.toLowerCase <$> App.defaultBankNames memoryBanks)
  /\ (forall k1 k2, is_Some (stored !! k1) -> is_Some (stored !! k2) ->
        Js.toLowerCase k1 = Js.toLowerCase k2 -> k1 = k2).

(** *** Fixtures for the concrete runs *)

Module Fixture.

(** A loaded model that embeds every text as the unit vector (1, 0). *)
Definition instance : Embedding.EmbeddingInstance :=
  Embedding.mkInstance 2 (fun _ => Some [Js.Num 1; Js.Num 0]) (fun v => v).

Definition env : App.Env :=
  App.mkEnv (Some instance) (fun _ => false) (fun _ => false).

Definition e1 : IndexedDB.vector := [Js.Num 1; Js.Num 0].
Definition e2 : IndexedDB.vector := [Js.Num 0; Js.Num 1].

(** A built-in bank of one fact, cached when the fact read differently. *)
Definition oneFact : list (string * list string) :=
  [("General", ["The sky is blue."])].

Definition cachedOld : IndexedDB.Database :=
  IndexedDB.mkDb [IndexedDB.mkRecord 1 "The sky is green." e1 "General"] 2 ∅.

(** A bank of five facts whose third fact was edited after caching. *)
Definition five : list string := ["one"; "two"; "three"; "four"; "five"].

Definition cachedFive : IndexedDB.Database :=
  IndexedDB.mkDb
    [IndexedDB.mkRecord 1 "one" e1 "General";
     IndexedDB.mkRecord 2 "two" e1 "General";
     IndexedDB.mkRecord 3 "tree" e1 "General";
     IndexedDB.mkRecord 4 "four" e1 "General";
     IndexedDB.mkRecord 5 "five" e1 "General";
     IndexedDB.mkRecord 6 "else" e2 "Science"] 7 ∅.

Definition builtin : list (string * list string) :=
  [("General", five); ("Programming", ["p"]); ("Science", ["else"]);
   ("Other", ["o"])].

(** A custom bank named like a method every object inherits: the
    interface knows its two entries, and the store holds its definition
    and a record for each entry. *)
Definition knowsToString : App.Dictionary :=
  App.mkDict {["toString" := ["a"; "b"]]} Js.objectPrototype.

Definition cachedToString : IndexedDB.Database :=
  IndexedDB.mkDb
    [IndexedDB.mkRecord 1 "a" e1 "toString";
     IndexedDB.mkRecord 2 "b" e1 "toString"] 3
    {["toString" := ["a"; "b"]]}.

(** The same bank with a record for its first entry only. *)
Definition staleToString : IndexedDB.Database :=
  IndexedDB.mkDb [IndexedDB.mkRecord 1 "a" e1 "toString"] 2
    {["toString" := ["a"; "b"]]}.

(** A store with three custom banks and no records. *)
Definition threeCustomBanks : IndexedDB.Database :=
  IndexedDB.mkDb [] 1
    (<["alpha" := ["a"]]> (<["Zeta" := ["z"]]> (<["Mine" := ["m"]]> ∅))).

(** The dot product, which is the cosine similarity on unit vectors. *)
Definition dot (a b : IndexedDB.vector) : Q :=
  fold_right Qplus 0%Q
    (zip_with (fun x y => match x, y with
                          | Js.Num p, Js.Num q => (p * q)%Q
                          | _, _ => 0%Q
                          end) a b).

Definition twoTexts : list IndexedDB.MemoryRecord :=
  [IndexedDB.mkRecord 1 "text1" e1 "General";
   IndexedDB.mkRecord 2 "text2" e2 "General"].

(** The dot product of rational vectors. *)
Definition unitDot (a b : list Q) : Q :=
  fold_right Qplus 0%Q (zip_with Qmult a b).

(** A text of 20 facts, one per line. *)
Definition twentyLines : string :=
  "a" +:+ App.newline +:+ "b" +:+ App.newline +:+ "c" +:+ App.newline +:+
  "d" +:+ App.newline +:+ "e" +:+ App.newline +:+ "f" +:+ App.newline +:+
  "g" +:+ App.newline +:+ "h" +:+ App.newline +:+ "i" +:+ App.newline +:+
  "j" +:+ App.newline +:+ "k" +:+ App.newline +:+ "l" +:+ App.newline +:+
  "m" +:+ App.newline +:+ "n" +:+ App.newline +:+ "o" +:+ App.newline +:+
  "p" +:+ App.newline +:+ "q" +:+ App.newline +:+ "r" +:+ App.newline +:+
  "s" +:+ App.newline +:+ "t".

(** A session: the page is loaded on a fresh installation and the
    embeddings of the active bank are shown; then the bank "Mine" is
    created. *)
Definition started : App.World :=
  (App.setup builtin env (App.mount builtin IndexedDB.emptyDb)).2.

Definition shown : App.World :=
  (App.loadBank builtin env (App.activeBank started)
     (App.customBankObject (fun _ _ => Js.Undefined) started) started).2.

Definition afterCreation : App.World :=
  (App.saveBankClicked env " Mine " "a fact" shown).2.

(** The same surroundings, except that the store rejects the request
    issued after [t] awaits. *)
Definition rejectingAt (t : nat) : App.Env :=
  App.mkEnv (Some instance) (fun _ => false) (Nat.eqb t).

(** Another session: the creation of "Mine" has its definition saved and
    its first record rejected; then "mine" is created, and the page is
    loaded again. *)
Definition halfCreated : App.World :=
  (App.saveBankClicked (rejectingAt (S (S (App.now shown)))) "Mine" "a fact" shown).2.

Definition createdAgain : App.World :=
  (App.saveBankClicked env "mine" "a fact" halfCreated).2.

Definition reloaded : App.World :=
  (App.setup builtin env (App.mount builtin (App.db createdAgain))).2.

(** A third session: the bank "toString" is created with two entries,
    which makes it the active bank, and the [loadBank] effect runs. *)
Definition createdToString : App.World :=
  (App.saveBankClicked env "toString" ("a" +:+ App.newline +:+ "b") shown).2.

Definition loadedToString : App.outcome unit * App.World :=
  App.loadBank builtin env (App.activeBank createdToString)
    (App.customBankObject (fun _ _ => Js.Undefined) createdToString)
    createdToString.

End Fixture.

(** *** Vocabulary of the further properties *)

(** A working copy agrees with its row: same length, and every entry is
    the row's or the mark -1. *)
Definition agrees (row sims : list Q) : Prop :=
  length sims = length row
  /\ forall i y, sims !! i = Some y -> y = (-1)%Q \/ row !! i = Some y.

(** [c] is the index of an entry of the row above the threshold. *)
Definition edgeOf (row : list Q) (c : Z) : Prop :=
  exists j s, c = Z.of_nat j /\ row !! j = Some s /\ (1 # 10 < s)%Q.

(** The keys of the [memories] store: pairwise distinct, in increasing
    order, and all below the key generator. *)
Definition keysInv (db : IndexedDB.Database) : Prop :=
  StronglySorted lt (IndexedDB.id <$> IndexedDB.memories db)
  /\ Forall (fun k => k < IndexedDB.nextId db) (IndexedDB.id <$> IndexedDB.memories db).

(** The requests that go to the [memories] store; the others go to
    [custom_banks]. *)
Definition onMemories (q : Records.request) : bool :=
  match q with
  | Records.SaveCustom _ | Records.DeleteCustom _ => false
  | _ => true
  end.

(** A text that [generateEmbedding] answers with the zero vector without
    running the model. *)
Definition blank (text : string) : bool := String.eqb (Js.trim text) EmptyString.

(** The tensor operations keep the sizes the code relies on: [normalize]
    keeps the length, and the pooled output has at least the 256 components
    the truncation slices. *)
Definition wellSized (inst : Embedding.EmbeddingInstance) : Prop :=
  (forall v, length (Embedding.normalize2 inst v) = length v)
  /\ forall t p, Embedding.pooled inst t = Some p -> 256 <= length p.

(** A loaded model of native size 1024 whose pooled output has 300
    components, all 1, and whose normalisation is the identity. *)
Definition sizedInstance : Embedding.EmbeddingInstance :=
  Embedding.mkInstance 1024 (fun _ => Some (repeat (Js.Num 1) 300)) (fun v => v).

(** A computation relates every world it starts in to the world it ends
    in, however it ends. *)
Definition preserves {A : Type} (R : App.World -> App.World -> Prop)
    (m : App.M A) : Prop :=
  forall w, R w (m w).2.

(** Between [w] and [w'] the store holds the same records for every bank
    outside [S] and the same definition for every custom bank outside [T]. *)
Definition untouched (S T : string -> bool) (w w' : App.World) : Prop :=
  (forall b, S b = false ->
     IndexedDB.getRecordsByBank b (App.db w') = IndexedDB.getRecordsByBank b (App.db w))
  /\ (forall b, T b = false ->
        IndexedDB.custom_banks (App.db w') !! b = IndexedDB.custom_banks (App.db w) !! b).

(** The empty set of bank names. *)
Definition noBank : string -> bool := fun _ => false.

(** The embeddings shown are still [e0], or the run completed and they are
    those of the records the store holds for bank [b]. *)
Definition embeddingsInStep (b : string) (e0 : option (list IndexedDB.vector))
    (r : App.outcome unit * App.World) : Prop :=
  App.memoryBankEmbeddings r.2 = e0
  \/ (r.1 = App.Normal tt
      /\ App.memoryBankEmbeddings r.2
         = Some (IndexedDB.embedding <$> IndexedDB.getRecordsByBank b (App.db r.2))).

(** The embeddings shown do not change. *)
Definition sameEmbeddings (w w' : App.World) : Prop :=
  App.memoryBankEmbeddings w' = App.memoryBankEmbeddings w.

(** A bank as the modal lets it through: a trimmed, non-empty name and
    between 1 and 20 entries, each a trimmed, non-empty line. *)
Definition wellFormedBank (n : string) (content : list string) : Prop :=
  n <> EmptyString /\ Js.trim n = n
  /\ 1 <= length content <= 20
  /\ Forall (fun line => line <> EmptyString /\ Js.trim line = line) content.

(** Between [w] and [w'] the stored definitions are unchanged, or bank [n]
    has been saved with [content]. *)
Definition savedOrSame (n : string) (content : list string) (w w' : App.World) : Prop :=
  IndexedDB.custom_banks (App.db w') = IndexedDB.custom_banks (App.db w)
  \/ IndexedDB.custom_banks (App.db w')
     = <[n := content]> (IndexedDB.custom_banks (App.db w)).

(** The requests issued so far, oldest first, and the cached promise: all
    requests have failed and nothing is cached, or all but the last have
    failed and the last one, pending or fulfilled, is the cached one. *)
Definition history {A : Type} (ps : list (IndexedDB.settled A))
    (cached : option nat) : Prop :=
  (cached = None /\ Forall (fun s => s = IndexedDB.Rejected) ps)
  \/ exists pre s,
       ps = pre ++ [s]
       /\ Forall (fun s => s = IndexedDB.Rejected) pre
       /\ s <> IndexedDB.Rejected
       /\ cached = Some (length pre).

(** The history of the open requests of the store: as above, but the
    cached last request may also be one that was rejected when it was
    issued. *)
Definition historyOfOpens {A : Type} (ps : list (IndexedDB.settled A))
    (cached : option nat) : Prop :=
  (cached = None /\ Forall (fun s => s = IndexedDB.Rejected) ps)
  \/ exists pre s,
       ps = pre ++ [s]
       /\ Forall (fun s => s = IndexedDB.Rejected) pre
       /\ cached = Some (length pre).

(** The tiers in ascending order. *)
Definition tier (r : Relevance.relevance) : nat :=
  match r with
  | Relevance.low_relevance => 0
  | Relevance.medium_relevance => 1
  | Relevance.high_relevance => 2
  end.

(** Between [w] and [w'] the interface lists the same banks with the same
    contents and the same active bank, and the stored definitions are the
    same. *)
Definition interfaceKept (w w' : App.World) : Prop :=
  App.availableBanks w' = App.availableBanks w
  /\ App.customBankData w' = App.customBankData w
  /\ App.activeBank w' = App.activeBank w
  /\ IndexedDB.custom_banks (App.db w') = IndexedDB.custom_banks (App.db w).

(** * Properties *)

(** ** Relevance tiers *)

Lemma gt_Num_spec (x y : Q) : Js.gt (Js.Num x) (Js.Num y) = true <-> (y < x)%Q.
Proof.
  simpl. rewrite negb_true_iff. split.
  - intros H. apply Qnot_le_lt. intros Hle.
    apply Qle_bool_iff in Hle. congruence.
  - intros H. destruct (Qle_bool x y) eqn:E; [|reflexivity].
    apply Qle_bool_iff in E. exfalso. exact (Qlt_not_le _ _ H E).
Qed.

Lemma gt_Num_false (x y : Q) : Js.gt (Js.Num x) (Js.Num y) = false <-> (x <= y)%Q.
Proof.
  simpl. rewrite negb_false_iff. apply Qle_bool_iff.
Qed.

(** C9. [getRelevance] returns high exactly for scores above 0.49, medium
    exactly for scores above 0.38 and at most 0.49, low for every other
    score (NaN included); the list view and the visualizer classify with
    this one function and so with the same two constants. *)
Theorem getRelevance_tiers (score : Js.number) :
  (Relevance.getRelevance score = Relevance.high_relevance
     <-> exists q, score = Js.Num q /\ (49 # 100 < q)%Q) /\
  (Relevance.getRelevance score = Relevance.medium_relevance
     <-> exists q, score = Js.Num q /\ (38 # 100 < q)%Q /\ (q <= 49 # 100)%Q) /\
  (Relevance.getRelevance score = Relevance.low_relevance
     <-> forall q, score = Js.Num q -> (q <= 38 # 100)%Q) /\
  Relevance.listItemClass score = Relevance.getRelevance score /\
  Relevance.visualizerClass score = Relevance.getRelevance score.
Proof.
  unfold Relevance.listItemClass, Relevance.visualizerClass,
    Relevance.renderRelevanceInfo, Relevance.getRelevance.
  destruct score as [|q].
  - simpl. repeat split; try discriminate; try (intros [q [H _]]; discriminate).
  - destruct (Js.gt (Js.Num q) (Js.Num (49 # 100))) eqn:Hhi.
    + apply gt_Num_spec in Hhi.
      repeat split; try discriminate; try reflexivity.
      * intros _. exists q. split; [reflexivity | exact Hhi].
      * intros (q' & [= <-] & _ & Hle). exfalso. exact (Qlt_not_le _ _ Hhi Hle).
      * intros H. specialize (H q eq_refl). exfalso.
        apply (Qlt_not_le _ _ Hhi). eapply Qle_trans; [exact H|]. discriminate.
    + apply gt_Num_false in Hhi.
      destruct (Js.gt (Js.Num q) (Js.Num (38 # 100))) eqn:Hmid.
      * apply gt_Num_spec in Hmid.
        repeat split; try discriminate; try reflexivity.
        -- intros (q' & [= <-] & Hlt). exfalso. exact (Qlt_not_le _ _ Hlt Hhi).
        -- intros _. exists q. auto.
        -- intros H. specialize (H q eq_refl). exfalso. exact (Qlt_not_le _ _ Hmid H).
      * apply gt_Num_false in Hmid.
        repeat split; try discriminate; try reflexivity.
        -- intros (q' & [= <-] & Hlt). exfalso. exact (Qlt_not_le _ _ Hlt Hhi).
        -- intros (q' & [= <-] & Hlt & _). exfalso. exact (Qlt_not_le _ _ Hlt Hmid).
        -- intros _ q' [= <-]. exact Hmid.
Qed.

(** ** Rational comparisons as the code computes them *)

Lemma Qle_bool_false (x y : Q) : Qle_bool x y = false <-> (y < x)%Q.
Proof.
  split.
  - intros H. apply Qnot_le_lt. intros Hle. apply Qle_bool_iff in Hle. congruence.
  - intros H. destruct (Qle_bool x y) eqn:E; [|reflexivity].
    apply Qle_bool_iff in E. exfalso. exact (Qlt_not_le _ _ H E).
Qed.

Lemma Qeq_bool_false (x y : Q) : ~ (x == y)%Q -> Qeq_bool x y = false.
Proof.
  intros H. destruct (Qeq_bool x y) eqn:E; [|reflexivity].
  apply Qeq_bool_iff in E. contradiction.
Qed.

(** ** The neighbour graph *)

Lemma selectLoop_select (row : list Q) (n : nat) (s0 : Q) (rest : list Q)
    (conns : list Z) :
  Qle_bool (MemoryVisualizer.Math_max s0 rest) (1 # 10) = false ->
  MemoryVisualizer.selectLoop row (S n) (s0 :: rest) conns =
  MemoryVisualizer.selectLoop row n
    (MemoryVisualizer.assignAt (s0 :: rest)
       (MemoryVisualizer.indexOf row (MemoryVisualizer.Math_max s0 rest)) (-1)%Q)
    (conns ++ [MemoryVisualizer.indexOf row (MemoryVisualizer.Math_max s0 rest)]).
Proof. intros H. cbn [MemoryVisualizer.selectLoop]. cbv zeta. rewrite H. reflexivity. Qed.

Lemma selectLoop_stop (row : list Q) (n : nat) (s0 : Q) (rest : list Q)
    (conns : list Z) :
  Qle_bool (MemoryVisualizer.Math_max s0 rest) (1 # 10) = true ->
  MemoryVisualizer.selectLoop row (S n) (s0 :: rest) conns = conns.
Proof. intros H. cbn [MemoryVisualizer.selectLoop]. cbv zeta. rewrite H. reflexivity. Qed.

Section NeighbourTies.
Variable s : Q.
Hypothesis above : (1 # 10 < s)%Q.

Let row : list Q := [0%Q; s; s].

Lemma tie_positive : (0 < s)%Q.
Proof. eapply Qlt_trans; [|exact above]. reflexivity. Qed.

(** Whatever the working copy has become, as long as its maximum is
    still [s] the lookup in the untouched row lands on index 1. *)
Lemma tie_lookup (m : Q) :
  (m == s)%Q ->
  Qle_bool m (1 # 10) = false /\ MemoryVisualizer.indexOf row m = 1%Z.
Proof.
  intros Hm. split.
  - apply Qle_bool_false. rewrite Hm. exact above.
  - unfold MemoryVisualizer.indexOf, row. simpl.
    rewrite Qeq_bool_false.
    + assert (Qeq_bool s m = true) as ->; [|reflexivity].
      apply Qeq_bool_iff. symmetry. exact Hm.
    + intros H0. rewrite Hm in H0. pose proof tie_positive as Hp.
      rewrite <- H0 in Hp. exact (Qlt_irrefl _ Hp).
Qed.

Lemma tie_max_first : (MemoryVisualizer.Math_max 0 [s; s] == s)%Q.
Proof.
  unfold MemoryVisualizer.Math_max. simpl.
  pose proof tie_positive as Hp.
  rewrite (Q.max_r 0 s) by (apply Qlt_le_weak; exact Hp).
  apply Q.max_l. apply Qle_refl.
Qed.

Lemma tie_max_later : (MemoryVisualizer.Math_max 0 [(-1)%Q; s] == s)%Q.
Proof.
  unfold MemoryVisualizer.Math_max. simpl.
  pose proof tie_positive as Hp.
  rewrite (Q.max_l 0 (-1)) by discriminate.
  apply Q.max_r. apply Qlt_le_weak; exact Hp.
Qed.

Lemma tie_connections :
  MemoryVisualizer.connectionsOf row = [1%Z; 1%Z; 1%Z].
Proof.
  unfold MemoryVisualizer.connectionsOf, MemoryVisualizer.MAX_CONNECTIONS, row.
  destruct (tie_lookup _ tie_max_first) as [Hle1 Hix1].
  destruct (tie_lookup _ tie_max_later) as [Hle2 Hix2].
  unfold row in Hix1, Hix2.
  rewrite (selectLoop_select _ _ _ _ _ Hle1), Hix1.
  change (MemoryVisualizer.assignAt [0%Q; s; s] 1 (-1)%Q) with [0%Q; (-1)%Q; s].
  rewrite (selectLoop_select _ _ _ _ _ Hle2), Hix2.
  change (MemoryVisualizer.assignAt [0%Q; (-1)%Q; s] 1 (-1)%Q) with [0%Q; (-1)%Q; s].
  rewrite (selectLoop_select _ _ _ _ _ Hle2), Hix2.
  reflexivity.
Qed.
End NeighbourTies.

Section NeighbourSpecTies.
Variable s : Q.
Hypothesis above : (1 # 10 < s)%Q.

(** The selection as specified moves on to the second of two equal
    candidates. *)
Lemma tie_spec : MemoryVisualizer.neighboursSpec [0%Q; s; s] = [1%Z; 2%Z].
Proof.
  pose proof (tie_positive s above) as Hp.
  assert (Qle_bool s s = true) as Hss by (apply Qle_bool_iff, Qle_refl).
  assert (Qle_bool s 0 = false) as Hs0 by (apply Qle_bool_false; exact Hp).
  assert (Qle_bool s (1 # 10) = false) as Hst by (apply Qle_bool_false; exact above).
  unfold MemoryVisualizer.neighboursSpec, MemoryVisualizer.MAX_CONNECTIONS.
  cbn -[Qle_bool]. rewrite Hss, Hs0. cbn -[Qle_bool]. rewrite Hst.
  cbn -[Qle_bool]. rewrite Hs0. cbn -[Qle_bool]. rewrite Hst.
  cbn -[Qle_bool].
  assert (Qle_bool 0 (1 # 10) = true) as -> by reflexivity.
  reflexivity.
Qed.
End NeighbourSpecTies.

(** *** Rows without equal similarities

    On such rows the loop is the selection the specification describes. *)

Lemma Math_max_fold_upper (xs : list Q) (x : Q) :
  (x <= fold_left Qmax xs x)%Q
  /\ (forall y, y ∈ xs -> (y <= fold_left Qmax xs x)%Q).
Proof.
  revert x. induction xs as [|z xs IH]; intros x; simpl.
  - split; [apply Qle_refl|]. intros y Hy. apply elem_of_nil in Hy. contradiction.
  - destruct (IH (Qmax x z)) as [Hx Hall]. split.
    + eapply Qle_trans; [apply Q.le_max_l|exact Hx].
    + intros y Hy. apply elem_of_cons in Hy as [->|Hy]; [|apply Hall; exact Hy].
      eapply Qle_trans; [apply Q.le_max_r|exact Hx].
Qed.

Lemma Math_max_fold_attained (xs : list Q) (x : Q) :
  exists i y, (x :: xs) !! i = Some y /\ (y == fold_left Qmax xs x)%Q.
Proof.
  revert x. induction xs as [|z xs IH]; intros x; simpl.
  - exists 0, x. split; [reflexivity|apply Qeq_refl].
  - destruct (IH (Qmax x z)) as (i & y & Hi & Hy).
    destruct i as [|i].
    + simpl in Hi. injection Hi as <-.
      destruct (Q.max_dec x z) as [Hm|Hm].
      * exists 0, x. split; [reflexivity|]. rewrite <- Hy. symmetry. exact Hm.
      * exists 1, z. split; [reflexivity|]. rewrite <- Hy. symmetry. exact Hm.
    + exists (S (S i)), y. split; [exact Hi|exact Hy].
Qed.

Lemma Math_max_upper (x : Q) (xs : list Q) (i : nat) (y : Q) :
  (x :: xs) !! i = Some y -> (y <= MemoryVisualizer.Math_max x xs)%Q.
Proof.
  unfold MemoryVisualizer.Math_max. destruct (Math_max_fold_upper xs x) as [Hx Hall].
  destruct i as [|i]; simpl; intros Hi.
  - injection Hi as <-. exact Hx.
  - apply Hall. eapply list_elem_of_lookup_2. exact Hi.
Qed.

Lemma bestCandidate_spec (cands : list (nat * Q)) :
  match MemoryVisualizer.bestCandidate cands with
  | None => cands = []
  | Some (j, s) => (j, s) ∈ cands /\ forall i t, (i, t) ∈ cands -> (t <= s)%Q
  end.
Proof.
  induction cands as [|[j s] rest IH]; [reflexivity|]. cbn [MemoryVisualizer.bestCandidate].
  destruct (MemoryVisualizer.bestCandidate rest) as [[j' s']|].
  - destruct IH as [Hin Hmax]. destruct (Qle_bool s' s) eqn:E.
    + apply Qle_bool_iff in E. split; [left|].
      intros i t Hi. apply elem_of_cons in Hi as [[= -> ->]|Hi]; [apply Qle_refl|].
      eapply Qle_trans; [apply (Hmax i t Hi)|exact E].
    + apply Qle_bool_false in E. split; [right; exact Hin|].
      intros i t Hi. apply elem_of_cons in Hi as [[= -> ->]|Hi].
      * apply Qlt_le_weak. exact E.
      * apply (Hmax i t Hi).
  - subst rest. split; [left|].
    intros i t Hi. apply list_elem_of_singleton in Hi. injection Hi as -> ->.
    apply Qle_refl.
Qed.

Lemma indexOfFrom_unique (row : list Q) (m : Q) (k j : nat) (s : Q) :
  row !! j = Some s -> (s == m)%Q ->
  (forall i t, row !! i = Some t -> (t == m)%Q -> i = j) ->
  MemoryVisualizer.indexOfFrom row m k = Z.of_nat (k + j).
Proof.
  revert k j. induction row as [|y ys IH]; intros k j Hj Hs Huniq; [discriminate|].
  cbn [MemoryVisualizer.indexOfFrom]. destruct (Qeq_bool y m) eqn:E.
  - apply Qeq_bool_iff in E. rewrite <- (Huniq 0 y eq_refl E). f_equal. lia.
  - destruct j as [|j].
    + simpl in Hj. injection Hj as ->. apply Qeq_bool_iff in Hs. congruence.
    + rewrite (IH (S k) j Hj Hs).
      * f_equal. lia.
      * intros i t Hi Ht. specialize (Huniq (S i) t Hi Ht). lia.
Qed.

Lemma marked_lookup (row : list Q) (sel : list nat) (i : nat) (y : Q) :
  marked row sel !! i = Some y <->
  ((i ∈ sel) /\ y = (-1)%Q /\ is_Some (row !! i))
  \/ ((i ∉ sel) /\ row !! i = Some y).
Proof.
  unfold marked. rewrite list_lookup_imap.
  destruct (row !! i) as [x|]; simpl.
  - destruct (decide (i ∈ sel)) as [Hin|Hnin].
    + rewrite bool_decide_eq_true_2 by exact Hin. split.
      * intros [= <-]. left. eauto.
      * intros [(_ & -> & _)|[Hn _]]; [reflexivity|contradiction].
    + rewrite bool_decide_eq_false_2 by exact Hnin. split.
      * intros [= <-]. right. auto.
      * intros [(Hi & _)|[_ H]]; [contradiction|exact H].
  - split; [discriminate|]. intros [(_ & _ & [x Hx])|[_ H]]; discriminate.
Qed.

Lemma remaining_elem (row : list Q) (sel : list nat) (i : nat) (t : Q) :
  (i, t) ∈ remaining row sel <-> row !! i = Some t /\ i ∉ sel.
Proof.
  unfold remaining. rewrite list_elem_of_In, filter_In, <- list_elem_of_In.
  rewrite negb_true_iff, bool_decide_eq_false. simpl.
  rewrite elem_of_lookup_imap. split.
  - intros [(k & x & [= -> ->] & Hk) Hn]. auto.
  - intros [Hi Hn]. split; [exists i, t; auto|exact Hn].
Qed.

Lemma marked_select (row : list Q) (sel : list nat) (j : nat) :
  MemoryVisualizer.assignAt (marked row sel) (Z.of_nat j) (-1)%Q
  = marked row (j :: sel).
Proof.
  unfold MemoryVisualizer.assignAt.
  assert ((0 <=? Z.of_nat j)%Z = true) as -> by (apply Z.leb_le; lia).
  rewrite Nat2Z.id. apply list_eq. intros i.
  destruct (decide (i = j)) as [->|Hne].
  - destruct (decide (j < length (marked row sel))) as [Hlt|Hge].
    + rewrite list_lookup_insert_eq by exact Hlt.
      unfold marked in *. rewrite length_imap in Hlt.
      rewrite list_lookup_imap.
      destruct (lookup_lt_is_Some_2 row j Hlt) as [x ->]. simpl.
      rewrite bool_decide_eq_true_2 by left. reflexivity.
    + rewrite list_insert_ge by lia. unfold marked in *.
      rewrite length_imap in Hge. rewrite !list_lookup_imap.
      rewrite (lookup_ge_None_2 row j) by lia. reflexivity.
  - rewrite list_lookup_insert_ne by congruence. unfold marked.
    rewrite !list_lookup_imap. destruct (row !! i) as [x|]; [|reflexivity]. simpl.
    destruct (decide (i ∈ sel)) as [Hin|Hnin].
    + rewrite !bool_decide_eq_true_2; [reflexivity|right; exact Hin|exact Hin].
    + rewrite !bool_decide_eq_false_2; [reflexivity| |exact Hnin].
      intros Hin. apply elem_of_cons in Hin as [Hin|Hin]; contradiction.
Qed.

Lemma remaining_select (row : list Q) (sel : list nat) (j : nat) :
  List.filter (fun c : nat * Q => negb (Nat.eqb c.1 j)) (remaining row sel)
  = remaining row (j :: sel).
Proof.
  unfold remaining. generalize (imap (fun (j0 : nat) (s : Q) => (j0, s)) row).
  intros l. induction l as [|[i t] l IH]; [reflexivity|]. simpl.
  destruct (decide (i ∈ sel)) as [Hin|Hnin].
  - rewrite (bool_decide_eq_true_2 (i ∈ sel)) by exact Hin.
    rewrite (bool_decide_eq_true_2 (i ∈ j :: sel)) by (right; exact Hin).
    simpl. exact IH.
  - rewrite (bool_decide_eq_false_2 (i ∈ sel)) by exact Hnin. simpl.
    destruct (Nat.eqb i j) eqn:E.
    + apply Nat.eqb_eq in E. subst i.
      rewrite (bool_decide_eq_true_2 (j ∈ j :: sel)) by left. simpl. exact IH.
    + apply Nat.eqb_neq in E.
      rewrite (bool_decide_eq_false_2 (i ∈ j :: sel)).
      * simpl. rewrite IH. reflexivity.
      * intros Hin. apply elem_of_cons in Hin as [Hin|Hin]; contradiction.
Qed.

Lemma selectLoop_greedy (row : list Q) (n : nat) (sel : list nat) (conns : list Z) :
  distinctAbove row ->
  MemoryVisualizer.selectLoop row n (marked row sel) conns
  = conns ++ MemoryVisualizer.greedySpec n (remaining row sel).
Proof.
  intros Hdist. revert sel conns. induction n as [|n IH]; intros sel conns.
  - simpl. rewrite app_nil_r. reflexivity.
  - pose proof (bestCandidate_spec (remaining row sel)) as Hbest.
    cbn [MemoryVisualizer.greedySpec].
    destruct (marked row sel) as [|s0 rest] eqn:Hm.
    { simpl. destruct (MemoryVisualizer.bestCandidate (remaining row sel))
        as [[j s]|]; [|rewrite app_nil_r; reflexivity].
      destruct Hbest as [Hin _]. apply remaining_elem in Hin as [Hj Hn].
      assert (marked row sel !! j = Some s) as Hmj
        by (apply marked_lookup; right; auto).
      rewrite Hm in Hmj. discriminate. }
    destruct (Qle_bool (MemoryVisualizer.Math_max s0 rest) (1 # 10)) eqn:Hle.
    + rewrite selectLoop_stop by exact Hle.
      destruct (MemoryVisualizer.bestCandidate (remaining row sel))
        as [[j s]|]; [|rewrite app_nil_r; reflexivity].
      destruct Hbest as [Hin _]. apply remaining_elem in Hin as [Hj Hn].
      assert ((s0 :: rest) !! j = Some s) as Hmj
        by (rewrite <- Hm; apply marked_lookup; right; auto).
      apply Math_max_upper in Hmj. apply Qle_bool_iff in Hle.
      assert (Qle_bool s (1 # 10) = true) as ->
        by (apply Qle_bool_iff; eapply Qle_trans; eassumption).
      rewrite app_nil_r. reflexivity.
    + rewrite selectLoop_select by exact Hle. apply Qle_bool_false in Hle.
      destruct (Math_max_fold_attained rest s0) as (i0 & y & Hi0 & Hy).
      fold (MemoryVisualizer.Math_max s0 rest) in Hy.
      rewrite <- Hm in Hi0. apply marked_lookup in Hi0
        as [(_ & -> & _)|[Hn0 Hr0]].
      { exfalso. rewrite <- Hy in Hle. apply (Qlt_not_le _ _ Hle). discriminate. }
      assert ((i0, y) ∈ remaining row sel) as Hc0 by (apply remaining_elem; auto).
      destruct (MemoryVisualizer.bestCandidate (remaining row sel)) as [[j s]|];
        [|rewrite Hbest in Hc0; apply elem_of_nil in Hc0; contradiction].
      destruct Hbest as [Hin Hmax]. apply remaining_elem in Hin as [Hj Hn].
      assert ((s == MemoryVisualizer.Math_max s0 rest)%Q) as Hs.
      { apply Qle_antisym.
        - eapply (Math_max_upper s0 rest j). rewrite <- Hm.
          apply marked_lookup. right. auto.
        - rewrite <- Hy. apply (Hmax i0 y Hc0). }
      assert (Qle_bool s (1 # 10) = false) as ->
        by (apply Qle_bool_false; rewrite Hs; exact Hle).
      assert (MemoryVisualizer.indexOf row (MemoryVisualizer.Math_max s0 rest)
              = Z.of_nat j) as ->.
      { unfold MemoryVisualizer.indexOf.
        rewrite (indexOfFrom_unique row _ 0 j s Hj Hs); [reflexivity|].
        intros i t Hi Ht. apply (Hdist i j t s Hi Hj).
        - rewrite Ht. exact Hle.
        - rewrite Ht, Hs. reflexivity. }
      rewrite <- Hm, marked_select, IH, remaining_select, <- app_assoc.
      reflexivity.
Qed.

(** On a row whose similarities above the threshold are pairwise different
    the neighbour list is the specified one. *)
Lemma connectionsOf_distinct (row : list Q) :
  distinctAbove row ->
  MemoryVisualizer.connectionsOf row = MemoryVisualizer.neighboursSpec row.
Proof.
  intros Hdist.
  unfold MemoryVisualizer.connectionsOf, MemoryVisualizer.neighboursSpec.
  assert (marked row [] = row) as Hm.
  { unfold marked. apply list_eq. intros i. rewrite list_lookup_imap.
    destruct (row !! i); reflexivity. }
  assert (remaining row [] = imap (fun j s => (j, s)) row) as Hr.
  { unfold remaining. generalize (imap (fun (j : nat) (s : Q) => (j, s)) row).
    intros l. induction l as [|c l IH]; [reflexivity|]. cbn [List.filter].
    rewrite bool_decide_eq_false_2 by apply not_elem_of_nil.
    cbn [negb]. rewrite IH. reflexivity. }
  rewrite <- Hm at 2. rewrite (selectLoop_greedy row _ [] [] Hdist), Hr.
  reflexivity.
Qed.

(** C2. On a row whose similarities above the threshold are pairwise
    different the loop yields the specified selection.  With two candidates
    of the same similarity above the threshold (the second and third
    embedding are one vector) it does not: the loop looks the maximum up in
    the untouched row, finds index 1 each time and lists it three times, and
    index 2 is never selected, whereas the selection as specified yields 1,
    then 2. *)
Theorem connections_repeat_first_of_equal_candidates :
  (forall row, distinctAbove row ->
     MemoryVisualizer.connectionsOf row = MemoryVisualizer.neighboursSpec row)
  /\ (forall (vec : Type) (cosineSimilarity : vec -> vec -> Q) (a b : vec)
             (t0 t1 t2 : string),
        (1 # 10 < cosineSimilarity a b)%Q ->
        MemoryVisualizer.connections
          <$> (MemoryVisualizer.buildNodes cosineSimilarity true [t0; t1; t2] [a; b; b]
                 ≫= fun nodes => nodes !! 0%nat)
        = Some [1%Z; 1%Z; 1%Z]
        /\ MemoryVisualizer.neighboursSpec
             (MemoryVisualizer.similarityRow cosineSimilarity [a; b; b] 0 a)
           = [1%Z; 2%Z]).
Proof.
  split; [exact connectionsOf_distinct|].
  intros vec cosineSimilarity a b t0 t1 t2 Habove. split.
  - cbn. f_equal. apply tie_connections. exact Habove.
  - change (MemoryVisualizer.similarityRow cosineSimilarity [a; b; b] 0 a)
      with [0%Q; cosineSimilarity a b; cosineSimilarity a b].
    apply tie_spec. exact Habove.
Qed.

Lemma connections_repeat_first_of_equal_candidates_witness :
  (1 # 10 < Fixture.unitDot [3 # 5; 4 # 5] [1; 0])%Q /\
  MemoryVisualizer.connections
    <$> (MemoryVisualizer.buildNodes Fixture.unitDot true ["a"; "b"; "b"]
           [[3 # 5; 4 # 5]; [1; 0]; [1; 0]]%Q
           ≫= fun nodes => nodes !! 0%nat)
  = Some [1%Z; 1%Z; 1%Z].
Proof.
  split; [reflexivity|].
  apply (proj2 connections_repeat_first_of_equal_candidates (list Q) Fixture.unitDot
           [3 # 5; 4 # 5]%Q [1; 0]%Q "a" "b" "b").
  reflexivity.
Defined.

(** A row without ties, for comparison. *)
Example connections_without_ties :
  MemoryVisualizer.connectionsOf [0; 1 # 2; 1 # 3; 1 # 20; 4 # 5]%Q
  = [4%Z; 1%Z; 2%Z].
Proof. reflexivity. Qed.

(** ** Search ranking *)

Lemma byScore_nonpos (x y : App.SearchResult) :
  Qle_bool (App.byScore x y) 0 = true <-> (App.score y <= App.score x)%Q.
Proof.
  unfold App.byScore. rewrite Qle_bool_iff. split; intros H.
  - apply Qplus_le_l with (z := (- App.score x)%Q). ring_simplify.
    ring_simplify in H. exact H.
  - apply Qplus_le_l with (z := App.score x). ring_simplify. exact H.
Qed.

Lemma byScore_pos (x y : App.SearchResult) :
  Qle_bool (App.byScore x y) 0 = false <-> (App.score x < App.score y)%Q.
Proof.
  split; intros H.
  - apply Qnot_le_lt. intros Hle. apply byScore_nonpos in Hle. congruence.
  - destruct (Qle_bool (App.byScore x y) 0) eqn:E; [|reflexivity].
    apply byScore_nonpos in E. exfalso. exact (Qlt_not_le _ _ H E).
Qed.

Lemma insertSorted_Permutation (x : App.SearchResult) (l : list App.SearchResult) :
  Permutation (App.insertSorted App.byScore x l) (x :: l).
Proof.
  induction l as [|y ys IH]; simpl; [reflexivity|].
  destruct (Qle_bool (App.byScore x y) 0); [reflexivity|].
  rewrite IH. apply perm_swap.
Qed.

Lemma Array_sort_Permutation (l : list App.SearchResult) :
  Permutation (App.Array_sort App.byScore l) l.
Proof.
  induction l as [|x xs IH]; simpl; [reflexivity|].
  rewrite insertSorted_Permutation. apply perm_skip. exact IH.
Qed.

Lemma insertSorted_descending (x : App.SearchResult) (l : list App.SearchResult) :
  descending l -> descending (App.insertSorted App.byScore x l).
Proof.
  unfold descending. induction l as [|y ys IH]; intros Hs; simpl.
  - constructor; constructor.
  - destruct (Qle_bool (App.byScore x y) 0) eqn:E.
    + apply byScore_nonpos in E. constructor; [exact Hs|].
      constructor; [exact E|].
      apply StronglySorted_inv in Hs as [_ Hall].
      eapply Forall_impl; [exact Hall|].
      intros z Hz. simpl in Hz. eapply Qle_trans; eassumption.
    + apply byScore_pos in E.
      apply StronglySorted_inv in Hs as [Hys Hall].
      constructor; [apply IH; exact Hys|].
      eapply Permutation_Forall.
      * symmetry. apply insertSorted_Permutation.
      * constructor; [apply Qlt_le_weak; exact E | exact Hall].
Qed.

Lemma Array_sort_descending (l : list App.SearchResult) :
  descending (App.Array_sort App.byScore l).
Proof.
  induction l as [|x xs IH]; simpl.
  - constructor.
  - apply insertSorted_descending, IH.
Qed.

(** Insertion only moves an element past strictly greater scores, so the
    results of any one score keep their order. *)
Lemma insertSorted_withScore (s : Q) (x : App.SearchResult)
    (l : list App.SearchResult) :
  withScore s (App.insertSorted App.byScore x l) = withScore s (x :: l).
Proof.
  induction l as [|y ys IH]; simpl; [reflexivity|].
  destruct (Qle_bool (App.byScore x y) 0) eqn:E; [reflexivity|].
  apply byScore_pos in E.
  unfold withScore in *. simpl in *. rewrite IH.
  destruct (Qeq_bool (App.score x) s) eqn:Ex;
    destruct (Qeq_bool (App.score y) s) eqn:Ey; try reflexivity.
  apply Qeq_bool_iff in Ex. apply Qeq_bool_iff in Ey.
  rewrite Ex, Ey in E. exfalso. exact (Qlt_irrefl _ E).
Qed.

Lemma Array_sort_withScore (s : Q) (l : list App.SearchResult) :
  withScore s (App.Array_sort App.byScore l) = withScore s l.
Proof.
  induction l as [|x xs IH]; simpl; [reflexivity|].
  rewrite insertSorted_withScore. unfold withScore in *. simpl.
  rewrite IH. reflexivity.
Qed.

Section Ranking.
Variable cosineSimilarity : IndexedDB.vector -> IndexedDB.vector -> Q.

Lemma scoreAll_from (q : IndexedDB.vector) (pre records : list IndexedDB.MemoryRecord) :
  mapM (fun it : nat * string =>
          e ← (IndexedDB.embedding <$> (pre ++ records)) !! it.1;
          Some (App.mkResult it.2 (cosineSimilarity q e)))
       (imap (fun i text => (length pre + i, text)) (IndexedDB.text <$> records))
  = Some (scored cosineSimilarity q records).
Proof.
  revert pre. induction records as [|r rs IH]; intros pre; [reflexivity|].
  cbn [fmap list_fmap imap mapM]. simpl fst. simpl snd.
  rewrite Nat.add_0_r.
  rewrite list_lookup_fmap, lookup_app_r, Nat.sub_diag by lia.
  simpl.
  specialize (IH (pre ++ [r])).
  rewrite <- app_assoc in IH. simpl in IH.
  erewrite imap_ext; [rewrite IH; reflexivity|].
  intros i x _. simpl. rewrite length_app. simpl. f_equal. lia.
Qed.

Lemma scoreAll_records (q : IndexedDB.vector) (records : list IndexedDB.MemoryRecord) :
  App.scoreAll cosineSimilarity q (IndexedDB.text <$> records)
    (IndexedDB.embedding <$> records) = Some (scored cosineSimilarity q records).
Proof. exact (scoreAll_from q [] records). Qed.
End Ranking.

(** C8. For a non-empty query whose embedding the provider delivers,
    [handleSearch] scores every record with its cosine similarity to the
    query and sets the results to these (text, score) pairs sorted by
    descending score, records of one score staying in record order. *)
Theorem handleSearch_ranks_stably
    (cosineSimilarity : IndexedDB.vector -> IndexedDB.vector -> Q)
    (loaded : option Embedding.EmbeddingInstance) (query : string)
    (queryEmbedding : IndexedDB.vector)
    (records : list IndexedDB.MemoryRecord) :
  query <> EmptyString ->
  App.generateQueryEmbedding loaded query Embedding.noOptions = Some queryEmbedding ->
  exists results,
    App.handleSearch cosineSimilarity loaded query
      (IndexedDB.text <$> records) (Some (IndexedDB.embedding <$> records))
    = App.SetSearchResults results
    /\ Permutation results (scored cosineSimilarity queryEmbedding records)
    /\ descending results
    /\ forall s, withScore s results
                 = withScore s (scored cosineSimilarity queryEmbedding records).
Proof.
  intros Hq Hemb.
  exists (App.Array_sort App.byScore (scored cosineSimilarity queryEmbedding records)).
  split; [|split; [|split]].
  - unfold App.handleSearch.
    destruct (String.eqb query EmptyString) eqn:E.
    + apply String.eqb_eq in E. contradiction.
    + rewrite Hemb, scoreAll_records. reflexivity.
  - apply Array_sort_Permutation.
  - apply Array_sort_descending.
  - intros s. apply Array_sort_withScore.
Qed.

(** ** Bank synchronisation *)

Lemma stored_cons (k : nat) (r : IndexedDB.NewRecord) (rs : list IndexedDB.NewRecord) :
  stored k (r :: rs) =
  IndexedDB.mkRecord k (IndexedDB.new_text r) (IndexedDB.new_embedding r)
    (IndexedDB.new_bank r) :: stored (S k) rs.
Proof.
  unfold stored. cbn [imap]. rewrite Nat.add_0_r. f_equal.
  apply imap_ext. intros i x _. simpl. f_equal. lia.
Qed.

Lemma addMany_effects rs w :
  App.effects (addMany rs w) = App.effects w ++ (App.AddRecord <$> rs).
Proof.
  revert w. induction rs as [|r rs IH]; intros w; simpl.
  - rewrite app_nil_r. reflexivity.
  - rewrite IH. simpl. rewrite <- app_assoc. reflexivity.
Qed.

Lemma addMany_memories rs w :
  IndexedDB.memories (App.db (addMany rs w)) =
  IndexedDB.memories (App.db w) ++ stored (IndexedDB.nextId (App.db w)) rs.
Proof.
  revert w. induction rs as [|r rs IH]; intros w.
  - simpl. unfold stored. simpl. rewrite app_nil_r. reflexivity.
  - cbn [addMany]. rewrite IH. simpl. rewrite stored_cons, <- app_assoc.
    reflexivity.
Qed.

Lemma addMany_custom_banks rs w :
  IndexedDB.custom_banks (App.db (addMany rs w)) = IndexedDB.custom_banks (App.db w).
Proof.
  revert w. induction rs as [|r rs IH]; intros w; [reflexivity|].
  cbn [addMany]. rewrite IH. reflexivity.
Qed.

Lemma addMany_react rs w :
  App.availableBanks (addMany rs w) = App.availableBanks w /\
  App.customBankData (addMany rs w) = App.customBankData w /\
  App.activeBank (addMany rs w) = App.activeBank w /\
  App.memoryBankEmbeddings (addMany rs w) = App.memoryBankEmbeddings w /\
  App.isAppLoading (addMany rs w) = App.isAppLoading w.
Proof.
  revert w. induction rs as [|r rs IH]; intros w; [repeat split|].
  cbn [addMany]. destruct (IH (App.withDb (App.AddRecord r)
    (IndexedDB.addRecord r (App.db w)).2 w)) as (-> & -> & -> & -> & ->).
  repeat split.
Qed.

Lemma addMany_now rs w : App.now (addMany rs w) = App.now w + length rs.
Proof.
  revert w. induction rs as [|r rs IH]; intros w; simpl; [lia|].
  rewrite IH. simpl. lia.
Qed.

(** The insertion loop under a check that never fires, on a store that
    accepts every record. *)
Lemma forEach_add (env : App.Env) (check : App.M unit)
    (f : nat -> IndexedDB.NewRecord) (js : list nat) (w : App.World) :
  App.storeReliable env ->
  (forall w', check w' = (App.Normal tt, w')) ->
  App.forEach js (fun j => check;; _ ← App.await_addRecord env (f j); mret tt) w
  = (App.Normal tt, addMany (f <$> js) w).
Proof.
  intros Hrel Hcheck. revert w. induction js as [|j js IH]; intros w; [reflexivity|].
  cbn [App.forEach fmap list_fmap addMany].
  unfold mbind at 1, App.M_bind at 1. unfold mbind at 1, App.M_bind at 1.
  rewrite Hcheck.
  unfold mbind at 1, App.M_bind at 1. unfold App.await_addRecord at 1.
  rewrite Hrel.
  cbn [IndexedDB.addRecord]. unfold mret at 1, App.M_ret at 1.
  rewrite IH. reflexivity.
Qed.

Lemma indexed_zip (b : string) (texts : list string) (vs : list IndexedDB.vector) :
  length vs = length texts ->
  (fun j => IndexedDB.mkNew b (default EmptyString (texts !! j))
              (default [] (vs !! j))) <$> seq 0 (length texts)
  = zip_with (IndexedDB.mkNew b) texts vs.
Proof.
  intros Hlen. apply list_eq. intros i.
  rewrite list_lookup_fmap, lookup_zip_with.
  destruct (decide (i < length texts)) as [Hlt|Hge].
  - rewrite lookup_seq_lt by exact Hlt. simpl.
    destruct (lookup_lt_is_Some_2 texts i Hlt) as [t Ht].
    destruct (lookup_lt_is_Some_2 vs i ltac:(lia)) as [v Hv].
    rewrite Ht, Hv. reflexivity.
  - rewrite lookup_seq_ge by lia. rewrite (lookup_ge_None_2 texts i) by lia.
    reflexivity.
Qed.

Lemma insertAll_run (env : App.Env) (check : App.M unit) (b : string)
    (texts : list string) (vs : list IndexedDB.vector) (w : App.World) :
  App.storeReliable env ->
  (forall w', check w' = (App.Normal tt, w')) ->
  length vs = length texts ->
  App.insertAll env check b texts vs w
  = (App.Normal tt, addMany (zip_with (IndexedDB.mkNew b) texts vs) w).
Proof.
  intros Hrel Hcheck Hlen. unfold App.insertAll.
  rewrite (forEach_add env check
             (fun j => IndexedDB.mkNew b (default EmptyString (texts !! j))
                         (default [] (vs !! j)))) by assumption.
  rewrite indexed_zip by exact Hlen. reflexivity.
Qed.

Lemma await_read_reliable {A : Type} (env : App.Env) (f : IndexedDB.Database -> A)
    (w : App.World) :
  App.storeReliable env ->
  App.await_read env f w = (App.Normal (f (App.db w)), App.tick w).
Proof. intros Hrel. unfold App.await_read. rewrite Hrel. reflexivity. Qed.

Lemma await_write_reliable (env : App.Env) (e : App.Effect)
    (f : IndexedDB.Database -> IndexedDB.Database) (w : App.World) :
  App.storeReliable env ->
  App.await_write env e f w = (App.Normal tt, App.withDb e (f (App.db w)) w).
Proof. intros Hrel. unfold App.await_write. rewrite Hrel. reflexivity. Qed.

Lemma generateEmbeddings_length loaded texts opts vs :
  Embedding.generateEmbeddings loaded texts opts = Some vs ->
  length vs = length texts.
Proof.
  unfold Embedding.generateEmbeddings. destruct loaded; [|discriminate].
  intros H. symmetry. eapply length_mapM. exact H.
Qed.

Section Synchronisation.
Variable memoryBanks : list (string * list string).
Variable env : App.Env.

Lemma returnIfCancelled_never w :
  neverCancelled env -> App.returnIfCancelled env w = (App.Normal tt, w).
Proof. intros H. unfold App.returnIfCancelled. rewrite H. reflexivity. Qed.

Lemma cacheBank_stale (b : string) (content : list string)
    (vs : list IndexedDB.vector) (w : App.World) :
  neverCancelled env -> App.storeReliable env ->
  Embedding.generateEmbeddings (App.loaded env) content Embedding.noOptions = Some vs ->
  App.needsGeneration (IndexedDB.getRecordsByBank b (App.db w)) content = true ->
  App.cacheBank env b content w
  = (App.Normal tt,
     addMany (zip_with (IndexedDB.mkNew b) content vs) (cleared b content w)).
Proof.
  intros Hnc Hrel Hemb Hstale. unfold App.cacheBank.
  unfold mbind at 1, App.M_bind at 1. rewrite await_read_reliable by exact Hrel.
  unfold mbind at 1, App.M_bind at 1. rewrite returnIfCancelled_never by exact Hnc.
  rewrite Hstale.
  unfold mbind at 1, App.M_bind at 1. rewrite await_write_reliable by exact Hrel.
  unfold mbind at 1, App.M_bind at 1. unfold App.await_generateEmbedding at 1.
  rewrite Hemb. cbv zeta.
  unfold mbind at 1, App.M_bind at 1. rewrite returnIfCancelled_never by exact Hnc.
  pose proof (generateEmbeddings_length _ _ _ _ Hemb) as Hlen.
  destruct vs as [|v vs'].
  - destruct content; [|discriminate]. reflexivity.
  - cbn [App.isArrayOfArrays].
    rewrite insertAll_run; [reflexivity|exact Hrel| |exact Hlen].
    intros w'. apply returnIfCancelled_never. exact Hnc.
Qed.

(** Fetching a custom bank the render does not know writes nothing,
    whether the read goes through or not. *)
Lemma fetchCustomBank_run (b : string) (custom : App.Dictionary)
    (w : App.World) :
  exists o w1,
    App.fetchCustomBank memoryBanks env b custom w = (o, w1)
    /\ App.db w1 = App.db w /\ App.effects w1 = App.effects w
    /\ App.availableBanks w1 = App.availableBanks w
    /\ App.memoryBankEmbeddings w1 = App.memoryBankEmbeddings w
    /\ App.isAppLoading w1 = App.isAppLoading w
    /\ (App.storeReliable env -> o = App.Normal tt).
Proof.
  unfold App.fetchCustomBank.
  destruct (negb (Js.includes (App.defaultBankNames memoryBanks) b)
            && negb (Js.toBoolean (App.get custom b))).
  - unfold mbind, App.M_bind, App.await_read.
    destruct (App.storeFails env (App.now w)) eqn:Hf.
    + do 2 eexists. repeat split. intros Hrel. rewrite Hrel in Hf. discriminate.
    + destruct (IndexedDB.getCustomBank b (App.db w)); do 2 eexists; repeat split.
  - do 2 eexists; repeat split.
Qed.

Lemma await_generateEmbeddingOf_Arr (texts : list string)
    (vs : list IndexedDB.vector) (w : App.World) :
  Embedding.generateEmbeddings (App.loaded env) texts Embedding.noOptions = Some vs ->
  App.await_generateEmbeddingOf env (Js.Arr texts) w
  = (App.Normal (Embedding.Many vs), App.withEffect (App.EmbedRequest texts) w).
Proof.
  intros Hemb. unfold App.await_generateEmbeddingOf, Embedding.generateEmbeddingOf.
  rewrite Hemb. reflexivity.
Qed.

Lemma loadBank_stale (b : string) (custom : App.Dictionary)
    (content : list string) (vs : list IndexedDB.vector) (w : App.World) :
  App.currentBankContent memoryBanks custom b = Js.Arr content ->
  neverCancelled env -> App.storeReliable env ->
  Embedding.generateEmbeddings (App.loaded env) content Embedding.noOptions = Some vs ->
  App.lengthDiffers (IndexedDB.getRecordsByBank b (App.db w)) content = true ->
  exists w1 w',
    App.loadBank memoryBanks env b custom w = (App.Normal tt, w')
    /\ App.db w1 = App.db w /\ App.effects w1 = App.effects w
    /\ App.db w' = App.db (addMany (zip_with (IndexedDB.mkNew b) content vs)
                                   (cleared b content w1))
    /\ App.effects w' = App.effects (addMany (zip_with (IndexedDB.mkNew b) content vs)
                                             (cleared b content w1))
    /\ (content <> [] ->
        App.memoryBankEmbeddings w'
        = Some (IndexedDB.embedding <$> IndexedDB.getRecordsByBank b (App.db w'))).
Proof.
  intros Hcontent Hnc Hrel Hemb Hstale. unfold App.loadBank.
  destruct (fetchCustomBank_run b custom w)
    as (o & w1 & Hrun & Hdb & Heff & _ & _ & _ & Hok).
  rewrite (Hok Hrel) in Hrun. exists w1.
  unfold mbind at 1, App.M_bind at 1. rewrite Hrun.
  unfold mbind at 1, App.M_bind at 1. rewrite await_read_reliable by exact Hrel.
  unfold mbind at 1, App.M_bind at 1. rewrite returnIfCancelled_never by exact Hnc.
  cbv zeta. rewrite Hcontent.
  change (App.lengthDiffersFrom ?c (Js.Arr content))
    with (App.lengthDiffers c content).
  rewrite Hdb, Hstale.
  unfold mbind at 1, App.M_bind at 1. rewrite await_write_reliable by exact Hrel.
  unfold mbind at 1, App.M_bind at 1.
  rewrite (await_generateEmbeddingOf_Arr content vs) by exact Hemb.
  unfold mbind at 1, App.M_bind at 1. rewrite returnIfCancelled_never by exact Hnc.
  pose proof (generateEmbeddings_length _ _ _ _ Hemb) as Hlen.
  destruct vs as [|v vs'].
  - destruct content eqn:Hc; [|discriminate].
    eexists. split; [reflexivity|]. repeat split; try assumption.
    intros Hne. contradiction.
  - cbn [App.isArrayOfArrays].
    unfold mbind at 1, App.M_bind at 1.
    rewrite insertAll_run; [|exact Hrel| |exact Hlen].
    2:{ intros w'. apply returnIfCancelled_never. exact Hnc. }
    unfold mbind at 1, App.M_bind at 1. rewrite await_read_reliable by exact Hrel.
    unfold mbind at 1, App.M_bind at 1. rewrite returnIfCancelled_never by exact Hnc.
    eexists. split; [reflexivity|]. repeat split; try assumption.
Qed.

(** A content for which [generateEmbedding] throws: the records are gone
    by then, and nothing comes in their place. *)
Lemma loadBank_throws (b : string) (custom : App.Dictionary) (w : App.World) :
  let content := App.currentBankContent memoryBanks custom b in
  neverCancelled env -> App.storeReliable env ->
  Embedding.generateEmbeddingOf (App.loaded env) content Embedding.noOptions = None ->
  App.lengthDiffersFrom (IndexedDB.getRecordsByBank b (App.db w)) content = true ->
  exists w',
    App.loadBank memoryBanks env b custom w = (App.Thrown, w')
    /\ App.db w' = IndexedDB.clearRecordsByBank b (App.db w)
    /\ App.effects w'
       = App.effects w ++ [App.ClearRecords b; App.requestFor content]
    /\ App.memoryBankEmbeddings w' = App.memoryBankEmbeddings w.
Proof.
  intros content Hnc Hrel Hemb Hstale. unfold App.loadBank.
  destruct (fetchCustomBank_run b custom w)
    as (o & w1 & Hrun & Hdb & Heff & _ & Hmbe & _ & Hok).
  rewrite (Hok Hrel) in Hrun.
  unfold mbind at 1, App.M_bind at 1. rewrite Hrun.
  unfold mbind at 1, App.M_bind at 1. rewrite await_read_reliable by exact Hrel.
  unfold mbind at 1, App.M_bind at 1. rewrite returnIfCancelled_never by exact Hnc.
  cbv zeta. fold content. rewrite Hdb, Hstale.
  unfold mbind at 1, App.M_bind at 1. rewrite await_write_reliable by exact Hrel.
  unfold mbind at 1, App.M_bind at 1. unfold App.await_generateEmbeddingOf at 1.
  rewrite Hemb. cbv zeta.
  eexists. split; [reflexivity|]. simpl.
  split; [rewrite Hdb; reflexivity|].
  split; [rewrite Heff, <- app_assoc; reflexivity|exact Hmbe].
Qed.

(** A bank the built-in banks do not have, named like a method every
    object inherits: [memoryBanks[activeBank]] is that method, whatever
    the custom banks hold under the name. *)
Lemma loadBank_inherited (b : string) (custom : App.Dictionary) (arity : nat)
    (w : App.World) :
  App.lookupBank memoryBanks b = None ->
  Js.objectPrototype b = Js.Func arity ->
  length (IndexedDB.getRecordsByBank b (App.db w)) <> arity ->
  neverCancelled env -> App.storeReliable env ->
  exists w',
    App.loadBank memoryBanks env b custom w = (App.Thrown, w')
    /\ App.db w' = IndexedDB.clearRecordsByBank b (App.db w)
    /\ App.effects w'
       = App.effects w ++ [App.ClearRecords b; App.EmbedRequestOf (Js.Func arity)]
    /\ App.memoryBankEmbeddings w' = App.memoryBankEmbeddings w.
Proof.
  intros Hown Hinherited Hcount Hnc Hrel.
  assert (App.currentBankContent memoryBanks custom b = Js.Func arity) as Hcontent
    by (unfold App.currentBankContent, App.memoryBankAt;
        rewrite Hown, Hinherited; reflexivity).
  destruct (loadBank_throws b custom w Hnc Hrel) as (w' & Hrun & Hrest).
  - rewrite Hcontent. reflexivity.
  - rewrite Hcontent. unfold App.lengthDiffersFrom. simpl.
    apply negb_true_iff. apply Nat.eqb_neq. exact Hcount.
  - exists w'. split; [exact Hrun|]. rewrite Hcontent in Hrest. exact Hrest.
Qed.
End Synchronisation.

(** *** The two staleness tests *)

Lemma every_from (content : list string) (k : nat) (l : list IndexedDB.MemoryRecord) :
  forallb (fun ir : nat * IndexedDB.MemoryRecord =>
             match content !! ir.1 with
             | Some t => String.eqb (IndexedDB.text ir.2) t
             | None => false
             end)
          (imap (fun i r => (k + i, r)) l) = true
  <-> forall i r, l !! i = Some r -> content !! (k + i) = Some (IndexedDB.text r).
Proof.
  revert k. induction l as [|x l IH]; intros k.
  - simpl. split; [intros _ i r H; discriminate | reflexivity].
  - cbn [imap forallb]. rewrite andb_true_iff. simpl fst. simpl snd.
    rewrite (imap_ext _ (fun i r => (S k + i, r)))
      by (intros; unfold compose; simpl; f_equal; lia).
    rewrite IH. split.
    + intros [H0 Hrest] [|i] r Hr.
      * simpl in Hr. injection Hr as <-.
        destruct (content !! (k + 0)) as [t|]; [|discriminate].
        apply String.eqb_eq in H0. rewrite H0. reflexivity.
      * simpl in Hr. replace (k + S i) with (S k + i) by lia.
        apply Hrest. exact Hr.
    + intros H. split.
      * rewrite (H 0 x eq_refl). apply String.eqb_refl.
      * intros i r Hr. replace (S k + i) with (k + S i) by lia.
        apply H. exact Hr.
Qed.

Lemma every_text (cached : list IndexedDB.MemoryRecord) (content : list string) :
  forallb (fun ir : nat * IndexedDB.MemoryRecord =>
             match content !! ir.1 with
             | Some t => String.eqb (IndexedDB.text ir.2) t
             | None => false
             end)
          (imap (fun i r => (i, r)) cached) = true
  <-> forall i r, cached !! i = Some r -> content !! i = Some (IndexedDB.text r).
Proof. exact (every_from content 0 cached). Qed.

Lemma forallb_false_elem {A : Type} (f : A -> bool) (l : list A) :
  forallb f l = false -> exists i x, l !! i = Some x /\ f x = false.
Proof.
  induction l as [|y l IH]; simpl; [discriminate|].
  destruct (f y) eqn:E; simpl.
  - intros H. destruct (IH H) as (i & x & Hi & Hx). exists (S i), x. auto.
  - intros _. exists 0, y. auto.
Qed.

(** [setup] tests exactly the specified predicate. *)
Lemma needsGeneration_stale (cached : list IndexedDB.MemoryRecord)
    (content : list string) :
  App.needsGeneration cached content = true <-> stale cached content.
Proof.
  unfold App.needsGeneration, stale. rewrite orb_true_iff, !negb_true_iff.
  rewrite Nat.eqb_neq. split.
  - intros [Hlen|Hevery]; [left; exact Hlen|].
    destruct (decide (length cached = length content)) as [Hlen|Hlen];
      [right|left; exact Hlen].
    apply forallb_false_elem in Hevery as (i & [j r] & Hi & Hf).
    rewrite list_lookup_imap in Hi.
    destruct (cached !! i) as [r'|] eqn:Hr; [|discriminate].
    simpl in Hi. injection Hi as <- <-. simpl in Hf.
    destruct (lookup_lt_is_Some_2 content i) as [t Ht].
    { rewrite <- Hlen. eapply lookup_lt_Some. exact Hr. }
    exists i, r', t. rewrite Ht in Hf. repeat split; try assumption.
    intros Heq. apply String.eqb_neq in Hf. contradiction.
  - intros [Hlen|(i & r & t & Hr & Ht & Hne)]; [left; exact Hlen|right].
    destruct (forallb _ _) eqn:E; [|reflexivity].
    rewrite every_text in E. specialize (E i r Hr). congruence.
Qed.

Lemma needsGeneration_same_texts (cached : list IndexedDB.MemoryRecord) :
  App.needsGeneration cached (IndexedDB.text <$> cached) = false.
Proof.
  destruct (App.needsGeneration cached (IndexedDB.text <$> cached)) eqn:E;
    [|reflexivity].
  apply needsGeneration_stale in E as [Hlen|(i & r & t & Hr & Ht & Hne)].
  - rewrite length_fmap in Hlen. contradiction.
  - rewrite list_lookup_fmap, Hr in Ht. simpl in Ht. congruence.
Qed.

Lemma lengthDiffers_same_texts (cached : list IndexedDB.MemoryRecord) :
  App.lengthDiffers cached (IndexedDB.text <$> cached) = false.
Proof.
  unfold App.lengthDiffers. rewrite length_fmap, Nat.eqb_refl. reflexivity.
Qed.

(** *** The store after a full replacement *)

Lemma filter_bank_cleared (b : string) (l : list IndexedDB.MemoryRecord) :
  List.filter (fun r => String.eqb (IndexedDB.bank r) b)
    (List.filter (fun r => negb (String.eqb (IndexedDB.bank r) b)) l) = [].
Proof.
  induction l as [|r l IH]; [reflexivity|]. simpl.
  destruct (String.eqb (IndexedDB.bank r) b) eqn:E; simpl; [exact IH|].
  rewrite E. exact IH.
Qed.

Lemma filter_bank_stored (b : string) (k : nat) (texts : list string)
    (vs : list IndexedDB.vector) :
  List.filter (fun r => String.eqb (IndexedDB.bank r) b)
    (stored k (zip_with (IndexedDB.mkNew b) texts vs))
  = stored k (zip_with (IndexedDB.mkNew b) texts vs).
Proof.
  revert k vs. induction texts as [|t texts IH]; intros k [|v vs]; try reflexivity.
  cbn [zip_with]. rewrite stored_cons. simpl. rewrite String.eqb_refl.
  f_equal. apply IH.
Qed.

Lemma stored_texts (b : string) (k : nat) (texts : list string)
    (vs : list IndexedDB.vector) :
  length vs = length texts ->
  IndexedDB.text <$> stored k (zip_with (IndexedDB.mkNew b) texts vs) = texts
  /\ IndexedDB.embedding <$> stored k (zip_with (IndexedDB.mkNew b) texts vs) = vs.
Proof.
  revert k vs. induction texts as [|t texts IH]; intros k [|v vs] Hlen;
    try discriminate; [split; reflexivity|].
  cbn [zip_with]. rewrite stored_cons. simpl in Hlen.
  destruct (IH (S k) vs ltac:(lia)) as [Ht Hv].
  split; cbn [fmap list_fmap]; simpl; f_equal; assumption.
Qed.

Lemma cleared_replaced (env : App.Env) (b : string) (content : list string)
    (vs : list IndexedDB.vector) (w w1 w' : App.World) :
  length vs = length content ->
  App.db w1 = App.db w -> App.effects w1 = App.effects w ->
  App.db w' = App.db (addMany (zip_with (IndexedDB.mkNew b) content vs)
                              (cleared b content w1)) ->
  App.effects w' = App.effects (addMany (zip_with (IndexedDB.mkNew b) content vs)
                                        (cleared b content w1)) ->
  replacedWholesale b content vs w w'.
Proof.
  intros Hlen Hdb Heff Hdb' Heff'.
  assert (IndexedDB.memories (App.db w')
          = List.filter (fun r => negb (String.eqb (IndexedDB.bank r) b))
              (IndexedDB.memories (App.db w))
            ++ stored (IndexedDB.nextId (App.db w))
                 (zip_with (IndexedDB.mkNew b) content vs)) as Hmem.
  { rewrite Hdb', addMany_memories. simpl. rewrite Hdb. reflexivity. }
  unfold replacedWholesale. split; [|split; [exact Hmem|]].
  - rewrite Heff', addMany_effects. simpl. rewrite Heff, <- !app_assoc. reflexivity.
  - unfold IndexedDB.getRecordsByBank. rewrite Hmem, List.filter_app.
    rewrite filter_bank_cleared, filter_bank_stored. simpl.
    apply stored_texts. exact Hlen.
Qed.

(** C1. The staleness test of [setup] is the specified predicate, but the
    one of [loadBank], run when the active bank changes, compares only the
    counts: a cached record whose text differs from the declared entry at
    the same position is stale for [setup] and kept as it is by
    [loadBank]. *)
Theorem loadBank_compares_only_counts :
  (forall cached content,
      App.needsGeneration cached content = true <-> stale cached content) /\
  (forall cached content,
      App.lengthDiffers cached content = true
      <-> length cached <> length content) /\
  let w := App.mount Fixture.oneFact Fixture.cachedOld in
  let cached := IndexedDB.getRecordsByBank "General" (App.db w) in
  let content := ["The sky is blue."] in
  App.currentBankContent Fixture.oneFact ∅ "General" = Js.Arr content /\
  stale cached content /\
  App.needsGeneration cached content = true /\
  App.lengthDiffers cached content = false /\
  exists w',
    App.loadBank Fixture.oneFact Fixture.env "General" ∅ w = (App.Normal tt, w')
    /\ App.db w' = App.db w /\ App.effects w' = []
    /\ App.memoryBankEmbeddings w' = Some [Fixture.e1].
Proof.
  split; [exact needsGeneration_stale|]. split.
  - intros cached content. unfold App.lengthDiffers.
    rewrite negb_true_iff. apply Nat.eqb_neq.
  - cbv zeta. split; [reflexivity|].
    split; [|split; [reflexivity|split; [reflexivity|]]].
    + right. exists 0, (IndexedDB.mkRecord 1 "The sky is green." Fixture.e1 "General"),
        "The sky is blue.". repeat split. discriminate.
    + eexists. split; [vm_compute; reflexivity|]. repeat split.
Qed.

(** C3. When a synchronisation that is not cancelled finds a bank stale
    and the provider and the store deliver, the bank's records are deleted,
    the whole content is sent to the provider in one request and one record
    per entry is inserted in content order under the bank's name; this
    holds for [setup] with its test, and for [loadBank] with its own
    whenever the content it reads is the bank's list.  A cached bank of
    five entries of which exactly one differs from the declared content is
    stale for [setup], which then deletes and inserts all five.  For a
    bank whose name is a method every object inherits, [loadBank] reads
    that method as the content: when the number of cached records is not
    the method's number of parameters, the records are deleted, the
    request for the embeddings throws and nothing is inserted. *)
Theorem stale_bank_is_replaced_wholesale
    (memoryBanks : list (string * list string)) (env : App.Env)
    (b : string) (content : list string) (vs : list IndexedDB.vector)
    (w : App.World) :
  neverCancelled env -> App.storeReliable env ->
  Embedding.generateEmbeddings (App.loaded env) content Embedding.noOptions = Some vs ->
  let cached := IndexedDB.getRecordsByBank b (App.db w) in
  (App.needsGeneration cached content = true ->
   exists w', App.cacheBank env b content w = (App.Normal tt, w')
              /\ replacedWholesale b content vs w w')
  /\ (forall custom,
        App.currentBankContent memoryBanks custom b = Js.Arr content ->
        App.lengthDiffers cached content = true ->
        exists w', App.loadBank memoryBanks env b custom w = (App.Normal tt, w')
                   /\ replacedWholesale b content vs w w')
  /\ (length cached = 5 -> length content = 5 ->
      (exists i r t,
          cached !! i = Some r /\ content !! i = Some t /\ IndexedDB.text r <> t
          /\ forall j r', j <> i -> cached !! j = Some r' ->
                          content !! j = Some (IndexedDB.text r')) ->
      exists w', App.cacheBank env b content w = (App.Normal tt, w')
                 /\ replacedWholesale b content vs w w'
                 /\ length (zip_with (IndexedDB.mkNew b) content vs) = 5)
  /\ (forall custom arity,
        App.lookupBank memoryBanks b = None ->
        Js.objectPrototype b = Js.Func arity ->
        App.get custom b = Js.Arr content ->
        length cached <> arity ->
        exists w', App.loadBank memoryBanks env b custom w = (App.Thrown, w')
                   /\ IndexedDB.getRecordsByBank b (App.db w') = []
                   /\ App.effects w'
                      = App.effects w ++
                        [App.ClearRecords b; App.EmbedRequestOf (Js.Func arity)]).
Proof.
  intros Hnc Hrel Hemb cached.
  pose proof (generateEmbeddings_length _ _ _ _ Hemb) as Hlen.
  assert (App.needsGeneration cached content = true ->
          exists w', App.cacheBank env b content w = (App.Normal tt, w')
                     /\ replacedWholesale b content vs w w') as Hsetup.
  { intros Hstale. eexists. split.
    - apply cacheBank_stale; eassumption.
    - eapply (cleared_replaced env) with (w1 := w); try reflexivity. exact Hlen. }
  split; [exact Hsetup|]. split; [|split].
  - intros custom Hcontent Hstale.
    destruct (loadBank_stale memoryBanks env b custom content vs w
                Hcontent Hnc Hrel Hemb Hstale)
      as (w1 & w' & Hrun & Hdb & Heff & Hdb' & Heff' & _).
    exists w'. split; [exact Hrun|].
    eapply (cleared_replaced env); eassumption.
  - intros Hc5 Hn5 (i & r & t & Hr & Ht & Hne & _).
    destruct Hsetup as (w' & Hrun & Hrep).
    { apply needsGeneration_stale. right. exists i, r, t. auto. }
    exists w'. split; [exact Hrun|]. split; [exact Hrep|].
    rewrite length_zip_with. lia.
  - intros custom arity Hown Hinherited _ Hcount.
    destruct (loadBank_inherited memoryBanks env b custom arity w
                Hown Hinherited Hcount Hnc Hrel) as (w' & Hrun & Hdb & Heff & _).
    exists w'. split; [exact Hrun|]. split; [|exact Heff]. rewrite Hdb.
    unfold IndexedDB.getRecordsByBank. simpl. apply filter_bank_cleared.
Qed.

Lemma stale_bank_is_replaced_wholesale_witness :
  (exists w',
     App.cacheBank Fixture.env "General" Fixture.five
       (App.mount Fixture.builtin Fixture.cachedFive) = (App.Normal tt, w')
     /\ replacedWholesale "General" Fixture.five
          [Fixture.e1; Fixture.e1; Fixture.e1; Fixture.e1; Fixture.e1]
          (App.mount Fixture.builtin Fixture.cachedFive) w'
     /\ length (zip_with (IndexedDB.mkNew "General") Fixture.five
                  [Fixture.e1; Fixture.e1; Fixture.e1; Fixture.e1; Fixture.e1]) = 5)
  /\ exists w',
       App.loadBank Fixture.builtin Fixture.env "toString" Fixture.knowsToString
         (App.mount Fixture.builtin Fixture.staleToString) = (App.Thrown, w')
       /\ IndexedDB.getRecordsByBank "toString" (App.db w') = []
       /\ App.effects w'
          = [App.ClearRecords "toString"; App.EmbedRequestOf (Js.Func 0)].
Proof.
  split.
  - refine (proj1 (proj2 (proj2
              (stale_bank_is_replaced_wholesale Fixture.builtin Fixture.env
                 "General" Fixture.five
                 [Fixture.e1; Fixture.e1; Fixture.e1; Fixture.e1; Fixture.e1]
                 (App.mount Fixture.builtin Fixture.cachedFive) _ _ _))) _ _ _).
    + intros t. reflexivity.
    + intros t. reflexivity.
    + reflexivity.
    + reflexivity.
    + reflexivity.
    + exists 2, (IndexedDB.mkRecord 3 "tree" Fixture.e1 "General"), "three".
      split; [reflexivity|]. split; [reflexivity|]. split; [discriminate|].
      intros j r' Hj Hr'.
      destruct j as [|[|[|[|[|j]]]]]; try (injection Hr' as <-; reflexivity);
        [contradiction | discriminate].
  - refine (proj2 (proj2 (proj2
              (stale_bank_is_replaced_wholesale Fixture.builtin Fixture.env
                 "toString" ["a"; "b"] [Fixture.e1; Fixture.e1]
                 (App.mount Fixture.builtin Fixture.staleToString) _ _ _)))
              Fixture.knowsToString 0 _ _ _ _).
    + intros t. reflexivity.
    + intros t. reflexivity.
    + reflexivity.
    + reflexivity.
    + reflexivity.
    + reflexivity.
    + simpl. lia.
Defined.

Lemma cacheBank_same_texts (env : App.Env) (b : string) (w : App.World) :
  exists o w',
    App.cacheBank env b
      (IndexedDB.text <$> IndexedDB.getRecordsByBank b (App.db w)) w = (o, w')
    /\ App.db w' = App.db w /\ App.effects w' = App.effects w.
Proof.
  unfold App.cacheBank.
  unfold mbind at 1, App.M_bind at 1. unfold App.await_read at 1.
  destruct (App.storeFails env (App.now w)); [do 2 eexists; repeat split|].
  unfold mbind at 1, App.M_bind at 1. unfold App.returnIfCancelled at 1.
  destruct (App.cancelled env (App.now (App.tick w))).
  - do 2 eexists. repeat split.
  - rewrite needsGeneration_same_texts. do 2 eexists. repeat split.
Qed.

Lemma shown_reachable : App.sessionReachable Fixture.builtin Fixture.shown.
Proof.
  apply (App.reach_next Fixture.builtin Fixture.started Fixture.shown).
  - apply (App.reach_next Fixture.builtin
             (App.mount Fixture.builtin IndexedDB.emptyDb) Fixture.started).
    + apply App.reach_install.
    + exact (App.step_reload Fixture.builtin Fixture.env
               (App.mount Fixture.builtin IndexedDB.emptyDb)).
  - apply (App.step_load Fixture.builtin Fixture.env (fun _ _ => Js.Undefined)
             Fixture.started).
    vm_compute. reflexivity.
Qed.

Lemma loadBank_same_texts (memoryBanks : list (string * list string))
    (env : App.Env) (b : string) (custom : App.Dictionary)
    (w : App.World) :
  let cached := IndexedDB.getRecordsByBank b (App.db w) in
  App.currentBankContent memoryBanks custom b = Js.Arr (IndexedDB.text <$> cached) ->
  exists o w',
    App.loadBank memoryBanks env b custom w = (o, w')
    /\ App.db w' = App.db w /\ App.effects w' = App.effects w
    /\ (neverCancelled env -> App.storeReliable env ->
        App.memoryBankEmbeddings w' = Some (IndexedDB.embedding <$> cached)).
Proof.
  intros cached Hcontent. unfold App.loadBank.
  destruct (fetchCustomBank_run memoryBanks env b custom w)
    as (o1 & w1 & Hrun & Hdb & Heff & _ & _ & _ & Hok).
  unfold mbind at 1, App.M_bind at 1. rewrite Hrun.
  destruct o1 as [[]| |].
  2,3: do 2 eexists; (split; [reflexivity|]); repeat split; try assumption;
       intros _ Hrel; specialize (Hok Hrel); discriminate.
  unfold mbind at 1, App.M_bind at 1. unfold App.await_read at 1.
  destruct (App.storeFails env (App.now w1)) eqn:Hf.
  { do 2 eexists. split; [reflexivity|]. simpl. repeat split; try assumption.
    intros _ Hrel. rewrite Hrel in Hf. discriminate. }
  unfold mbind at 1, App.M_bind at 1. unfold App.returnIfCancelled at 1.
  destruct (App.cancelled env (App.now (App.tick w1))) eqn:Hc.
  - do 2 eexists. split; [reflexivity|]. simpl. repeat split; try assumption.
    intros Hnc. rewrite Hnc in Hc. discriminate.
  - cbv zeta. rewrite Hcontent, Hdb. fold cached.
    change (App.lengthDiffersFrom cached (Js.Arr (IndexedDB.text <$> cached)))
      with (App.lengthDiffers cached (IndexedDB.text <$> cached)).
    rewrite lengthDiffers_same_texts.
    do 2 eexists. split; [reflexivity|]. simpl. repeat split; assumption.
Qed.

(** C4. A bank whose cached records carry exactly the declared texts, in
    order, is left alone by [setup], however it ends, and by [loadBank]
    whenever the content [loadBank] reads is the bank's list: the store is
    the same afterwards and no write or embedding request has been issued;
    [loadBank], when it is not cancelled and its reads go through, hands
    the cached embeddings on as they are.  For a custom bank named like a
    method every object inherits, [loadBank] reads the method instead of
    the list: although the records match the bank's entries, it deletes
    them as soon as their number is not the method's number of
    parameters, and the request for the embeddings throws.  So it is in
    the session in which the bank "toString" is created with the entries
    "a" and "b": the creation stores a record for each, and the [loadBank]
    that follows deletes both. *)
Theorem unchanged_bank_is_not_written
    (memoryBanks : list (string * list string)) (env : App.Env)
    (b : string) (w : App.World) :
  let cached := IndexedDB.getRecordsByBank b (App.db w) in
  let content := IndexedDB.text <$> cached in
  (App.db (App.cacheBank env b content w).2 = App.db w
   /\ App.effects (App.cacheBank env b content w).2 = App.effects w)
  /\ (forall custom,
        App.currentBankContent memoryBanks custom b = Js.Arr content ->
        let w' := (App.loadBank memoryBanks env b custom w).2 in
        App.db w' = App.db w /\ App.effects w' = App.effects w
        /\ (neverCancelled env -> App.storeReliable env ->
            App.memoryBankEmbeddings w' = Some (IndexedDB.embedding <$> cached)))
  /\ (forall custom arity,
        App.lookupBank memoryBanks b = None ->
        Js.objectPrototype b = Js.Func arity ->
        App.get custom b = Js.Arr content ->
        length cached <> arity ->
        neverCancelled env -> App.storeReliable env ->
        exists w',
          App.loadBank memoryBanks env b custom w = (App.Thrown, w')
          /\ App.db w' = IndexedDB.clearRecordsByBank b (App.db w)
          /\ App.effects w'
             = App.effects w ++
               [App.ClearRecords b; App.EmbedRequestOf (Js.Func arity)]
          /\ App.memoryBankEmbeddings w' = App.memoryBankEmbeddings w)
  /\ (App.sessionReachable Fixture.builtin Fixture.createdToString
      /\ App.activeBank Fixture.createdToString = "toString"
      /\ App.customBankData Fixture.createdToString !! "toString" = Some ["a"; "b"]
      /\ IndexedDB.text
           <$> IndexedDB.getRecordsByBank "toString" (App.db Fixture.createdToString)
         = ["a"; "b"]
      /\ Fixture.loadedToString.1 = App.Thrown
      /\ IndexedDB.getRecordsByBank "toString" (App.db Fixture.loadedToString.2) = []
      /\ App.sessionReachable Fixture.builtin Fixture.loadedToString.2).
Proof.
  intros cached content. split; [|split; [|split]].
  - destruct (cacheBank_same_texts env b w) as (o & w' & Hrun & Hdb & Heff).
    unfold content, cached. rewrite Hrun. split; assumption.
  - intros custom Hcontent.
    destruct (loadBank_same_texts memoryBanks env b custom w Hcontent)
      as (o & w' & Hrun & Hrest).
    cbv zeta. rewrite Hrun. exact Hrest.
  - intros custom arity Hown Hinherited _ Hcount Hnc Hrel.
    exact (loadBank_inherited memoryBanks env b custom arity w
             Hown Hinherited Hcount Hnc Hrel).
  - assert (App.sessionReachable Fixture.builtin Fixture.createdToString) as Hcreated.
    { apply (App.reach_next Fixture.builtin Fixture.shown Fixture.createdToString
               shown_reachable).
      apply (App.step_create Fixture.builtin Fixture.env "toString"
               ("a" +:+ App.newline +:+ "b") Fixture.shown);
        [vm_compute; reflexivity|vm_compute; eauto]. }
    split; [exact Hcreated|]. do 5 (split; [vm_compute; reflexivity|]).
    apply (App.reach_next Fixture.builtin Fixture.createdToString
             Fixture.loadedToString.2 Hcreated).
    apply (App.step_load Fixture.builtin Fixture.env (fun _ _ => Js.Undefined)
             Fixture.createdToString).
    vm_compute. reflexivity.
Qed.

Lemma unchanged_bank_is_not_written_witness :
  (let w := App.mount Fixture.builtin Fixture.cachedFive in
   let w' := (App.loadBank Fixture.builtin Fixture.env "Science" ∅ w).2 in
   App.db w' = App.db w /\ App.effects w' = App.effects w
   /\ App.memoryBankEmbeddings w' = Some [Fixture.e2])
  /\ exists w',
       App.loadBank Fixture.builtin Fixture.env "toString" Fixture.knowsToString
         (App.mount Fixture.builtin Fixture.cachedToString) = (App.Thrown, w')
       /\ App.db w'
          = IndexedDB.mkDb [] 3 {["toString" := ["a"; "b"]]}
       /\ App.effects w'
          = [App.ClearRecords "toString"; App.EmbedRequestOf (Js.Func 0)]
       /\ App.memoryBankEmbeddings w' = None.
Proof.
  split.
  - destruct (proj1 (proj2 (unchanged_bank_is_not_written Fixture.builtin
                       Fixture.env "Science"
                       (App.mount Fixture.builtin Fixture.cachedFive)))
                ∅ eq_refl) as (Hdb & Heff & Hemb).
    split; [exact Hdb|]. split; [exact Heff|].
    apply Hemb; intros t; reflexivity.
  - refine (proj1 (proj2 (proj2 (unchanged_bank_is_not_written Fixture.builtin
                       Fixture.env "toString"
                       (App.mount Fixture.builtin Fixture.cachedToString))))
              Fixture.knowsToString 0 _ _ _ _ _ _).
    + reflexivity.
    + reflexivity.
    + reflexivity.
    + simpl. lia.
    + intros t. reflexivity.
    + intros t. reflexivity.
Defined.

Lemma handleSearch_ranks_stably_witness :
  exists results,
    App.handleSearch Fixture.dot (Some Fixture.instance) "sky"
      (IndexedDB.text <$> Fixture.twoTexts)
      (Some (IndexedDB.embedding <$> Fixture.twoTexts))
    = App.SetSearchResults results
    /\ Permutation results (scored Fixture.dot Fixture.e1 Fixture.twoTexts)
    /\ descending results
    /\ forall s, withScore s results
                 = withScore s (scored Fixture.dot Fixture.e1 Fixture.twoTexts).
Proof.
  apply (handleSearch_ranks_stably Fixture.dot (Some Fixture.instance) "sky"
           Fixture.e1 Fixture.twoTexts).
  - discriminate.
  - reflexivity.
Defined.

(** The ranking example of the specification. *)
Example handleSearch_two_texts :
  App.handleSearch Fixture.dot (Some Fixture.instance) "sky"
    ["text1"; "text2"] (Some [Fixture.e1; Fixture.e2])
  = App.SetSearchResults [App.mkResult "text1" 1; App.mkResult "text2" 0].
Proof. vm_compute. reflexivity. Qed.

(** ** Degenerate embedding inputs *)

Lemma existsb_isNaN (p : IndexedDB.vector) :
  existsb Js.isNaN p = true <-> Js.NaN ∈ p.
Proof.
  rewrite existsb_exists. split.
  - intros (x & Hin & Hx). destruct x; [|discriminate].
    apply list_elem_of_In. exact Hin.
  - intros Hin. exists Js.NaN. split; [apply list_elem_of_In; exact Hin|reflexivity].
Qed.

Lemma zeros_spec (n : nat) :
  length (Js.zeros n) = n /\ Forall (fun x => x = Js.Num 0) (Js.zeros n).
Proof.
  unfold Js.zeros. split; [apply repeat_length|].
  apply Forall_forall. intros x Hx. apply list_elem_of_In in Hx.
  eapply repeat_spec. exact Hx.
Qed.

(** C6. With the model loaded, a text that is empty after trimming is
    embedded as the zero vector of the model's native size, and a pooled
    output with a NaN component is replaced by a zero vector (of the
    truncated size 256 unless truncation is switched off); neither is an
    error.  In a call on an array every blank entry yields that zero
    vector at its position. *)
Theorem degenerate_inputs_yield_zero_vectors
    (inst : Embedding.EmbeddingInstance) (opts : Embedding.options) :
  (forall text,
      Js.trim text = EmptyString ->
      Embedding.generateEmbedding (Some inst) text opts
      = Some (Js.zeros (Embedding.nativeSize inst)))
  /\ (forall text p,
        Js.trim text <> EmptyString ->
        Embedding.pooled inst text = Some p ->
        Js.NaN ∈ p ->
        exists n,
          Embedding.generateEmbedding (Some inst) text opts = Some (Js.zeros n)
          /\ n = (if Embedding.notFalse (Embedding.truncate opts) then 256
                  else Embedding.nativeSize inst))
  /\ (forall texts vs i text,
        Embedding.generateEmbeddings (Some inst) texts opts = Some vs ->
        texts !! i = Some text ->
        Js.trim text = EmptyString ->
        vs !! i = Some (Js.zeros (Embedding.nativeSize inst)))
  /\ (forall n, length (Js.zeros n) = n
                /\ Forall (fun x => x = Js.Num 0) (Js.zeros n)).
Proof.
  assert (forall text, Js.trim text = EmptyString ->
            Embedding.generateEmbedding (Some inst) text opts
            = Some (Js.zeros (Embedding.nativeSize inst))) as Hblank.
  { intros text Ht. unfold Embedding.generateEmbedding. rewrite Ht. reflexivity. }
  split; [exact Hblank|]. split; [|split; [|exact zeros_spec]].
  - intros text p Ht Hp Hnan. eexists. split; [|reflexivity].
    unfold Embedding.generateEmbedding.
    destruct (String.eqb (Js.trim text) EmptyString) eqn:E.
    + apply String.eqb_eq in E. contradiction.
    + rewrite Hp. apply existsb_isNaN in Hnan. rewrite Hnan. reflexivity.
  - intros texts vs i text Hrun Hi Ht. unfold Embedding.generateEmbeddings in Hrun.
    apply mapM_Some in Hrun.
    destruct (Forall2_lookup_l _ _ _ _ _ Hrun Hi) as (v & Hv & Hgen).
    rewrite (Hblank text Ht) in Hgen. congruence.
Qed.

Lemma degenerate_inputs_yield_zero_vectors_witness :
  Embedding.generateEmbedding (Some Fixture.instance) "  " Embedding.noOptions
  = Some [Js.Num 0; Js.Num 0].
Proof.
  exact (proj1 (degenerate_inputs_yield_zero_vectors Fixture.instance
                  Embedding.noOptions) "  " eq_refl).
Defined.

(** A pooled output with a NaN in it. *)
Example nan_output_is_zeroed :
  Embedding.generateEmbedding
    (Some (Embedding.mkInstance 3 (fun _ => Some [Js.Num 1; Js.NaN; Js.Num 2])
             (fun v => v)))
    "fact" (Embedding.mkOptions None (Some false))
  = Some [Js.Num 0; Js.Num 0; Js.Num 0].
Proof. reflexivity. Qed.

(** ** The two lazily initialised singletons *)

Lemma lookup_snoc_pending {A : Type} (l : list (IndexedDB.settled A)) (q : nat) :
  (l ++ [IndexedDB.Pending]) !! q = Some IndexedDB.Pending ->
  l !! q = Some IndexedDB.Pending \/ q = length l.
Proof.
  intros H. destruct (decide (q < length l)) as [Hlt|Hge].
  - rewrite lookup_app_l in H by exact Hlt. left. exact H.
  - right. apply lookup_lt_Some in H. rewrite length_app in H. simpl in H. lia.
Qed.

Lemma lookup_insert_pending {A : Type} (l : list (IndexedDB.settled A))
    (p q : nat) (x : IndexedDB.settled A) :
  x <> IndexedDB.Pending ->
  <[p := x]> l !! q = Some IndexedDB.Pending ->
  q <> p /\ l !! q = Some IndexedDB.Pending.
Proof.
  intros Hx H. destruct (decide (q = p)) as [->|Hne].
  - exfalso. destruct (decide (p < length l)) as [Hlt|Hge].
    + rewrite list_lookup_insert_eq in H by exact Hlt. congruence.
    + apply lookup_lt_Some in H. rewrite length_insert in H. lia.
  - split; [exact Hne|]. rewrite list_lookup_insert_ne in H by congruence. exact H.
Qed.

Lemma lookup_snoc_born {A : Type} (l : list (IndexedDB.settled A))
    (openThrows : bool) (q : nat) :
  (l ++ [if openThrows then IndexedDB.Rejected else IndexedDB.Pending]) !! q
  = Some IndexedDB.Pending ->
  l !! q = Some IndexedDB.Pending \/ (q = length l /\ openThrows = false).
Proof.
  intros H. destruct (decide (q < length l)) as [Hlt|Hge].
  - rewrite lookup_app_l in H by exact Hlt. left. exact H.
  - pose proof (lookup_lt_Some _ _ _ H) as Hlen. rewrite length_app in Hlen.
    simpl in Hlen. assert (q = length l) as -> by lia.
    rewrite list_lookup_middle in H by reflexivity.
    destruct openThrows; [discriminate|]. right. split; reflexivity.
Qed.

Lemma connection_step_inv (c c' : IndexedDB.Connection) :
  connectionInv c -> IndexedDB.step c c' -> connectionInv c'.
Proof.
  intros [I1 I2] Hstep. destruct Hstep as [b c|c p h Hp|c p Hp].
  - unfold IndexedDB.openDB. destruct (IndexedDB.dbPromise c) as [p|] eqn:Hc.
    + unfold connectionInv. simpl. rewrite Hc. split; assumption.
    + unfold connectionInv. cbn [snd IndexedDB.dbPromise IndexedDB.promises]. split.
      * intros q [= <-]. rewrite list_lookup_middle by reflexivity.
        eexists. reflexivity.
      * intros q Hq. apply lookup_snoc_born in Hq as [Hq|[-> _]]; [|reflexivity].
        apply I2 in Hq. congruence.
  - pose proof (I2 p Hp) as Hc. unfold IndexedDB.onsuccess. split; simpl.
    + intros q Hq. assert (q = p) as -> by congruence.
      rewrite list_lookup_insert_eq by (eapply lookup_lt_Some; exact Hp).
      eexists. reflexivity.
    + intros q Hq. apply lookup_insert_pending in Hq as [Hne Hq]; [|discriminate].
      apply I2 in Hq. congruence.
  - pose proof (I2 p Hp) as Hc. unfold IndexedDB.onerror. split; simpl.
    + intros q Hq. discriminate.
    + intros q Hq. apply lookup_insert_pending in Hq as [Hne Hq]; [|discriminate].
      apply I2 in Hq. congruence.
Qed.

Lemma connection_reachable_inv (c : IndexedDB.Connection) :
  IndexedDB.reachable c -> connectionInv c.
Proof.
  induction 1 as [|c c' _ IH Hstep].
  - split; intros p H; discriminate.
  - eapply connection_step_inv; eassumption.
Qed.

(** With a request cached that is not in flight, nothing moves any more. *)
Lemma connection_settled_is_final (c c' : IndexedDB.Connection) (p : nat) :
  connectionInv c -> IndexedDB.dbPromise c = Some p ->
  IndexedDB.promises c !! p <> Some IndexedDB.Pending ->
  IndexedDB.step c c' -> c' = c.
Proof.
  intros [_ I2] Hp Hset Hstep. destruct Hstep as [b c|c q h Hq|c q Hq].
  - unfold IndexedDB.openDB. rewrite Hp. reflexivity.
  - apply I2 in Hq as Hq'. assert (q = p) as -> by congruence. contradiction.
  - apply I2 in Hq as Hq'. assert (q = p) as -> by congruence. contradiction.
Qed.

Lemma loader_step_inv (l l' : Embedding.Loader) :
  loaderInv l -> Embedding.step l l' -> loaderInv l'.
Proof.
  intros (J1 & J2 & J3) Hstep. destruct Hstep as [l|l p i Hp|l p Hp].
  - unfold Embedding.getInstance.
    destruct (Embedding.instance l) as [i|] eqn:Hi.
    { unfold loaderInv. simpl. rewrite Hi. exact (conj J1 (conj J2 J3)). }
    destruct (Embedding.instancePromise l) as [p|] eqn:Hl.
    { unfold loaderInv. simpl. rewrite Hi, Hl. exact (conj J1 (conj J2 J3)). }
    simpl. split; [|split].
    + intros q [= <-]. left. split; [|reflexivity].
      apply list_lookup_middle. reflexivity.
    + intros q Hq. apply lookup_snoc_pending in Hq as [Hq| ->]; [|split; reflexivity].
      apply J2 in Hq as [Hq _]. congruence.
    + discriminate.
  - destruct (J2 p Hp) as [Hl Hi]. unfold Embedding.loadSucceeded.
    split; [|split]; simpl.
    + intros q Hq. assert (q = p) as -> by congruence. right. exists i.
      split; [|reflexivity].
      apply list_lookup_insert_eq. eapply lookup_lt_Some. exact Hp.
    + intros q Hq. apply lookup_insert_pending in Hq as [Hne Hq]; [|discriminate].
      apply J2 in Hq as [Hq _]. congruence.
    + intros Hq. congruence.
  - destruct (J2 p Hp) as [Hl Hi]. unfold Embedding.loadFailed.
    split; [|split]; simpl.
    + intros q Hq. discriminate.
    + intros q Hq. apply lookup_insert_pending in Hq as [Hne Hq]; [|discriminate].
      apply J2 in Hq as [Hq _]. congruence.
    + intros _. exact Hi.
Qed.

Lemma loader_reachable_inv (l : Embedding.Loader) :
  Embedding.reachable l -> loaderInv l.
Proof.
  induction 1 as [|l l' _ IH Hstep].
  - split; [|split]; try reflexivity; intros p H; discriminate.
  - eapply loader_step_inv; eassumption.
Qed.

(** C5. In every state the store connection can reach: a caller that
    finds a promise cached gets that very promise and starts no open; a
    caller that finds none starts exactly one open and caches its promise;
    an open in flight is the cached one; a success is recorded under the
    cached promise, which every later caller gets, and nothing changes any
    more; when the open in flight fails through [onerror] the cache is
    emptied and the next caller starts a new open, distinct from the failed
    one.  The model loader behaves the same way, handing out the loaded
    instance itself once there is one, and it starts anew after every
    failed load.  The connection does not: when [indexedDB.open] throws
    inside the executor the rejected promise is cached, every later caller
    gets that rejection, and no open is ever started again. *)
Theorem singletons_coalesce_and_retry :
  (forall c, IndexedDB.reachable c ->
     (forall p openThrows, IndexedDB.dbPromise c = Some p ->
        IndexedDB.openDB openThrows c = (p, c))
     /\ (IndexedDB.dbPromise c = None ->
         IndexedDB.openDB false c
         = (length (IndexedDB.promises c),
            IndexedDB.mkConn (Some (length (IndexedDB.promises c)))
              (IndexedDB.promises c ++ [IndexedDB.Pending])))
     /\ (forall p, IndexedDB.promises c !! p = Some IndexedDB.Pending ->
           IndexedDB.dbPromise c = Some p)
     /\ (forall p h, IndexedDB.promises c !! p = Some IndexedDB.Pending ->
           let opened := IndexedDB.onsuccess p h c in
           IndexedDB.promises opened !! p = Some (IndexedDB.Fulfilled h)
           /\ (forall openThrows, IndexedDB.openDB openThrows opened = (p, opened))
           /\ forall c', IndexedDB.step opened c' -> c' = opened)
     /\ (forall p, IndexedDB.promises c !! p = Some IndexedDB.Pending ->
           let failed := IndexedDB.onerror p c in
           let p' := length (IndexedDB.promises c) in
           IndexedDB.dbPromise failed = None
           /\ IndexedDB.promises failed !! p = Some IndexedDB.Rejected
           /\ (IndexedDB.openDB false failed).1 = p' /\ p' <> p
           /\ IndexedDB.dbPromise (IndexedDB.openDB false failed).2 = Some p'
           /\ IndexedDB.promises (IndexedDB.openDB false failed).2 !! p'
              = Some IndexedDB.Pending)
     /\ (IndexedDB.dbPromise c = None ->
         let p := length (IndexedDB.promises c) in
         let stuck := (IndexedDB.openDB true c).2 in
         IndexedDB.dbPromise stuck = Some p
         /\ IndexedDB.promises stuck !! p = Some IndexedDB.Rejected
         /\ (forall openThrows, IndexedDB.openDB openThrows stuck = (p, stuck))
         /\ forall c', IndexedDB.step stuck c' -> c' = stuck))
  /\ (forall l, Embedding.reachable l ->
        (forall i, Embedding.instance l = Some i ->
           Embedding.getInstance l = (Embedding.Ready i, l)
           /\ forall l', Embedding.step l l' -> l' = l)
        /\ (forall p, Embedding.instance l = None ->
              Embedding.instancePromise l = Some p ->
              Embedding.getInstance l = (Embedding.Promise p, l)
              /\ Embedding.loads l !! p = Some IndexedDB.Pending)
        /\ (Embedding.instance l = None -> Embedding.instancePromise l = None ->
            Embedding.getInstance l
            = (Embedding.Promise (length (Embedding.loads l)),
               Embedding.mkLoader None (Some (length (Embedding.loads l)))
                 (Embedding.loads l ++ [IndexedDB.Pending])))
        /\ (forall p, Embedding.loads l !! p = Some IndexedDB.Pending ->
              Embedding.instancePromise l = Some p)
        /\ (forall p i, Embedding.loads l !! p = Some IndexedDB.Pending ->
              let loaded := Embedding.loadSucceeded p i l in
              Embedding.instance loaded = Some i
              /\ Embedding.loads loaded !! p = Some (IndexedDB.Fulfilled i)
              /\ Embedding.getInstance loaded = (Embedding.Ready i, loaded))
        /\ (forall p, Embedding.loads l !! p = Some IndexedDB.Pending ->
              let failed := Embedding.loadFailed p l in
              let p' := length (Embedding.loads l) in
              Embedding.instancePromise failed = None
              /\ Embedding.instance failed = None
              /\ Embedding.loads failed !! p = Some IndexedDB.Rejected
              /\ (Embedding.getInstance failed).1 = Embedding.Promise p'
              /\ p' <> p
              /\ Embedding.loads (Embedding.getInstance failed).2 !! p'
                 = Some IndexedDB.Pending)).
Proof.
  split.
  - intros c Hreach. pose proof (connection_reachable_inv c Hreach) as Hinv.
    destruct Hinv as [I1 I2].
    split; [|split; [|split; [exact I2|split; [|split]]]].
    + intros p b Hp. unfold IndexedDB.openDB. rewrite Hp. reflexivity.
    + intros Hnone. unfold IndexedDB.openDB. rewrite Hnone. reflexivity.
    + intros p h Hp. cbv zeta. pose proof (lookup_lt_Some _ _ _ Hp) as Hlt.
      pose proof (I2 p Hp) as Hc.
      assert (IndexedDB.promises (IndexedDB.onsuccess p h c) !! p
              = Some (IndexedDB.Fulfilled h)) as Hful
        by (apply list_lookup_insert_eq; exact Hlt).
      split; [exact Hful|]. split.
      * intros b. unfold IndexedDB.openDB. simpl. rewrite Hc. reflexivity.
      * intros c' Hstep.
        eapply (connection_settled_is_final _ c' p); [| |rewrite Hful; discriminate
                                                      |exact Hstep].
        -- apply connection_reachable_inv. eapply IndexedDB.reach_step;
             [exact Hreach|]. apply IndexedDB.step_success. exact Hp.
        -- exact Hc.
    + intros p Hp. cbv zeta. pose proof (lookup_lt_Some _ _ _ Hp) as Hlt.
      unfold IndexedDB.openDB, IndexedDB.onerror. simpl.
      rewrite length_insert.
      repeat split; try lia.
      * apply list_lookup_insert_eq. exact Hlt.
      * apply list_lookup_middle. rewrite length_insert. reflexivity.
    + intros Hnone. cbv zeta.
      assert ((IndexedDB.openDB true c).2
              = IndexedDB.mkConn (Some (length (IndexedDB.promises c)))
                  (IndexedDB.promises c ++ [IndexedDB.Rejected])) as Hstuck
        by (unfold IndexedDB.openDB; rewrite Hnone; reflexivity).
      rewrite Hstuck.
      assert (IndexedDB.promises
                (IndexedDB.mkConn (Some (length (IndexedDB.promises c)))
                   (IndexedDB.promises c ++ [IndexedDB.Rejected]))
                !! length (IndexedDB.promises c) = Some IndexedDB.Rejected) as Hrej
        by (apply list_lookup_middle; reflexivity).
      split; [reflexivity|]. split; [exact Hrej|]. split; [reflexivity|].
      intros c' Hstep.
      eapply (connection_settled_is_final _ c' (length (IndexedDB.promises c)));
        [|reflexivity|rewrite Hrej; discriminate|exact Hstep].
      apply connection_reachable_inv. rewrite <- Hstuck.
      eapply IndexedDB.reach_step; [exact Hreach|apply IndexedDB.step_call].
  - intros l Hreach. destruct (loader_reachable_inv l Hreach) as (J1 & J2 & J3).
    split; [|split; [|split; [|split; [|split]]]].
    + intros i Hi. split.
      * unfold Embedding.getInstance. rewrite Hi. reflexivity.
      * intros l' Hstep. destruct Hstep as [l|l q i' Hq|l q Hq].
        -- unfold Embedding.getInstance. rewrite Hi. reflexivity.
        -- apply J2 in Hq as [_ Hq]. congruence.
        -- apply J2 in Hq as [_ Hq]. congruence.
    + intros p Hi Hp. split.
      * unfold Embedding.getInstance. rewrite Hi, Hp. reflexivity.
      * destruct (J1 p Hp) as [[H _]|(i & _ & H)]; [exact H|congruence].
    + intros Hi Hp. unfold Embedding.getInstance. rewrite Hi, Hp. reflexivity.
    + intros p Hp. apply J2. exact Hp.
    + intros p i Hp. cbv zeta. pose proof (lookup_lt_Some _ _ _ Hp) as Hlt.
      split; [reflexivity|]. split.
      * apply list_lookup_insert_eq. exact Hlt.
      * reflexivity.
    + intros p Hp. cbv zeta. pose proof (lookup_lt_Some _ _ _ Hp) as Hlt.
      destruct (J2 p Hp) as [_ Hi].
      unfold Embedding.getInstance, Embedding.loadFailed. simpl. rewrite Hi. simpl.
      rewrite length_insert.
      repeat split; try lia.
      * apply list_lookup_insert_eq. exact Hlt.
      * apply list_lookup_middle. rewrite length_insert. reflexivity.
Qed.

Lemma singletons_coalesce_and_retry_witness :
  (IndexedDB.openDB false (IndexedDB.openDB true IndexedDB.initial).2
   = (0, IndexedDB.mkConn (Some 0) [IndexedDB.Rejected])
   /\ (IndexedDB.openDB false
         (IndexedDB.onerror 0 (IndexedDB.openDB false IndexedDB.initial).2)).1 = 1)
  /\ (Embedding.getInstance
        (Embedding.loadSucceeded 0 7 (Embedding.getInstance Embedding.initial).2)
      = (Embedding.Ready 7, Embedding.mkLoader (Some 7) (Some 0) [IndexedDB.Fulfilled 7])
      /\ (Embedding.getInstance
            (Embedding.loadFailed 0 (Embedding.getInstance Embedding.initial).2)).1
         = Embedding.Promise 1).
Proof.
  destruct singletons_coalesce_and_retry as [Hconn Hload].
  split.
  - destruct (Hconn IndexedDB.initial IndexedDB.reach_initial)
      as (_ & _ & _ & _ & _ & Hstuck).
    destruct (Hconn (IndexedDB.openDB false IndexedDB.initial).2
                (IndexedDB.reach_step _ _ IndexedDB.reach_initial
                   (IndexedDB.step_call false IndexedDB.initial)))
      as (_ & _ & _ & _ & Hfail & _).
    split.
    + exact (proj1 (proj2 (proj2 (Hstuck eq_refl))) false).
    + destruct (Hfail 0 eq_refl) as (_ & _ & Hnext & _). exact Hnext.
  - destruct (Hload (Embedding.getInstance Embedding.initial).2
                (Embedding.reach_step _ _ Embedding.reach_initial
                   (Embedding.step_call Embedding.initial)))
      as (_ & _ & _ & _ & Hok & Hfail).
    split.
    + exact (proj2 (proj2 (Hok 0 7 eq_refl))).
    + destruct (Hfail 0 eq_refl) as (_ & _ & _ & Hnext & _). exact Hnext.
Defined.

(** ** What the asynchronous functions leave untouched *)

Lemma frame_refl (w : App.World) : frame w w.
Proof. repeat split. Qed.

Lemma frame_trans (w1 w2 w3 : App.World) : frame w1 w2 -> frame w2 w3 -> frame w1 w3.
Proof.
  intros (A1 & A2 & A3 & A4 & A5) (B1 & B2 & B3 & B4 & B5).
  repeat split; congruence.
Qed.

Lemma keepsFrame_bind {A B : Type} (m : App.M A) (k : A -> App.M B) :
  keepsFrame m -> (forall a, keepsFrame (k a)) -> keepsFrame (m ≫= k).
Proof.
  intros Hm Hk w. unfold mbind, App.M_bind. specialize (Hm w).
  destruct (m w) as [[a| |] w1]; simpl in *; try exact Hm.
  eapply frame_trans; [exact Hm | apply Hk].
Qed.

Lemma keepsFrame_ret {A : Type} (a : A) : keepsFrame (mret a : App.M A).
Proof. intros w. apply frame_refl. Qed.

Lemma keepsFrame_tryCatch (body : App.M unit) :
  keepsFrame body -> keepsFrame (App.tryCatch body).
Proof.
  intros Hb w. unfold App.tryCatch. specialize (Hb w).
  destruct (body w) as [[a| |] w1]; exact Hb.
Qed.

Lemma keepsFrame_forEach {A : Type} (l : list A) (body : A -> App.M unit) :
  (forall x, keepsFrame (body x)) -> keepsFrame (App.forEach l body).
Proof.
  intros Hb. induction l as [|x l IH]; simpl.
  - apply keepsFrame_ret.
  - apply keepsFrame_bind; [apply Hb | intros _; exact IH].
Qed.

Lemma keepsFrame_read {A : Type} (env : App.Env) (f : IndexedDB.Database -> A) :
  keepsFrame (App.await_read env f).
Proof.
  intros w. unfold App.await_read.
  destruct (App.storeFails env (App.now w)); repeat split.
Qed.

Lemma keepsFrame_check (env : App.Env) : keepsFrame (App.returnIfCancelled env).
Proof.
  intros w. unfold App.returnIfCancelled.
  destruct (App.cancelled env (App.now w)); apply frame_refl.
Qed.

Lemma keepsFrame_clear (env : App.Env) (b : string) :
  keepsFrame (App.await_write env (App.ClearRecords b)
                (IndexedDB.clearRecordsByBank b)).
Proof.
  intros w. unfold App.await_write.
  destruct (App.storeFails env (App.now w)); repeat split.
Qed.

Lemma keepsFrame_embed (env : App.Env) (texts : list string) :
  keepsFrame (App.await_generateEmbedding env texts).
Proof.
  intros w. unfold App.await_generateEmbedding.
  destruct (Embedding.generateEmbeddings _ _ _); repeat split.
Qed.

Lemma keepsFrame_add (env : App.Env) (r : IndexedDB.NewRecord) :
  keepsFrame (App.await_addRecord env r).
Proof.
  intros w. unfold App.await_addRecord.
  destruct (App.storeFails env (App.now w)); repeat split.
Qed.

Lemma keepsFrame_insertAll (env : App.Env) (check : App.M unit) (b : string)
    (texts : list string) (vs : list IndexedDB.vector) :
  keepsFrame check -> keepsFrame (App.insertAll env check b texts vs).
Proof.
  intros Hc. unfold App.insertAll. apply keepsFrame_forEach. intros j.
  apply keepsFrame_bind; [exact Hc|]. intros _.
  apply keepsFrame_bind; [apply keepsFrame_add|]. intros _. apply keepsFrame_ret.
Qed.

Lemma keepsFrame_cacheBank (env : App.Env) (b : string) (data : list string) :
  keepsFrame (App.cacheBank env b data).
Proof.
  unfold App.cacheBank.
  apply keepsFrame_bind; [apply keepsFrame_read|]. intros cached.
  apply keepsFrame_bind; [apply keepsFrame_check|]. intros _.
  destruct (App.needsGeneration cached data); [|apply keepsFrame_ret].
  apply keepsFrame_bind; [apply keepsFrame_clear|]. intros _.
  apply keepsFrame_bind; [apply keepsFrame_embed|]. intros vs.
  apply keepsFrame_bind; [apply keepsFrame_check|]. intros _.
  destruct (App.isArrayOfArrays vs); [|apply keepsFrame_ret].
  apply keepsFrame_insertAll, keepsFrame_check.
Qed.

Lemma keepsFrame_cacheDefaultBanks (memoryBanks : list (string * list string))
    (env : App.Env) :
  keepsFrame (App.cacheDefaultBanks memoryBanks env).
Proof.
  unfold App.cacheDefaultBanks. apply keepsFrame_forEach. intros b.
  apply keepsFrame_bind; [apply keepsFrame_check|]. intros _.
  apply keepsFrame_tryCatch, keepsFrame_cacheBank.
Qed.

(** ** Loading the custom banks at start-up *)

Lemma insertKey_Permutation (k : string) (keys : list string) :
  Permutation (IndexedDB.insertKey k keys) (k :: keys).
Proof.
  induction keys as [|x rest IH]; simpl; [reflexivity|].
  destruct (String.leb k x); [reflexivity|].
  rewrite IH. apply perm_swap.
Qed.

Lemma inKeyOrder_Permutation (keys : list string) :
  Permutation (IndexedDB.inKeyOrder keys) keys.
Proof.
  induction keys as [|k keys IH]; simpl; [reflexivity|].
  rewrite insertKey_Permutation, IH. reflexivity.
Qed.

Lemma insertKey_Sorted (k : string) (keys : list string) :
  Sorted (fun a b => String.leb a b = true) keys ->
  Sorted (fun a b => String.leb a b = true) (IndexedDB.insertKey k keys).
Proof.
  induction keys as [|x rest IH]; simpl; intros Hs.
  - repeat constructor.
  - destruct (String.leb k x) eqn:Hk.
    + constructor; [exact Hs|]. constructor. exact Hk.
    + apply Sorted_inv in Hs as [Hs Hhd]. constructor; [apply IH; exact Hs|].
      assert (String.leb x k = true) as Hxk
        by (destruct (String.leb_total k x); congruence).
      destruct rest as [|y rest]; simpl.
      * constructor. exact Hxk.
      * destruct (String.leb k y); constructor; [exact Hxk|].
        apply HdRel_inv in Hhd. exact Hhd.
Qed.

Lemma inKeyOrder_Sorted (keys : list string) :
  Sorted (fun a b => String.leb a b = true) (IndexedDB.inKeyOrder keys).
Proof.
  induction keys as [|k keys IH]; simpl; [constructor|].
  apply insertKey_Sorted. exact IH.
Qed.

Lemma storedNames_elem (m : gmap string (list string)) (k : string) :
  k ∈ storedNames m <-> is_Some (m !! k).
Proof.
  unfold storedNames. rewrite (inKeyOrder_Permutation _).
  rewrite list_elem_of_fmap. split.
  - intros ([k' v] & -> & Hin). apply elem_of_map_to_list in Hin. eauto.
  - intros [v Hv]. exists (k, v). split; [reflexivity|].
    apply elem_of_map_to_list. exact Hv.
Qed.

Lemma storedNames_NoDup (m : gmap string (list string)) : NoDup (storedNames m).
Proof.
  unfold storedNames. rewrite (inKeyOrder_Permutation _).
  apply NoDup_fst_map_to_list.
Qed.

(** The object [setup] fills from the store: each name it was given maps
    to the stored content, every other key is as before; the content
    stored under [__proto__] becomes the prototype. *)
Lemma collect_lookup (d : IndexedDB.Database) (k : string) (l : list string)
    (acc : gmap string (list string) * option (list string)) :
  (forall n, n ∈ l -> is_Some (IndexedDB.custom_banks d !! n)) ->
  (fold_left (fun acc n =>
                match IndexedDB.getCustomBank n d with
                | Some bk => App.assign n (IndexedDB.content bk) acc
                | None => acc
                end) l acc).1 !! k
  = if decide (k ∈ l /\ k <> "__proto__") then IndexedDB.custom_banks d !! k
    else acc.1 !! k.
Proof.
  revert acc. induction l as [|n l IH]; intros acc Hall.
  - simpl. destruct (decide (k ∈ [] /\ k <> "__proto__")) as [[Hin _]|_];
      [|reflexivity].
    apply elem_of_nil in Hin. contradiction.
  - cbn [fold_left]. rewrite IH by (intros n' Hn'; apply Hall; right; exact Hn').
    destruct (Hall n ltac:(left)) as [c Hc].
    unfold IndexedDB.getCustomBank. rewrite Hc. simpl.
    destruct (decide (k ∈ l /\ k <> "__proto__")) as [[Hin Hk]|Hnin].
    + destruct (decide (k ∈ n :: l /\ k <> "__proto__")) as [_|Hn]; [reflexivity|].
      exfalso. apply Hn. split; [right; exact Hin|exact Hk].
    + unfold App.assign. destruct (String.eqb n "__proto__") eqn:En; simpl.
      * apply String.eqb_eq in En. subst n.
        destruct (decide (k ∈ "__proto__" :: l /\ k <> "__proto__"))
          as [[Hn Hk]|_]; [|reflexivity].
        apply elem_of_cons in Hn as [Hn|Hn]; [contradiction|].
        exfalso. apply Hnin. split; assumption.
      * apply String.eqb_neq in En.
        destruct (decide (k = n)) as [->|Hne].
        -- rewrite lookup_insert_eq.
           destruct (decide (n ∈ n :: l /\ n <> "__proto__")) as [_|Hn];
             [congruence|].
           exfalso. apply Hn. split; [left|exact En].
        -- rewrite lookup_insert_ne by congruence.
           destruct (decide (k ∈ n :: l /\ k <> "__proto__")) as [[Hn Hk]|_];
             [|reflexivity].
           apply elem_of_cons in Hn as [Hn|Hn]; [contradiction|].
           exfalso. apply Hnin. split; assumption.
Qed.

Lemma collect_prototype (d : IndexedDB.Database) (l : list string)
    (acc : gmap string (list string) * option (list string)) :
  (forall n, n ∈ l -> is_Some (IndexedDB.custom_banks d !! n)) ->
  (fold_left (fun acc n =>
                match IndexedDB.getCustomBank n d with
                | Some bk => App.assign n (IndexedDB.content bk) acc
                | None => acc
                end) l acc).2
  = if decide ("__proto__" ∈ l) then IndexedDB.custom_banks d !! "__proto__"
    else acc.2.
Proof.
  revert acc. induction l as [|n l IH]; intros acc Hall.
  - simpl. destruct (decide ("__proto__" ∈ [])) as [Hin|_]; [|reflexivity].
    apply elem_of_nil in Hin. contradiction.
  - cbn [fold_left]. rewrite IH by (intros n' Hn'; apply Hall; right; exact Hn').
    destruct (Hall n ltac:(left)) as [c Hc].
    unfold IndexedDB.getCustomBank. rewrite Hc. simpl.
    destruct (decide ("__proto__" ∈ l)) as [Hin|Hnin].
    + destruct (decide ("__proto__" ∈ n :: l)) as [_|Hn]; [reflexivity|].
      exfalso. apply Hn. right. exact Hin.
    + unfold App.assign. destruct (String.eqb n "__proto__") eqn:En; simpl.
      * apply String.eqb_eq in En. subst n.
        destruct (decide ("__proto__" ∈ "__proto__" :: l)) as [_|Hn];
          [congruence|].
        exfalso. apply Hn. left.
      * apply String.eqb_neq in En.
        destruct (decide ("__proto__" ∈ n :: l)) as [Hn|_]; [|reflexivity].
        apply elem_of_cons in Hn as [Hn|Hn]; [congruence|contradiction].
Qed.

Lemma collect_all (d : IndexedDB.Database) :
  fold_left (fun acc n =>
               match IndexedDB.getCustomBank n d with
               | Some bk => App.assign n (IndexedDB.content bk) acc
               | None => acc
               end) (IndexedDB.getAllCustomBankNames d) (∅, None)
  = (delete "__proto__" (IndexedDB.custom_banks d),
     IndexedDB.custom_banks d !! "__proto__").
Proof.
  change (IndexedDB.getAllCustomBankNames d)
    with (storedNames (IndexedDB.custom_banks d)).
  assert (forall n, n ∈ storedNames (IndexedDB.custom_banks d) ->
                    is_Some (IndexedDB.custom_banks d !! n)) as Hall
    by (intros n Hn; apply storedNames_elem; exact Hn).
  pose proof (collect_prototype d _ (∅, None) Hall) as Hp.
  pose proof (fun k => collect_lookup d k _ (∅, None) Hall) as Hl.
  destruct (fold_left _ _ _) as [own proto]. simpl in Hp, Hl. f_equal.
  - apply map_eq. intros k. rewrite Hl.
    destruct (decide (k ∈ storedNames (IndexedDB.custom_banks d)
                      /\ k <> "__proto__")) as [[_ Hk]|Hn].
    + rewrite lookup_delete_ne by congruence. reflexivity.
    + rewrite lookup_empty. symmetry.
      destruct (decide (k = "__proto__")) as [->|Hk];
        [apply lookup_delete_eq|].
      rewrite lookup_delete_ne by congruence.
      apply eq_None_not_Some.
      intros Hs. apply Hn. split; [apply storedNames_elem; exact Hs|exact Hk].
  - rewrite Hp.
    destruct (decide ("__proto__" ∈ storedNames (IndexedDB.custom_banks d)))
      as [_|Hn]; [reflexivity|].
    symmetry. apply eq_None_not_Some.
    intros Hs. apply Hn, storedNames_elem. exact Hs.
Qed.

Section StartUp.
Variable memoryBanks : list (string * list string).

(** The loop that collects the stored contents changes nothing; when it
    ends normally it has the content of every name it was given. *)
Lemma collectCustomData_run (env : App.Env) (names : list string)
    (acc : gmap string (list string) * option (list string)) (w : App.World) :
  exists o w',
    App.collectCustomData env names acc w = (o, w')
    /\ App.db w' = App.db w
    /\ App.availableBanks w' = App.availableBanks w
    /\ App.customBankData w' = App.customBankData w
    /\ App.customBankPrototype w' = App.customBankPrototype w
    /\ App.isAppLoading w' = App.isAppLoading w
    /\ (forall m, o = App.Normal m ->
          m = fold_left (fun acc n =>
                           match IndexedDB.getCustomBank n (App.db w) with
                           | Some bk => App.assign n (IndexedDB.content bk) acc
                           | None => acc
                           end) names acc)
    /\ (App.storeReliable env -> exists m, o = App.Normal m).
Proof.
  revert acc w. induction names as [|n names IH]; intros acc w.
  - do 2 eexists. split; [reflexivity|]. repeat split.
    + intros m [= <-]. reflexivity.
    + intros _. eexists. reflexivity.
  - cbn [App.collectCustomData].
    unfold mbind at 1, App.M_bind at 1. unfold App.await_read at 1.
    destruct (App.storeFails env (App.now w)) eqn:Hf.
    { do 2 eexists. split; [reflexivity|]. simpl. repeat split.
      - intros m Hm. discriminate.
      - intros Hrel. rewrite Hrel in Hf. discriminate. }
    destruct (IH (match IndexedDB.getCustomBank n (App.db w) with
                  | Some b => App.assign n (IndexedDB.content b) acc
                  | None => acc
                  end) (App.tick w))
      as (o & w' & Hrun & Hdb & Hav & Hcd & Hcp & Hld & Hval & Hok).
    exists o, w'. split; [exact Hrun|]. simpl in Hdb, Hav, Hcd, Hcp, Hld, Hval.
    repeat split; assumption.
Qed.

(** Loading the custom banks: it ends normally when the store answers,
    and then lists the stored names after the built-in ones and takes over
    the stored contents; if a read is rejected the list is the old one or
    already the new one. *)
Lemma loadCustomBanks_run (env : App.Env) (w : App.World) :
  let names := storedNames (IndexedDB.custom_banks (App.db w)) in
  let listed := if Nat.ltb 0 (length names)
                then App.defaultBankNames memoryBanks ++ names
                else App.availableBanks w in
  exists o w3,
    App.loadCustomBanks memoryBanks env w = (o, w3)
    /\ App.db w3 = App.db w
    /\ App.isAppLoading w3 = App.isAppLoading w
    /\ (App.availableBanks w3 = App.availableBanks w
        \/ App.availableBanks w3 = listed)
    /\ (o = App.Normal tt ->
        App.availableBanks w3 = listed
        /\ App.customBankData w3
           = (if Nat.ltb 0 (length names)
              then delete "__proto__" (IndexedDB.custom_banks (App.db w))
              else App.customBankData w)
        /\ App.customBankPrototype w3
           = (if Nat.ltb 0 (length names)
              then IndexedDB.custom_banks (App.db w) !! "__proto__"
              else App.customBankPrototype w))
    /\ (App.storeReliable env -> o = App.Normal tt).
Proof.
  intros names listed. unfold App.loadCustomBanks.
  unfold mbind at 1, App.M_bind at 1. unfold App.await_read at 1.
  destruct (App.storeFails env (App.now w)) eqn:Hf1.
  { do 2 eexists. split; [reflexivity|]. simpl.
    split; [reflexivity|]. split; [reflexivity|]. split; [left; reflexivity|].
    split; [discriminate|]. intros Hrel. rewrite Hrel in Hf1. discriminate. }
  change (IndexedDB.getAllCustomBankNames (App.db w)) with names.
  subst listed. destruct (Nat.ltb 0 (length names)) eqn:E.
  - unfold mbind at 1, App.M_bind at 1. unfold App.setAvailableBanks at 1.
    unfold mbind at 1, App.M_bind at 1.
    match goal with
    | |- context [App.collectCustomData env names (∅, None) ?w1] =>
        destruct (collectCustomData_run env names (∅, None) w1)
          as (o & w' & Hrun & Hdb & Hav & Hcd & Hcp & Hld & Hval & Hok)
    end.
    rewrite Hrun. simpl in Hdb, Hav, Hcd, Hcp, Hld, Hval.
    destruct o as [m| |].
    + do 2 eexists. split; [reflexivity|]. simpl.
      split; [exact Hdb|]. split; [exact Hld|]. split; [right; exact Hav|].
      split; [|reflexivity]. intros _. split; [exact Hav|].
      rewrite (Hval m eq_refl).
      pose proof (collect_all (App.db w)) as Hall.
      change (IndexedDB.getAllCustomBankNames (App.db w)) with names in Hall.
      rewrite Hall. split; reflexivity.
    + do 2 eexists. split; [reflexivity|].
      split; [exact Hdb|]. split; [exact Hld|]. split; [right; exact Hav|].
      split; [discriminate|]. intros Hrel. destruct (Hok Hrel) as [m Hm].
      discriminate.
    + do 2 eexists. split; [reflexivity|].
      split; [exact Hdb|]. split; [exact Hld|]. split; [right; exact Hav|].
      split; [discriminate|]. intros Hrel. destruct (Hok Hrel) as [m Hm].
      discriminate.
  - do 2 eexists. split; [reflexivity|]. simpl.
    split; [reflexivity|]. split; [reflexivity|]. split; [left; reflexivity|].
    split; [|reflexivity]. intros _. split; [|split]; reflexivity.
Qed.

Lemma noReturn_bind {A B : Type} (m : App.M A) (k : A -> App.M B) :
  noReturn m -> (forall a, noReturn (k a)) -> noReturn (m ≫= k).
Proof.
  intros Hm Hk w. unfold mbind, App.M_bind. specialize (Hm w).
  destruct (m w) as [[a| |] w1]; simpl in *; [apply Hk | congruence | discriminate].
Qed.

Lemma noReturn_forEach {A : Type} (l : list A) (body : A -> App.M unit) :
  (forall x, noReturn (body x)) -> noReturn (App.forEach l body).
Proof.
  intros Hb. induction l as [|x l IH]; simpl.
  - intros w. discriminate.
  - apply noReturn_bind; [apply Hb | intros _; exact IH].
Qed.

Lemma noReturn_check (env : App.Env) :
  neverCancelled env -> noReturn (App.returnIfCancelled env).
Proof. intros Hnc w. rewrite returnIfCancelled_never by exact Hnc. discriminate. Qed.

Lemma noReturn_read {A : Type} (env : App.Env) (f : IndexedDB.Database -> A) :
  noReturn (App.await_read env f).
Proof.
  intros w. unfold App.await_read.
  destruct (App.storeFails env (App.now w)); discriminate.
Qed.

Lemma noReturn_write (env : App.Env) (e : App.Effect)
    (f : IndexedDB.Database -> IndexedDB.Database) :
  noReturn (App.await_write env e f).
Proof.
  intros w. unfold App.await_write.
  destruct (App.storeFails env (App.now w)); discriminate.
Qed.

Lemma noReturn_cacheBank (env : App.Env) (b : string) (data : list string) :
  neverCancelled env -> noReturn (App.cacheBank env b data).
Proof.
  intros Hnc. unfold App.cacheBank.
  apply noReturn_bind; [apply noReturn_read|]. intros cached.
  apply noReturn_bind; [apply noReturn_check, Hnc|]. intros _.
  destruct (App.needsGeneration cached data); [|intros w; discriminate].
  apply noReturn_bind; [apply noReturn_write|]. intros _.
  apply noReturn_bind.
  { intros w. unfold App.await_generateEmbedding.
    destruct (Embedding.generateEmbeddings _ _ _); discriminate. }
  intros vs. apply noReturn_bind; [apply noReturn_check, Hnc|]. intros _.
  destruct (App.isArrayOfArrays vs); [|intros w; discriminate].
  unfold App.insertAll. apply noReturn_forEach. intros j.
  apply noReturn_bind; [apply noReturn_check, Hnc|]. intros _.
  apply noReturn_bind; [|intros; intros w; discriminate].
  intros w. unfold App.await_addRecord.
  destruct (App.storeFails env (App.now w)); discriminate.
Qed.

Lemma forEach_settles {A : Type} (l : list A) (body : A -> App.M unit) :
  (forall x w, exists w', body x w = (App.Normal tt, w')) ->
  forall w, exists w', App.forEach l body w = (App.Normal tt, w').
Proof.
  intros Hb. induction l as [|x l IH]; intros w; simpl.
  - eexists. reflexivity.
  - unfold mbind, App.M_bind. destruct (Hb x w) as [w1 ->]. apply IH.
Qed.

Lemma cacheDefaultBanks_settles (env : App.Env) (w : App.World) :
  neverCancelled env ->
  exists w', App.cacheDefaultBanks memoryBanks env w = (App.Normal tt, w').
Proof.
  intros Hnc. unfold App.cacheDefaultBanks. apply forEach_settles.
  intros b w1. unfold mbind, App.M_bind.
  rewrite returnIfCancelled_never by exact Hnc.
  unfold App.tryCatch.
  pose proof (noReturn_cacheBank env b
                (default [] (App.lookupBank memoryBanks b)) Hnc w1) as Hr.
  destruct (App.cacheBank env b _ w1) as [[[]| |] w2]; simpl in Hr;
    try congruence; eexists; reflexivity.
Qed.

Lemma setup_run (env : App.Env) (d : IndexedDB.Database) :
  exists o w',
    App.setup memoryBanks env (App.mount memoryBanks d) = (o, w')
    /\ startedUp memoryBanks env d w'.
Proof.
  unfold App.setup, startedUp.
  unfold mbind at 1, App.M_bind at 1.
  set (w0 := App.tick (App.mount memoryBanks d)).
  unfold mbind at 1, App.M_bind at 1. unfold App.returnIfCancelled at 1.
  destruct (App.cancelled env (App.now w0)) eqn:Hc0.
  { do 2 eexists. split; [reflexivity|]. simpl.
    split; [reflexivity|]. split; [left; reflexivity|].
    split; [discriminate|]. intros Hnc. rewrite Hnc in Hc0. discriminate. }
  unfold mbind at 1, App.M_bind at 1.
  pose proof (keepsFrame_cacheDefaultBanks memoryBanks env w0) as Hframe.
  pose proof (cacheDefaultBanks_settles env w0) as Hsettle.
  destruct (App.cacheDefaultBanks memoryBanks env w0) as [o2 w2] eqn:Hloop.
  destruct Hframe as (Hcb & Hav & Hcd & Hld & Hcp).
  simpl in Hcb, Hav, Hcd, Hld, Hcp.
  assert (o2 <> App.Normal tt ->
          exists o w', (o2, w2) = (o, w') /\ startedUp memoryBanks env d w') as Hstop.
  { intros Ho. do 2 eexists. split; [reflexivity|]. unfold startedUp.
    split; [exact Hcb|]. split; [left; exact Hav|].
    split; [rewrite Hld; discriminate|].
    intros Hnc _. destruct (Hsettle Hnc) as [w'' Hw'']. congruence. }
  unfold startedUp in Hstop.
  destruct o2 as [[]| |]; [|apply Hstop; discriminate|apply Hstop; discriminate].
  clear Hstop Hsettle.
  destruct (loadCustomBanks_run env w2)
    as (o3 & w3 & Hrun & Hdb3 & Hld3 & Hav3 & Hdone3 & Hok3).
  cbv zeta in Hav3, Hdone3. rewrite Hcb in Hav3, Hdone3.
  set (names := storedNames (IndexedDB.custom_banks d)) in *.
  assert ((if Nat.ltb 0 (length names)
           then App.defaultBankNames memoryBanks ++ names
           else App.availableBanks w2)
          = App.defaultBankNames memoryBanks ++ names) as Hlisted.
  { destruct names as [|n ns]; simpl; [rewrite Hav, app_nil_r|]; reflexivity. }
  assert (names = [] -> IndexedDB.custom_banks d = ∅) as Hnone.
  { intros En. apply map_empty. intros k.
    apply eq_None_not_Some. intros Hs. apply storedNames_elem in Hs.
    fold names in Hs. rewrite En in Hs. apply elem_of_nil in Hs. exact Hs. }
  assert ((if Nat.ltb 0 (length names)
           then delete "__proto__" (IndexedDB.custom_banks d)
           else App.customBankData w2)
          = delete "__proto__" (IndexedDB.custom_banks d)) as Htaken.
  { destruct names as [|n ns] eqn:En; simpl; [|reflexivity].
    rewrite Hcd, (Hnone eq_refl). simpl. symmetry. apply delete_empty. }
  assert ((if Nat.ltb 0 (length names)
           then IndexedDB.custom_banks d !! "__proto__"
           else App.customBankPrototype w2)
          = IndexedDB.custom_banks d !! "__proto__") as Hproto.
  { destruct names as [|n ns] eqn:En; simpl; [|reflexivity].
    rewrite Hcp, (Hnone eq_refl). simpl. symmetry. apply lookup_empty. }
  rewrite Hlisted in Hav3, Hdone3. rewrite Htaken, Hproto in Hdone3.
  assert (App.availableBanks w3 = App.defaultBankNames memoryBanks
          \/ App.availableBanks w3 = App.defaultBankNames memoryBanks ++ names)
    as Hav3'.
  { destruct Hav3 as [H|H]; [left; rewrite H; exact Hav|right; exact H]. }
  unfold mbind at 1, App.M_bind at 1. rewrite Hrun.
  destruct o3 as [[]| |].
  2,3: do 2 eexists; (split; [reflexivity|]); rewrite Hdb3;
       (split; [exact Hcb|]); (split; [exact Hav3'|]);
       (split; [rewrite Hld3, Hld; discriminate|]);
       intros _ Hrel; specialize (Hok3 Hrel); discriminate.
  destruct (Hdone3 eq_refl) as (Hl & Hc & Hp).
  unfold mbind at 1, App.M_bind at 1. unfold App.returnIfCancelled at 1.
  destruct (App.cancelled env (App.now w3)) eqn:Hc3.
  { do 2 eexists. split; [reflexivity|]. rewrite Hdb3.
    split; [exact Hcb|]. split; [right; exact Hl|].
    split; [intros _; exact Hl|].
    intros Hnc. rewrite Hnc in Hc3. discriminate. }
  do 2 eexists. split; [reflexivity|]. simpl. rewrite Hdb3.
  split; [exact Hcb|]. split; [right; exact Hl|].
  split; [intros _; exact Hl|].
  intros _ _. split; [reflexivity|]. split; [exact Hc|exact Hp].
Qed.
End StartUp.

(** ** Creating and deleting custom banks *)

Lemma includes_elem (l : list string) (x : string) :
  Js.includes l x = true <-> x ∈ l.
Proof.
  unfold Js.includes. rewrite existsb_exists. split.
  - intros (y & Hin & Hy). apply String.eqb_eq in Hy. subst y.
    apply list_elem_of_In. exact Hin.
  - intros Hin. exists x. split; [apply list_elem_of_In; exact Hin|].
    apply String.eqb_refl.
Qed.

Lemma includes_not_elem (l : list string) (x : string) :
  Js.includes l x = false <-> x ∉ l.
Proof.
  rewrite <- includes_elem. destruct (Js.includes l x); split; congruence.
Qed.

(** The lines the modal counts are the entries the bank gets. *)
Lemma content_of_lines (lines : list string) :
  List.filter Js.truthy (Js.trim <$> lines)
  = Js.trim <$> List.filter App.nonBlank lines.
Proof.
  induction lines as [|x l IH]; [reflexivity|]. cbn [fmap list_fmap List.filter].
  change (list_fmap string string Js.trim l) with (Js.trim <$> l).
  rewrite IH. unfold Js.truthy, App.nonBlank.
  destruct (negb (String.eqb (Js.trim x) EmptyString)); reflexivity.
Qed.

Lemma content_length (inputText : string) :
  length (List.filter Js.truthy (Js.trim <$> Js.split_newline inputText))
  = length (List.filter App.nonBlank (Js.split_newline inputText)).
Proof. rewrite content_of_lines. apply length_fmap. Qed.

(** What the validation has established when it lets a bank through. *)
Lemma handleSave_OnSave (existingNames : list string) (bankName inputText n t : string) :
  App.handleSave existingNames bankName inputText = App.OnSave n t ->
  n = Js.trim bankName /\ t = inputText /\ n <> EmptyString
  /\ (Js.toLowerCase n ∉ existingNames)
  /\ 0 < length (List.filter App.nonBlank (Js.split_newline inputText))
  /\ length (List.filter App.nonBlank (Js.split_newline inputText)) <= 20.
Proof.
  unfold App.handleSave.
  destruct (String.eqb (Js.trim bankName) EmptyString) eqn:En; [discriminate|].
  destruct (Js.includes existingNames (Js.toLowerCase (Js.trim bankName))) eqn:Ei;
    [discriminate|].
  destruct (Nat.eqb (length _) 0) eqn:E0; [discriminate|].
  destruct (Nat.ltb 20 (length _)) eqn:E20; [discriminate|].
  intros [= <- <-]. apply String.eqb_neq in En. apply includes_not_elem in Ei.
  apply Nat.eqb_neq in E0. apply Nat.ltb_ge in E20.
  repeat split; try assumption; lia.
Qed.

Section Creation.
Variable memoryBanks : list (string * list string).
Variable env : App.Env.

Lemma handleSaveCustomBank_run (n inputText : string) (w : App.World) :
  let content := List.filter Js.truthy (Js.trim <$> Js.split_newline inputText) in
  (content = [] ->
   App.handleSaveCustomBank env n inputText w = (App.Normal tt, w))
  /\ (content <> [] ->
      Embedding.generateEmbeddings (App.loaded env) content Embedding.noOptions = None ->
      App.handleSaveCustomBank env n inputText w
      = (App.Thrown, App.withEffect (App.EmbedRequest content) w))
  /\ (forall vs,
        content <> [] ->
        App.storeReliable env ->
        Embedding.generateEmbeddings (App.loaded env) content Embedding.noOptions
        = Some vs ->
        exists w', App.handleSaveCustomBank env n inputText w = (App.Normal tt, w')
                   /\ saved n content vs w w').
Proof.
  intros content. unfold App.handleSaveCustomBank. fold content.
  split; [|split].
  - intros ->. reflexivity.
  - intros Hne Hemb. destruct content as [|c cs]; [contradiction|].
    cbn [length Nat.eqb].
    unfold mbind at 1, App.M_bind at 1. unfold App.await_generateEmbedding at 1.
    rewrite Hemb. reflexivity.
  - intros vs Hne Hrel Hemb.
    pose proof (generateEmbeddings_length _ _ _ _ Hemb) as Hlen.
    destruct content as [|c cs] eqn:Hc; [contradiction|].
    destruct vs as [|v vs']; [discriminate|].
    cbn [length Nat.eqb]. rewrite <- Hc in *.
    unfold mbind at 1, App.M_bind at 1. unfold App.await_generateEmbedding at 1.
    rewrite Hemb. cbv zeta.
    unfold mbind at 1, App.M_bind at 1. rewrite await_write_reliable by exact Hrel.
    unfold mbind at 1, App.M_bind at 1. cbn [App.isArrayOfArrays].
    rewrite insertAll_run; [|exact Hrel|intros w'; reflexivity|exact Hlen].
    eexists. split; [reflexivity|].
    unfold saved. cbn [App.setAvailableBanks App.setCustomBankData App.setActiveBank
                       mbind App.M_bind snd App.effects App.db App.availableBanks
                       App.customBankData App.activeBank App.isAppLoading].
    rewrite addMany_effects, addMany_memories, addMany_custom_banks.
    destruct (addMany_react (zip_with (IndexedDB.mkNew n) content (v :: vs'))
               (App.withDb (App.SaveBank (IndexedDB.mkBank n content))
                  (IndexedDB.saveCustomBank (IndexedDB.mkBank n content)
                     (App.db (App.withEffect (App.EmbedRequest content) w)))
                  (App.withEffect (App.EmbedRequest content) w)))
      as (-> & -> & _ & _ & ->).
    simpl. rewrite <- !app_assoc. repeat split.
Qed.

(** A creation leaves the list of banks alone or adds the new bank at its
    end. *)
Lemma handleSaveCustomBank_listed (n inputText : string) (w : App.World) :
  exists o w',
    App.handleSaveCustomBank env n inputText w = (o, w')
    /\ (App.availableBanks w' = App.availableBanks w
        \/ App.availableBanks w' = App.availableBanks w ++ [n]).
Proof.
  unfold App.handleSaveCustomBank.
  destruct (Nat.eqb (length _) 0); [do 2 eexists; split; [reflexivity|left; reflexivity]|].
  set (content := List.filter Js.truthy (Js.trim <$> Js.split_newline inputText)).
  unfold mbind at 1, App.M_bind at 1. unfold App.await_generateEmbedding at 1.
  destruct (Embedding.generateEmbeddings _ _ _) as [vs|];
    [|do 2 eexists; split; [reflexivity|left; reflexivity]].
  cbv zeta.
  unfold mbind at 1, App.M_bind at 1. unfold App.await_write at 1.
  destruct (App.storeFails env _);
    [do 2 eexists; split; [reflexivity|left; reflexivity]|].
  unfold mbind at 1, App.M_bind at 1.
  match goal with
  | |- context [(if App.isArrayOfArrays vs then ?m else _) ?w0] =>
      assert (keepsFrame (if App.isArrayOfArrays vs then m else App.throw)) as Hk
        by (destruct (App.isArrayOfArrays vs);
            [apply keepsFrame_insertAll, keepsFrame_ret|intros w2; apply frame_refl]);
      specialize (Hk w0);
      destruct ((if App.isArrayOfArrays vs then m else App.throw) w0) as [[[]| |] w1]
  end; destruct Hk as (_ & Ha & _); simpl in Ha;
    (do 2 eexists; split; [reflexivity|]); simpl.
  - right. rewrite Ha. reflexivity.
  - left. exact Ha.
  - left. exact Ha.
Qed.

(** A deletion removes the bank from the store and from the list; when the
    store rejects the first request nothing happens, when it rejects the
    second the bank is gone from the store and still listed. *)
Lemma handleConfirmDelete_run (b : string) (w : App.World) :
  exists w',
    App.handleConfirmDelete env b w = (App.Normal tt, w')
    /\ App.isAppLoading w' = App.isAppLoading w
    /\ (frame w w'
        \/ (IndexedDB.custom_banks (App.db w')
            = delete b (IndexedDB.custom_banks (App.db w))
            /\ App.availableBanks w' = App.availableBanks w)
        \/ (IndexedDB.custom_banks (App.db w')
            = delete b (IndexedDB.custom_banks (App.db w))
            /\ App.availableBanks w'
               = List.filter (fun x => negb (String.eqb x b)) (App.availableBanks w)
            /\ IndexedDB.getRecordsByBank b (App.db w') = []))
    /\ (App.storeReliable env ->
        IndexedDB.custom_banks (App.db w')
        = delete b (IndexedDB.custom_banks (App.db w))
        /\ IndexedDB.getRecordsByBank b (App.db w') = []).
Proof.
  unfold App.handleConfirmDelete, App.tryCatch.
  unfold mbind at 1, App.M_bind at 1. unfold App.await_write at 1.
  destruct (App.storeFails env (App.now w)) eqn:Hf1.
  { eexists. split; [reflexivity|]. split; [reflexivity|].
    split; [left; repeat split|].
    intros Hrel. rewrite Hrel in Hf1. discriminate. }
  unfold mbind at 1, App.M_bind at 1. unfold App.await_write at 1.
  cbn [App.now App.withDb].
  destruct (App.storeFails env (S (App.now w))) eqn:Hf2.
  { eexists. split; [reflexivity|]. split; [reflexivity|].
    split; [right; left; split; reflexivity|].
    intros Hrel. rewrite Hrel in Hf2. discriminate. }
  unfold mbind, App.M_bind.
  match goal with
  | |- context [String.eqb ?a b] => destruct (String.eqb a b)
  end; (eexists; split; [reflexivity|]); simpl; (split; [reflexivity|]);
    (split; [right; right; repeat split; apply filter_bank_cleared|]);
    intros _; (split; [reflexivity|apply filter_bank_cleared]).
Qed.
End Creation.

(** C7. A bank text with more than 20 non-blank lines is turned down by the
    modal with the world untouched: nothing is embedded, nothing saved.
    With exactly 20 such lines and an acceptable name the modal hands the
    text on; the creation then, when provider and store deliver, requests
    embeddings for exactly these 20 entries, saves the bank with its 20
    entries and lists it.  The limit is tested nowhere else: at start-up
    every stored custom bank is taken over with its whole content (the
    one stored as [__proto__] becomes the prototype of the object instead
    of a property of its own, and is read from there), and a bank whose
    content [loadBank] reads as a list is synchronised entry by entry,
    whatever its length. *)
Theorem bank_limit_checked_at_creation_only
    (memoryBanks : list (string * list string)) (env : App.Env) :
  (forall bankName inputText w,
      20 < length (List.filter App.nonBlank (Js.split_newline inputText)) ->
      exists message,
        App.saveBankClicked env bankName inputText w = (App.ShowsError message, w))
  /\ (forall bankName inputText w,
        length (List.filter App.nonBlank (Js.split_newline inputText)) = 20 ->
        Js.trim bankName <> EmptyString ->
        Js.toLowerCase (Js.trim bankName) ∉ Js.toLowerCase <$> App.availableBanks w ->
        let content :=
          List.filter Js.truthy (Js.trim <$> Js.split_newline inputText) in
        App.handleSave (Js.toLowerCase <$> App.availableBanks w) bankName inputText
        = App.OnSave (Js.trim bankName) inputText
        /\ length content = 20
        /\ forall vs,
             App.storeReliable env ->
             Embedding.generateEmbeddings (App.loaded env) content Embedding.noOptions
             = Some vs ->
             exists w',
               App.saveBankClicked env bankName inputText w = (App.Closed, w')
               /\ saved (Js.trim bankName) content vs w w')
  /\ (forall d,
        neverCancelled env -> App.storeReliable env ->
        let w' := (App.setup memoryBanks env (App.mount memoryBanks d)).2 in
        App.customBankData w' = delete "__proto__" (IndexedDB.custom_banks d)
        /\ App.customBankPrototype w' = IndexedDB.custom_banks d !! "__proto__"
        /\ forall arrayProperty n content,
             IndexedDB.custom_banks d !! n = Some content ->
             App.get (App.customBankObject arrayProperty w') n = Js.Arr content)
  /\ (forall b custom content vs w,
        neverCancelled env -> App.storeReliable env ->
        App.currentBankContent memoryBanks custom b = Js.Arr content ->
        IndexedDB.getRecordsByBank b (App.db w) = [] ->
        content <> [] ->
        Embedding.generateEmbeddings (App.loaded env) content Embedding.noOptions
        = Some vs ->
        exists w', App.loadBank memoryBanks env b custom w = (App.Normal tt, w')
                   /\ replacedWholesale b content vs w w').
Proof.
  split; [|split; [|split]].
  - intros bankName inputText w Hmany. unfold App.saveBankClicked, App.handleSave.
    destruct (String.eqb (Js.trim bankName) EmptyString); [eexists; reflexivity|].
    destruct (Js.includes _ _); [eexists; reflexivity|].
    destruct (length (List.filter App.nonBlank (Js.split_newline inputText)))
      as [|k] eqn:Hk; [lia|].
    cbn [Nat.eqb]. apply Nat.ltb_lt in Hmany. rewrite Hmany.
    eexists; reflexivity.
  - intros bankName inputText w H20 Hname Hfree content.
    assert (App.handleSave (Js.toLowerCase <$> App.availableBanks w) bankName inputText
            = App.OnSave (Js.trim bankName) inputText) as Hsave.
    { unfold App.handleSave.
      apply String.eqb_neq in Hname. rewrite Hname.
      apply includes_not_elem in Hfree. rewrite Hfree. rewrite H20. reflexivity. }
    assert (length content = 20) as Hlen.
    { unfold content. rewrite content_length. exact H20. }
    assert (content <> []) as Hne by (intros E; rewrite E in Hlen; discriminate).
    destruct (handleSaveCustomBank_run env (Js.trim bankName) inputText w)
      as (_ & Hfail & Hok).
    fold content in Hfail, Hok.
    split; [exact Hsave|]. split; [exact Hlen|].
    intros vs Hrel Hemb. destruct (Hok vs Hne Hrel Hemb) as (w' & Hrun & Hsaved).
    exists w'. unfold App.saveBankClicked. rewrite Hsave, Hrun.
    split; [reflexivity|exact Hsaved].
  - intros d Hnc Hrel.
    destruct (setup_run memoryBanks env d) as (o & w' & -> & _ & _ & _ & Hdone).
    destruct (Hdone Hnc Hrel) as (_ & Hown & Hproto).
    cbv zeta. cbn [snd]. split; [exact Hown|]. split; [exact Hproto|].
    intros arrayProperty n content Hn.
    unfold App.get, App.customBankObject. cbn [App.properties App.inherited].
    rewrite Hown, Hproto.
    destruct (decide (n = "__proto__")) as [->|Hne].
    + rewrite lookup_delete_eq, Hn. reflexivity.
    + rewrite lookup_delete_ne by congruence. rewrite Hn. reflexivity.
  - intros b custom content vs w Hnc Hrel Hcur Hnone Hne Hemb.
    pose proof (generateEmbeddings_length _ _ _ _ Hemb) as Hlen.
    destruct (loadBank_stale memoryBanks env b custom content vs w Hcur Hnc Hrel Hemb)
      as (w1 & w' & Hrun & Hdb & Heff & Hdb' & Heff' & _).
    + rewrite Hnone. unfold App.lengthDiffers.
      destruct content; [contradiction|reflexivity].
    + exists w'. split; [exact Hrun|].
      eapply (cleared_replaced env); eassumption.
Qed.

Lemma bank_limit_checked_at_creation_only_witness :
  (exists message,
     App.saveBankClicked Fixture.env "Mine" (Fixture.twentyLines +:+ App.newline +:+ "u")
       (App.mount Fixture.builtin IndexedDB.emptyDb)
     = (App.ShowsError message, App.mount Fixture.builtin IndexedDB.emptyDb))
  /\ App.handleSave
       (Js.toLowerCase <$> App.availableBanks (App.mount Fixture.builtin IndexedDB.emptyDb))
       " Mine " Fixture.twentyLines
     = App.OnSave "Mine" Fixture.twentyLines.
Proof.
  pose proof (bank_limit_checked_at_creation_only Fixture.builtin Fixture.env)
    as (Hmany & Htwenty & _).
  split.
  - apply Hmany. vm_compute. lia.
  - refine (proj1 (Htwenty " Mine " Fixture.twentyLines
                     (App.mount Fixture.builtin IndexedDB.emptyDb) _ _ _)).
    + vm_compute. reflexivity.
    + vm_compute. discriminate.
    + apply includes_not_elem. vm_compute. reflexivity.
Defined.

(** ** Names of the available banks *)

Lemma distinctNames_filter (p : string -> bool) (l : list string) :
  distinctNames l -> distinctNames (List.filter p l).
Proof.
  unfold distinctNames. induction l as [|x l IH]; [intros H; exact H|].
  cbn [fmap list_fmap]. intros Hnd. apply NoDup_cons in Hnd as [Hx Hl].
  simpl. destruct (p x).
  - cbn [fmap list_fmap]. apply NoDup_cons. split; [|apply IH; exact Hl].
    intros Hin. apply Hx. apply list_elem_of_fmap in Hin as (y & Hy & Hin).
    apply list_elem_of_fmap. exists y. split; [exact Hy|].
    apply list_elem_of_In in Hin. apply filter_In in Hin as [Hin _].
    apply list_elem_of_In. exact Hin.
  - apply IH. exact Hl.
Qed.

Lemma distinctNames_snoc (l : list string) (n : string) :
  distinctNames l -> Js.toLowerCase n ∉ Js.toLowerCase <$> l ->
  distinctNames (l ++ [n]).
Proof.
  unfold distinctNames. intros Hl Hn. rewrite fmap_app. apply NoDup_app.
  split; [exact Hl|]. split.
  - intros x Hx Hx'. cbn in Hx'. apply list_elem_of_singleton in Hx'. subst x.
    contradiction.
  - cbn. apply NoDup_singleton.
Qed.

Lemma started_distinct (memoryBanks : list (string * list string))
    (d : IndexedDB.Database) :
  distinctNames (App.defaultBankNames memoryBanks) ->
  distinctInStore memoryBanks d ->
  distinctNames (App.defaultBankNames memoryBanks
                 ++ storedNames (IndexedDB.custom_banks d)).
Proof.
  intros Hbuiltin [K1 K2]. unfold distinctNames. rewrite fmap_app. apply NoDup_app.
  split; [exact Hbuiltin|]. split.
  - intros x Hx Hx'. apply list_elem_of_fmap in Hx' as (k & -> & Hk).
    apply storedNames_elem in Hk. exact (K1 k Hk Hx).
  - apply NoDup_fmap_2_strong; [|apply storedNames_NoDup].
    intros k1 k2 H1 H2. apply K2; apply storedNames_elem; assumption.
Qed.

Lemma saveBankClicked_distinct (env : App.Env) (bankName inputText : string)
    (w : App.World) :
  distinctNames (App.availableBanks w) ->
  distinctNames (App.availableBanks (App.saveBankClicked env bankName inputText w).2).
Proof.
  intros Hav. unfold App.saveBankClicked.
  destruct (App.handleSave _ bankName inputText) as [msg|n t] eqn:Hsave;
    [exact Hav|].
  apply handleSave_OnSave in Hsave as (_ & _ & _ & Hfree & _).
  destruct (handleSaveCustomBank_listed env n t w) as (o & w1 & -> & Hlists).
  assert (distinctNames (App.availableBanks w1)) as Hw1.
  { destruct Hlists as [-> | ->]; [exact Hav|].
    apply distinctNames_snoc; assumption. }
  destruct o as [[]| |]; exact Hw1.
Qed.

(** C10. A bank name that is empty after trimming, or whose trimmed form
    equals the name of an available bank up to letter case, is turned down
    by the modal with the world untouched: nothing is embedded or saved.
    Hence a creation, however it ends, keeps the listed names distinct up
    to case, and so does a deletion.  A page load lists names that are
    distinct up to case when the stored names are, among themselves and
    from the built-in ones.  They need not be: a creation whose records
    the store rejects has saved the definition and not listed the bank, so
    that a second creation under a name that differs in case only is let
    through; after the creations of "Mine" and "mine" in such a session a
    page load lists both. *)
Theorem taken_names_are_refused :
  (forall env bankName inputText w,
      Js.trim bankName = EmptyString ->
      App.saveBankClicked env bankName inputText w
      = (App.ShowsError "Bank name cannot be empty.", w))
  /\ (forall env bankName inputText w b,
        Js.trim bankName <> EmptyString ->
        b ∈ App.availableBanks w ->
        Js.toLowerCase b = Js.toLowerCase (Js.trim bankName) ->
        App.saveBankClicked env bankName inputText w
        = (App.ShowsError "This name is already taken. Please choose another.", w))
  /\ (forall env bankName inputText w,
        distinctNames (App.availableBanks w) ->
        distinctNames
          (App.availableBanks (App.saveBankClicked env bankName inputText w).2))
  /\ (forall env bankToDelete w,
        distinctNames (App.availableBanks w) ->
        distinctNames
          (App.availableBanks (App.handleConfirmDelete env bankToDelete w).2))
  /\ (forall memoryBanks env d,
        distinctNames (App.defaultBankNames memoryBanks) ->
        distinctInStore memoryBanks d ->
        distinctNames
          (App.availableBanks (App.setup memoryBanks env (App.mount memoryBanks d)).2))
  /\ (App.sessionReachable Fixture.builtin Fixture.halfCreated
      /\ IndexedDB.getCustomBank "Mine" (App.db Fixture.halfCreated)
         = Some (IndexedDB.mkBank "Mine" ["a fact"])
      /\ App.availableBanks Fixture.halfCreated
         = App.defaultBankNames Fixture.builtin
      /\ App.sessionReachable Fixture.builtin Fixture.reloaded
      /\ App.availableBanks Fixture.reloaded
         = App.defaultBankNames Fixture.builtin ++ ["Mine"; "mine"]
      /\ ~ distinctNames (App.availableBanks Fixture.reloaded)).
Proof.
  split; [|split; [|split; [|split; [|split]]]].
  - intros env bankName inputText w Hname.
    unfold App.saveBankClicked, App.handleSave. rewrite Hname. reflexivity.
  - intros env bankName inputText w b Hname Hb Heq.
    unfold App.saveBankClicked, App.handleSave.
    apply String.eqb_neq in Hname. rewrite Hname.
    assert (Js.includes (Js.toLowerCase <$> App.availableBanks w)
              (Js.toLowerCase (Js.trim bankName)) = true) as ->; [|reflexivity].
    apply includes_elem. apply list_elem_of_fmap. exists b. auto.
  - intros env bankName inputText w. apply saveBankClicked_distinct.
  - intros env b w Hav.
    destruct (handleConfirmDelete_run env b w) as (w' & -> & _ & Hcases & _).
    simpl. destruct Hcases as [(_ & -> & _)|[(_ & ->)|(_ & -> & _)]];
      [exact Hav|exact Hav|apply distinctNames_filter; exact Hav].
  - intros memoryBanks env d Hbuiltin Hstore.
    destruct (setup_run memoryBanks env d) as (o & w' & -> & _ & Hlists & _).
    simpl. destruct Hlists as [-> | ->];
      [exact Hbuiltin|apply started_distinct; assumption].
  - assert (App.sessionReachable Fixture.builtin Fixture.halfCreated) as Hhalf.
    { apply (App.reach_next Fixture.builtin Fixture.shown Fixture.halfCreated
               shown_reachable).
      apply (App.step_create Fixture.builtin
               (Fixture.rejectingAt (S (S (App.now Fixture.shown))))
               "Mine" "a fact" Fixture.shown);
        [vm_compute; reflexivity|vm_compute; eauto]. }
    split; [exact Hhalf|]. split; [vm_compute; reflexivity|].
    split; [vm_compute; reflexivity|]. split; [|split].
    + apply (App.reach_next Fixture.builtin Fixture.createdAgain Fixture.reloaded).
      * apply (App.reach_next Fixture.builtin Fixture.halfCreated
                 Fixture.createdAgain Hhalf).
        apply (App.step_create Fixture.builtin Fixture.env "mine" "a fact"
                 Fixture.halfCreated); [vm_compute; reflexivity|vm_compute; eauto].
      * exact (App.step_reload Fixture.builtin Fixture.env Fixture.createdAgain).
    + vm_compute. reflexivity.
    + unfold distinctNames. apply (bool_decide_eq_false_1 _).
      vm_compute. reflexivity.
Qed.

Lemma afterCreation_reachable : App.sessionReachable Fixture.builtin Fixture.afterCreation.
Proof.
  apply (App.reach_next Fixture.builtin Fixture.shown Fixture.afterCreation
           shown_reachable).
  apply (App.step_create Fixture.builtin Fixture.env " Mine " "a fact" Fixture.shown);
    [vm_compute; reflexivity|vm_compute; eauto].
Qed.

Lemma taken_names_are_refused_witness :
  App.saveBankClicked Fixture.env "MINE" "another fact" Fixture.afterCreation
  = (App.ShowsError "This name is already taken. Please choose another.",
     Fixture.afterCreation)
  /\ distinctNames
       (App.availableBanks
          (App.saveBankClicked Fixture.env "Other" "another fact"
             Fixture.afterCreation).2).
Proof.
  pose proof taken_names_are_refused as (_ & Htaken & Hcreate & _).
  split.
  - apply (Htaken Fixture.env "MINE" "another fact" Fixture.afterCreation "Mine").
    + vm_compute. discriminate.
    + apply list_elem_of_In. vm_compute. do 4 right. left. reflexivity.
    + vm_compute. reflexivity.
  - apply Hcreate. unfold distinctNames. apply (bool_decide_unpack _).
    vm_compute. reflexivity.
Defined.

(** * Further properties of the code *)

(** ** The neighbour graph: what every neighbour list satisfies *)

Lemma indexOfFrom_first (row : list Q) (m : Q) (k i : nat) (y : Q) :
  row !! i = Some y -> (y == m)%Q ->
  exists j s,
    MemoryVisualizer.indexOfFrom row m k = Z.of_nat (k + j)
    /\ j <= i /\ row !! j = Some s /\ (s == m)%Q
    /\ forall i' t, i' < j -> row !! i' = Some t -> ~ (t == m)%Q.
Proof.
  revert k i. induction row as [|x xs IH]; intros k i Hi Hy; [discriminate|].
  cbn [MemoryVisualizer.indexOfFrom]. destruct (Qeq_bool x m) eqn:E.
  - apply Qeq_bool_iff in E. exists 0, x. rewrite Nat.add_0_r.
    split; [reflexivity|]. split; [lia|]. split; [reflexivity|].
    split; [exact E|]. intros i' t Hlt. lia.
  - destruct i as [|i].
    + simpl in Hi. injection Hi as ->. apply Qeq_bool_iff in Hy. congruence.
    + destruct (IH (S k) i Hi Hy) as (j & s & Hix & Hle & Hj & Hs & Hmin).
      exists (S j), s. rewrite Hix. split; [f_equal; lia|].
      split; [lia|]. split; [exact Hj|]. split; [exact Hs|].
      intros [|i'] t Hlt Ht.
      * simpl in Ht. injection Ht as <-. intros Hx.
        apply Qeq_bool_iff in Hx. congruence.
      * apply (Hmin i' t); [lia|exact Ht].
Qed.

Lemma agrees_refl (row : list Q) : agrees row row.
Proof. split; [reflexivity|]. intros i y Hi. right. exact Hi. Qed.

Lemma agrees_assign (row sims : list Q) (j : nat) :
  agrees row sims ->
  agrees row (MemoryVisualizer.assignAt sims (Z.of_nat j) (-1)%Q).
Proof.
  intros [Hlen Hall]. unfold MemoryVisualizer.assignAt.
  assert ((0 <=? Z.of_nat j)%Z = true) as -> by (apply Z.leb_le; lia).
  rewrite Nat2Z.id. split; [rewrite length_insert; exact Hlen|].
  intros i y Hi. destruct (decide (i = j)) as [->|Hne].
  - destruct (decide (j < length sims)) as [Hlt|Hge].
    + rewrite list_lookup_insert_eq in Hi by exact Hlt. left. congruence.
    + rewrite list_insert_ge in Hi by lia. apply Hall. exact Hi.
  - rewrite list_lookup_insert_ne in Hi by congruence. apply Hall. exact Hi.
Qed.

(** One iteration that selects: the index it appends is the first position
    of the working copy's maximum in the row. *)
Lemma selected_index (row sims : list Q) (s0 : Q) (rest : list Q) :
  agrees row (s0 :: rest) ->
  Qle_bool (MemoryVisualizer.Math_max s0 rest) (1 # 10) = false ->
  exists j s,
    MemoryVisualizer.indexOf row (MemoryVisualizer.Math_max s0 rest) = Z.of_nat j
    /\ row !! j = Some s
    /\ (s == MemoryVisualizer.Math_max s0 rest)%Q
    /\ (1 # 10 < s)%Q
    /\ forall i' t, i' < j -> row !! i' = Some t ->
                    ~ (t == MemoryVisualizer.Math_max s0 rest)%Q.
Proof.
  intros [_ Hall] Hle. apply Qle_bool_false in Hle.
  destruct (Math_max_fold_attained rest s0) as (i & y & Hi & Hy).
  fold (MemoryVisualizer.Math_max s0 rest) in Hy.
  destruct (Hall i y Hi) as [->|Hr].
  { exfalso. rewrite <- Hy in Hle. apply (Qlt_not_le _ _ Hle). discriminate. }
  destruct (indexOfFrom_first row _ 0 i y Hr Hy) as (j & s & Hix & _ & Hj & Hs & Hmin).
  exists j, s. unfold MemoryVisualizer.indexOf. rewrite Hix.
  repeat split; try assumption. rewrite Hs. exact Hle.
Qed.

Lemma selectLoop_edges (row : list Q) (n : nat) (sims : list Q) (conns : list Z) :
  agrees row sims ->
  exists added,
    MemoryVisualizer.selectLoop row n sims conns = conns ++ added
    /\ length added <= n /\ Forall (edgeOf row) added.
Proof.
  revert sims conns. induction n as [|n IH]; intros sims conns Hag.
  - exists []. simpl. rewrite app_nil_r. repeat split; [lia|constructor].
  - destruct sims as [|s0 rest].
    { exists []. simpl. rewrite app_nil_r. repeat split; [lia|constructor]. }
    destruct (Qle_bool (MemoryVisualizer.Math_max s0 rest) (1 # 10)) eqn:Hle.
    + exists []. rewrite selectLoop_stop by exact Hle. rewrite app_nil_r.
      repeat split; [simpl; lia|constructor].
    + rewrite selectLoop_select by exact Hle.
      destruct (selected_index row (s0 :: rest) s0 rest Hag Hle)
        as (j & s & Hix & Hj & _ & Habove & _).
      rewrite Hix.
      destruct (IH (MemoryVisualizer.assignAt (s0 :: rest) (Z.of_nat j) (-1)%Q)
                  (conns ++ [Z.of_nat j]) (agrees_assign _ _ j Hag))
        as (added & Hrun & Hlen & Hall).
      exists (Z.of_nat j :: added). rewrite Hrun, <- app_assoc.
      split; [reflexivity|]. split; [simpl; lia|].
      constructor; [exists j, s; auto|exact Hall].
Qed.

Lemma connectionsOf_edges (row : list Q) :
  length (MemoryVisualizer.connectionsOf row) <= 3
  /\ Forall (edgeOf row) (MemoryVisualizer.connectionsOf row).
Proof.
  unfold MemoryVisualizer.connectionsOf, MemoryVisualizer.MAX_CONNECTIONS.
  destruct (selectLoop_edges row 3 row [] (agrees_refl row))
    as (added & -> & Hlen & Hall).
  simpl. split; assumption.
Qed.

Lemma similarityRow_lookup {vec : Type} (cosineSimilarity : vec -> vec -> Q)
    (embeddings : list vec) (i : nat) (ei : vec) (j : nat) :
  MemoryVisualizer.similarityRow cosineSimilarity embeddings i ei !! j
  = (fun ej => if Nat.eqb i j then 0%Q else cosineSimilarity ei ej)
      <$> embeddings !! j.
Proof. unfold MemoryVisualizer.similarityRow. apply list_lookup_imap. Qed.

Lemma similarityMatrix_lookup {vec : Type} (cosineSimilarity : vec -> vec -> Q)
    (embeddings : list vec) (i : nat) :
  MemoryVisualizer.similarityMatrix cosineSimilarity embeddings !! i
  = MemoryVisualizer.similarityRow cosineSimilarity embeddings i
      <$> embeddings !! i.
Proof. unfold MemoryVisualizer.similarityMatrix. apply list_lookup_imap. Qed.

(** X1. When the effect rebuilds the nodes there is one node per memory
    item, numbered by position and carrying the item's text and embedding;
    a node has at most three connections, and each of them leads to another
    node, never to the node itself, whose similarity to it exceeds 0.1. *)
Theorem buildNodes_edges_are_sound {vec : Type}
    (cosineSimilarity : vec -> vec -> Q) (isLoaded : bool)
    (memoryItems : list string) (embeddings : list vec)
    (nodes : list (MemoryVisualizer.MemoryNode (vec := vec))) :
  MemoryVisualizer.buildNodes cosineSimilarity isLoaded memoryItems embeddings
  = Some nodes ->
  length nodes = length memoryItems
  /\ forall i node,
       nodes !! i = Some node ->
       MemoryVisualizer.node_id node = i
       /\ memoryItems !! i = Some (MemoryVisualizer.node_text node)
       /\ MemoryVisualizer.node_embedding node = embeddings !! i
       /\ length (MemoryVisualizer.connections node) <= 3
       /\ forall c, c ∈ MemoryVisualizer.connections node ->
            exists j ei ej,
              c = Z.of_nat j /\ j <> i
              /\ embeddings !! i = Some ei /\ embeddings !! j = Some ej
              /\ (1 # 10 < cosineSimilarity ei ej)%Q.
Proof.
  unfold MemoryVisualizer.buildNodes.
  destruct (negb isLoaded || Nat.eqb (length memoryItems) 0
            || negb (Nat.eqb (length embeddings) (length memoryItems))) eqn:G;
    [discriminate|].
  apply orb_false_iff in G as [_ G]. apply negb_false_iff, Nat.eqb_eq in G.
  intros [= <-]. split; [apply length_imap|].
  intros i node Hi. rewrite list_lookup_imap in Hi.
  destruct (memoryItems !! i) as [text|] eqn:Ht; [|discriminate].
  simpl in Hi. injection Hi as <-. simpl.
  split; [reflexivity|]. split; [reflexivity|]. split; [reflexivity|].
  destruct (lookup_lt_is_Some_2 embeddings i) as [ei Hei].
  { rewrite G. eapply lookup_lt_Some. exact Ht. }
  rewrite similarityMatrix_lookup, Hei. simpl.
  destruct (connectionsOf_edges
              (MemoryVisualizer.similarityRow cosineSimilarity embeddings i ei))
    as [Hlen Hall].
  split; [exact Hlen|]. intros c Hc.
  rewrite Forall_forall in Hall. destruct (Hall c Hc) as (j & s & -> & Hj & Hs).
  rewrite similarityRow_lookup in Hj.
  destruct (embeddings !! j) as [ej|] eqn:Hej; [|discriminate].
  simpl in Hj. injection Hj as <-.
  destruct (Nat.eqb i j) eqn:E.
  - exfalso. apply (Qlt_not_le _ _ Hs). discriminate.
  - apply Nat.eqb_neq in E. exists j, ei, ej. repeat split; auto.
Qed.

Lemma buildNodes_edges_are_sound_witness :
  length (MemoryVisualizer.connections
            (MemoryVisualizer.mkNode 0 "a" [1%Z; 1%Z; 1%Z] (Some [3 # 5; 4 # 5]%Q)))
  <= 3.
Proof.
  exact (proj1 (proj2 (proj2 (proj2 (proj2
    (buildNodes_edges_are_sound Fixture.unitDot true ["a"; "b"; "b"]
       [[3 # 5; 4 # 5]; [1; 0]; [1; 0]]%Q
       [MemoryVisualizer.mkNode 0 "a" [1%Z; 1%Z; 1%Z] (Some [3 # 5; 4 # 5]%Q);
        MemoryVisualizer.mkNode 1 "b" [2%Z; 0%Z] (Some [1; 0]%Q);
        MemoryVisualizer.mkNode 2 "b" [1%Z; 0%Z] (Some [1; 0]%Q)]
       eq_refl) 0
       (MemoryVisualizer.mkNode 0 "a" [1%Z; 1%Z; 1%Z] (Some [3 # 5; 4 # 5]%Q))
       eq_refl))))).
Defined.

(** X2. A node has no connection exactly when no entry of its similarity
    row exceeds 0.1.  Otherwise its first connection is the first position
    of the row's maximum: no entry is larger, and every earlier entry is
    strictly smaller. *)
Theorem connectionsOf_first_is_maximum (row : list Q) :
  (MemoryVisualizer.connectionsOf row = []
   <-> forall s, s ∈ row -> (s <= 1 # 10)%Q)
  /\ forall c rest,
       MemoryVisualizer.connectionsOf row = c :: rest ->
       exists j s,
         c = Z.of_nat j /\ row !! j = Some s
         /\ (forall t, t ∈ row -> (t <= s)%Q)
         /\ forall i t, i < j -> row !! i = Some t -> (t < s)%Q.
Proof.
  unfold MemoryVisualizer.connectionsOf, MemoryVisualizer.MAX_CONNECTIONS.
  destruct row as [|s0 rest0].
  { simpl. split; [|discriminate]. split; [|reflexivity].
    intros _ s Hs. apply elem_of_nil in Hs. contradiction. }
  assert (forall t, t ∈ s0 :: rest0 ->
            (t <= MemoryVisualizer.Math_max s0 rest0)%Q) as Hupper.
  { intros t Ht. apply list_elem_of_lookup in Ht as [i Hi].
    eapply Math_max_upper. exact Hi. }
  destruct (Qle_bool (MemoryVisualizer.Math_max s0 rest0) (1 # 10)) eqn:Hle.
  - rewrite selectLoop_stop by exact Hle. apply Qle_bool_iff in Hle.
    split; [|discriminate]. split; [|reflexivity].
    intros _ s Hs. eapply Qle_trans; [apply Hupper; exact Hs|exact Hle].
  - rewrite selectLoop_select by exact Hle.
    destruct (selected_index (s0 :: rest0) (s0 :: rest0) s0 rest0
                (agrees_refl _) Hle) as (j & s & Hix & Hj & Hs & Habove & Hmin).
    rewrite Hix.
    destruct (selectLoop_edges (s0 :: rest0) 2
                (MemoryVisualizer.assignAt (s0 :: rest0) (Z.of_nat j) (-1)%Q)
                ([] ++ [Z.of_nat j]) (agrees_assign _ _ j (agrees_refl _)))
      as (added & -> & _ & _).
    simpl. split.
    + split; [discriminate|]. intros Hall. exfalso.
      apply (Qlt_not_le _ _ Habove). apply Hall.
      eapply list_elem_of_lookup_2. exact Hj.
    + intros c rest [= <- <-]. exists j, s.
      split; [reflexivity|]. split; [exact Hj|]. split.
      * intros t Ht. rewrite Hs. apply Hupper. exact Ht.
      * intros i t Hlt Hi.
        assert (t <= s)%Q as Hts.
        { rewrite Hs. apply Hupper. eapply list_elem_of_lookup_2. exact Hi. }
        apply Qle_lteq in Hts as [Hlt'|Heq]; [exact Hlt'|].
        exfalso. apply (Hmin i t Hlt Hi). rewrite Heq. exact Hs.
Qed.

(** X3. The similarity matrix of [n] embeddings has [n] rows of [n]
    entries and a zero diagonal, and it is symmetric whenever the
    similarity function is. *)
Theorem similarityMatrix_shape {vec : Type} (cosineSimilarity : vec -> vec -> Q)
    (embeddings : list vec) :
  (forall a b, (cosineSimilarity a b == cosineSimilarity b a)%Q) ->
  let matrix := MemoryVisualizer.similarityMatrix cosineSimilarity embeddings in
  length matrix = length embeddings
  /\ (forall i row, matrix !! i = Some row ->
        length row = length embeddings /\ row !! i = Some 0%Q)
  /\ forall i j row x,
       matrix !! i = Some row -> row !! j = Some x ->
       exists row' y, matrix !! j = Some row' /\ row' !! i = Some y /\ (x == y)%Q.
Proof.
  intros Hsym matrix. subst matrix. split; [|split].
  - unfold MemoryVisualizer.similarityMatrix. apply length_imap.
  - intros i row Hi. rewrite similarityMatrix_lookup in Hi.
    destruct (embeddings !! i) as [ei|] eqn:Hei; [|discriminate].
    simpl in Hi. injection Hi as <-. split.
    + unfold MemoryVisualizer.similarityRow. apply length_imap.
    + rewrite similarityRow_lookup, Hei. simpl. rewrite Nat.eqb_refl. reflexivity.
  - intros i j row x Hi Hj. rewrite similarityMatrix_lookup in Hi.
    destruct (embeddings !! i) as [ei|] eqn:Hei; [|discriminate].
    simpl in Hi. injection Hi as <-. rewrite similarityRow_lookup in Hj.
    destruct (embeddings !! j) as [ej|] eqn:Hej; [|discriminate].
    simpl in Hj. injection Hj as <-.
    exists (MemoryVisualizer.similarityRow cosineSimilarity embeddings j ej).
    eexists. split; [rewrite similarityMatrix_lookup, Hej; reflexivity|].
    split; [rewrite similarityRow_lookup, Hei; reflexivity|]. simpl.
    rewrite (Nat.eqb_sym j i). destruct (Nat.eqb i j); [reflexivity|apply Hsym].
Qed.

Lemma unitDot_sym (a b : list Q) : (Fixture.unitDot a b == Fixture.unitDot b a)%Q.
Proof.
  unfold Fixture.unitDot. revert b. induction a as [|x a IH]; intros [|y b];
    try reflexivity.
  simpl. rewrite IH. ring.
Qed.

Lemma similarityMatrix_shape_witness :
  length (MemoryVisualizer.similarityMatrix Fixture.unitDot
            [[3 # 5; 4 # 5]; [1; 0]; [1; 0]]%Q) = 3.
Proof.
  exact (proj1 (similarityMatrix_shape Fixture.unitDot
                  [[3 # 5; 4 # 5]; [1; 0]; [1; 0]]%Q unitDot_sym)).
Defined.

(** ** The tooltip and the scores of the nodes *)

Lemma descending_app (l1 l2 : list App.SearchResult) :
  descending (l1 ++ l2) ->
  descending l1
  /\ forall r x, r ∈ l1 -> x ∈ l2 -> (App.score x <= App.score r)%Q.
Proof.
  unfold descending. induction l1 as [|a l1 IH]; simpl; intros Hs.
  - split; [constructor|]. intros r x Hr. apply elem_of_nil in Hr. contradiction.
  - apply StronglySorted_inv in Hs as [Hs Hall].
    destruct (IH Hs) as [Hl1 Hcross]. split.
    + constructor; [exact Hl1|].
      apply Forall_app in Hall as [Hall _]. exact Hall.
    + intros r x Hr Hx. apply elem_of_cons in Hr as [->|Hr].
      * rewrite Forall_forall in Hall. apply Hall.
        apply elem_of_app. right. exact Hx.
      * apply Hcross; assumption.
Qed.

(** X4. For nodes that all carry an embedding the tooltip lists at most
    three related entries, in descending order of similarity to the node
    under the pointer; together with the entries left out they are exactly
    the scored nodes with another id, and no entry left out scores higher
    than a listed one. *)
Theorem relatedNodes_are_the_top_three {vec : Type}
    (cosineSimilarity : vec -> vec -> Q)
    (nodes : list (MemoryVisualizer.MemoryNode (vec := vec)))
    (foundNode : MemoryVisualizer.MemoryNode (vec := vec)) (fe : vec) :
  MemoryVisualizer.node_embedding foundNode = Some fe ->
  (forall n, n ∈ nodes -> is_Some (MemoryVisualizer.node_embedding n)) ->
  let others :=
    List.filter (fun n => negb (Nat.eqb (MemoryVisualizer.node_id n)
                                  (MemoryVisualizer.node_id foundNode))) nodes in
  exists related rest scoredOthers,
    Display.relatedNodes cosineSimilarity nodes foundNode = Some related
    /\ length related = Nat.min 3 (length others)
    /\ descending related
    /\ Forall2 (fun n r =>
                  App.res_text r = MemoryVisualizer.node_text n
                  /\ exists e, MemoryVisualizer.node_embedding n = Some e
                               /\ App.score r = cosineSimilarity fe e)
               others scoredOthers
    /\ Permutation (related ++ rest) scoredOthers
    /\ forall r x, r ∈ related -> x ∈ rest -> (App.score x <= App.score r)%Q.
Proof.
  intros Hfe Hall others. unfold Display.relatedNodes. fold others.
  set (f := fun n : MemoryVisualizer.MemoryNode =>
              fe' ← MemoryVisualizer.node_embedding foundNode;
              e ← MemoryVisualizer.node_embedding n;
              Some (App.mkResult (MemoryVisualizer.node_text n)
                      (cosineSimilarity fe' e))).
  assert (is_Some (mapM f others)) as [scoredOthers Hmap].
  { apply mapM_is_Some_2. apply Forall_forall. intros n Hn.
    unfold compose, f. rewrite Hfe. simpl.
    destruct (Hall n) as [e ->]; [|eexists; reflexivity].
    apply list_elem_of_In in Hn. apply filter_In in Hn as [Hn _].
    apply list_elem_of_In. exact Hn. }
  rewrite Hmap. simpl.
  set (sorted := App.Array_sort App.byScore scoredOthers).
  exists (take 3 sorted), (drop 3 sorted), scoredOthers.
  assert (descending (take 3 sorted ++ drop 3 sorted)) as Hdesc
    by (rewrite take_drop; apply Array_sort_descending).
  destruct (descending_app _ _ Hdesc) as [Htake Hcross].
  split; [reflexivity|]. split.
  { rewrite length_take. unfold sorted.
    rewrite (Permutation_length (Array_sort_Permutation scoredOthers)).
    rewrite <- (length_mapM _ _ _ Hmap). reflexivity. }
  split; [exact Htake|]. split.
  { apply mapM_Some in Hmap. eapply Forall2_impl; [exact Hmap|].
    intros n r Hr. unfold f in Hr. rewrite Hfe in Hr. simpl in Hr.
    destruct (MemoryVisualizer.node_embedding n) as [e|]; [|discriminate].
    simpl in Hr. injection Hr as <-. simpl. split; [reflexivity|].
    exists e. split; reflexivity. }
  split; [rewrite take_drop; apply Array_sort_Permutation|exact Hcross].
Qed.

Lemma find_descending_is_best (p : App.SearchResult -> bool)
    (l : list App.SearchResult) (r : App.SearchResult) :
  descending l -> List.find p l = Some r ->
  forall x, x ∈ l -> p x = true -> (App.score x <= App.score r)%Q.
Proof.
  unfold descending. induction l as [|a l IH]; [discriminate|].
  intros Hs Hfind x Hx Hpx. simpl in Hfind.
  apply StronglySorted_inv in Hs as [Hs Hall].
  destruct (p a) eqn:Hpa.
  - injection Hfind as <-. apply elem_of_cons in Hx as [->|Hx]; [apply Qle_refl|].
    rewrite Forall_forall in Hall. apply Hall. exact Hx.
  - apply elem_of_cons in Hx as [->|Hx]; [congruence|].
    apply IH; assumption.
Qed.

(** X5. The effect on the search results keeps the nodes and their order
    and only sets their scores.  With results in descending order, as
    [handleSearch] delivers them, a node has no score exactly when no
    result carries its text, and otherwise its score is the best score
    among the results that carry its text. *)
Theorem updateScores_shows_best_score {vec : Type}
    (searchResults : list App.SearchResult)
    (prevNodes : list (Display.ScoredNode (vec := vec))) :
  descending searchResults ->
  let nodes' := Display.updateScores searchResults prevNodes in
  Display.node <$> nodes' = Display.node <$> prevNodes
  /\ forall n, n ∈ nodes' ->
       let text := MemoryVisualizer.node_text (Display.node n) in
       match Display.nodeScore n with
       | None => forall r, r ∈ searchResults -> App.res_text r <> text
       | Some s =>
           (exists r, r ∈ searchResults /\ App.res_text r = text /\ App.score r = s)
           /\ forall r, r ∈ searchResults -> App.res_text r = text ->
                        (App.score r <= s)%Q
       end.
Proof.
  intros Hdesc nodes'. subst nodes'. unfold Display.updateScores.
  destruct searchResults as [|r0 rs] eqn:Hrs.
  - simpl. split.
    + rewrite <- list_fmap_compose. reflexivity.
    + intros n Hn. apply list_elem_of_fmap in Hn as (m & -> & _). simpl.
      intros r Hr. apply elem_of_nil in Hr. contradiction.
  - rewrite <- Hrs in *. assert (Nat.eqb (length searchResults) 0 = false) as ->
      by (rewrite Hrs; reflexivity).
    split.
    + rewrite <- list_fmap_compose. reflexivity.
    + intros n Hn. apply list_elem_of_fmap in Hn as (m & -> & _). simpl.
      destruct (List.find _ searchResults) as [r|] eqn:Hfind; simpl.
      * pose proof (find_some _ _ Hfind) as [Hin Hp].
        apply String.eqb_eq in Hp. split.
        -- exists r. split; [apply list_elem_of_In; exact Hin|]. auto.
        -- intros x Hx Htext.
           eapply find_descending_is_best; [exact Hdesc|exact Hfind|exact Hx|].
           apply String.eqb_eq. exact Htext.
      * intros r Hr Htext. apply list_elem_of_In in Hr.
        pose proof (find_none _ _ Hfind r Hr) as Hp. simpl in Hp.
        apply String.eqb_neq in Hp. contradiction.
Qed.

(** X6. What the canvas shows is consistent with the relevance tiers:
    while results are shown, a line between two nodes that are both filled
    as high or medium relevance is bright, and a node that pulses is filled
    as high relevance. *)
Theorem drawing_agrees_with_tiers (resultCount : nat) (a b : option Q) :
  0 < resultCount ->
  (Display.fillStyle Relevance.getRelevance resultCount a <> Display.Gray ->
   Display.fillStyle Relevance.getRelevance resultCount a <> Display.Base ->
   Display.fillStyle Relevance.getRelevance resultCount b <> Display.Gray ->
   Display.fillStyle Relevance.getRelevance resultCount b <> Display.Base ->
   Display.strokeStyle resultCount a b = Display.Bright)
  /\ (Display.pulses a = true ->
      Display.fillStyle Relevance.getRelevance resultCount a = Display.Gold).
Proof.
  intros Hpos. apply Nat.ltb_lt in Hpos.
  assert (forall s : option Q,
            Display.fillStyle Relevance.getRelevance resultCount s <> Display.Gray ->
            Display.fillStyle Relevance.getRelevance resultCount s <> Display.Base ->
            Display.nodeRelevant s = true) as Hrel.
  { intros [s|]; unfold Display.fillStyle; rewrite ?Hpos; [|congruence].
    intros Hgray _. unfold Display.nodeRelevant. apply gt_Num_spec.
    unfold Relevance.getRelevance in Hgray.
    destruct (Js.gt (Js.Num s) (Js.Num (49 # 100))) eqn:Hhi.
    - apply gt_Num_spec in Hhi. eapply Qlt_trans; [|exact Hhi]. reflexivity.
    - destruct (Js.gt (Js.Num s) (Js.Num (38 # 100))) eqn:Hmid; [|congruence].
      apply gt_Num_spec in Hmid. eapply Qlt_trans; [|exact Hmid]. reflexivity. }
  split.
  - intros Ha1 Ha2 Hb1 Hb2. unfold Display.strokeStyle.
    rewrite Hpos, (Hrel a Ha1 Ha2), (Hrel b Hb1 Hb2). reflexivity.
  - destruct a as [s|]; [|discriminate]. unfold Display.pulses, Display.fillStyle.
    rewrite Hpos. intros Hp. apply andb_true_iff in Hp as [_ Hp].
    apply gt_Num_spec in Hp. unfold Relevance.getRelevance.
    rewrite (proj2 (gt_Num_spec s (49 # 100))); [reflexivity|].
    eapply Qlt_trans; [|exact Hp]. reflexivity.
Qed.

Lemma relatedNodes_are_the_top_three_witness :
  exists related,
    Display.relatedNodes Fixture.unitDot
      [MemoryVisualizer.mkNode 0 "a" [] (Some [1; 0]%Q);
       MemoryVisualizer.mkNode 1 "b" [] (Some [3 # 5; 4 # 5]%Q);
       MemoryVisualizer.mkNode 2 "c" [] (Some [0; 1]%Q);
       MemoryVisualizer.mkNode 3 "d" [] (Some [4 # 5; 3 # 5]%Q);
       MemoryVisualizer.mkNode 4 "e" [] (Some [1; 0]%Q)]
      (MemoryVisualizer.mkNode 0 "a" [] (Some [1; 0]%Q)) = Some related
    /\ length related = 3.
Proof.
  destruct (relatedNodes_are_the_top_three Fixture.unitDot
              [MemoryVisualizer.mkNode 0 "a" [] (Some [1; 0]%Q);
               MemoryVisualizer.mkNode 1 "b" [] (Some [3 # 5; 4 # 5]%Q);
               MemoryVisualizer.mkNode 2 "c" [] (Some [0; 1]%Q);
               MemoryVisualizer.mkNode 3 "d" [] (Some [4 # 5; 3 # 5]%Q);
               MemoryVisualizer.mkNode 4 "e" [] (Some [1; 0]%Q)]
              (MemoryVisualizer.mkNode 0 "a" [] (Some [1; 0]%Q)) [1; 0]%Q eq_refl)
    as (related & rest & scoredOthers & Hrun & Hlen & _).
  - intros n Hn. apply list_elem_of_In in Hn. simpl in Hn.
    destruct Hn as [<-|[<-|[<-|[<-|[<-|[]]]]]]; eexists; reflexivity.
  - exists related. split; [exact Hrun|exact Hlen].
Defined.

Lemma updateScores_shows_best_score_witness :
  Display.node <$>
    Display.updateScores
      [App.mkResult "b" (9 # 10); App.mkResult "a" (1 # 2); App.mkResult "b" (1 # 5)]
      [Display.mkScored (MemoryVisualizer.mkNode 0 "a" [] (Some tt)) None;
       Display.mkScored (MemoryVisualizer.mkNode 1 "b" [] (Some tt)) (Some (1 # 3))]
  = [MemoryVisualizer.mkNode 0 "a" [] (Some tt);
     MemoryVisualizer.mkNode 1 "b" [] (Some tt)].
Proof.
  refine (proj1 (updateScores_shows_best_score
                   [App.mkResult "b" (9 # 10); App.mkResult "a" (1 # 2);
                    App.mkResult "b" (1 # 5)]
                   [Display.mkScored (MemoryVisualizer.mkNode 0 "a" [] (Some tt)) None;
                    Display.mkScored (MemoryVisualizer.mkNode 1 "b" [] (Some tt))
                      (Some (1 # 3))] _)).
  unfold descending. repeat constructor; simpl; discriminate.
Defined.

Lemma drawing_agrees_with_tiers_witness :
  Display.fillStyle Relevance.getRelevance 4 (Some (4 # 5)) = Display.Gold.
Proof.
  refine (proj2 (drawing_agrees_with_tiers 4 (Some (4 # 5)) None _) _).
  - lia.
  - reflexivity.
Defined.

(** ** The record store: keys, deletion and the two object stores *)

Lemma keysInv_filter (p : IndexedDB.MemoryRecord -> bool) (db : IndexedDB.Database) :
  keysInv db ->
  keysInv (IndexedDB.mkDb (List.filter p (IndexedDB.memories db))
             (IndexedDB.nextId db) (IndexedDB.custom_banks db)).
Proof.
  unfold keysInv. simpl. generalize (IndexedDB.nextId db) as n.
  induction (IndexedDB.memories db) as [|r l IH]; intros n [Hs Hb]; simpl.
  - split; constructor.
  - simpl in Hs, Hb. apply StronglySorted_inv in Hs as [Hs Hall].
    apply Forall_cons in Hb as [Hr Hb].
    destruct (IH n (conj Hs Hb)) as [Hs' Hb'].
    destruct (p r); simpl; [|split; assumption].
    split; [|constructor; assumption].
    constructor; [exact Hs'|].
    rewrite Forall_forall in Hall |- *. intros k Hk. apply Hall.
    apply list_elem_of_fmap in Hk as (x & -> & Hx).
    apply list_elem_of_fmap. exists x. split; [reflexivity|].
    apply list_elem_of_In in Hx. apply filter_In in Hx as [Hx _].
    apply list_elem_of_In. exact Hx.
Qed.

Lemma increasing_snoc (l : list nat) (n : nat) :
  StronglySorted lt l -> Forall (fun k => k < n) l -> StronglySorted lt (l ++ [n]).
Proof.
  induction l as [|a l IH]; simpl; intros Hs Hb.
  - repeat constructor.
  - apply StronglySorted_inv in Hs as [Hs Hall].
    apply Forall_cons in Hb as [Ha Hb].
    constructor; [apply IH; assumption|].
    apply Forall_app. split; [exact Hall|]. repeat constructor. exact Ha.
Qed.

Lemma keysInv_add (r : IndexedDB.NewRecord) (db : IndexedDB.Database) :
  keysInv db -> keysInv (IndexedDB.addRecord r db).2.
Proof.
  unfold keysInv. simpl. intros [Hs Hb]. rewrite fmap_app. simpl. split.
  - apply increasing_snoc; assumption.
  - apply Forall_app. split; [|repeat constructor].
    eapply Forall_impl; [exact Hb|]. intros k Hk. simpl in Hk. lia.
Qed.

Lemma keysInv_perform (q : Records.request) (db : IndexedDB.Database) :
  keysInv db ->
  keysInv (Records.perform q db)
  /\ IndexedDB.nextId db <= IndexedDB.nextId (Records.perform q db).
Proof.
  intros H. destruct q as [r|k|b| |bk|n]; simpl.
  - split; [apply keysInv_add; exact H|lia].
  - split; [apply keysInv_filter; exact H|lia].
  - split; [apply keysInv_filter; exact H|lia].
  - split; [|lia]. split; constructor.
  - split; [exact H|lia].
  - split; [exact H|lia].
Qed.

Lemma keysInv_performAll (qs : list Records.request) (db : IndexedDB.Database) :
  keysInv db ->
  keysInv (Records.performAll qs db)
  /\ IndexedDB.nextId db <= IndexedDB.nextId (Records.performAll qs db).
Proof.
  unfold Records.performAll. revert db. induction qs as [|q qs IH]; intros db H; simpl.
  - split; [exact H|lia].
  - destruct (keysInv_perform q db H) as [H1 H2].
    destruct (IH _ H1) as [H3 H4]. split; [exact H3|lia].
Qed.

Lemma getRecord_None (k : nat) (db : IndexedDB.Database) :
  Records.getRecord k db = None
  <-> k ∉ IndexedDB.id <$> IndexedDB.memories db.
Proof.
  unfold Records.getRecord. split.
  - intros Hfind Hin. apply list_elem_of_fmap in Hin as (r & -> & Hr).
    apply list_elem_of_In in Hr.
    pose proof (find_none _ _ Hfind r Hr) as Hp. simpl in Hp.
    rewrite Nat.eqb_refl in Hp. discriminate.
  - intros Hnot. destruct (List.find _ _) as [r|] eqn:Hfind; [|reflexivity].
    apply find_some in Hfind as [Hin Hp]. apply Nat.eqb_eq in Hp.
    exfalso. apply Hnot. apply list_elem_of_fmap. exists r.
    split; [symmetry; exact Hp|apply list_elem_of_In; exact Hin].
Qed.

Lemma getRecord_snoc (k : nat) (l : list IndexedDB.MemoryRecord)
    (r : IndexedDB.MemoryRecord) (n : nat) (m : gmap string (list string)) (n' : nat) :
  Records.getRecord k (IndexedDB.mkDb l n m) = None ->
  IndexedDB.id r = k ->
  Records.getRecord k (IndexedDB.mkDb (l ++ [r]) n' m) = Some r.
Proof.
  unfold Records.getRecord. simpl. intros Hnone Hid.
  induction l as [|x l IH]; simpl in *.
  - rewrite Hid, Nat.eqb_refl. reflexivity.
  - destruct (Nat.eqb (IndexedDB.id x) k); [discriminate|]. apply IH. exact Hnone.
Qed.

(** X7. Whatever requests an open database has served, the keys of its
    records are pairwise distinct and in increasing order, and the next
    record added gets a key that no record holds and that is not below any
    key handed out before; the record is then found under that key.  Keys
    of deleted records are never used again. *)
Theorem keys_are_never_reused (qs : list Records.request)
    (db : IndexedDB.Database) (r : IndexedDB.NewRecord) :
  keysInv db ->
  let db' := Records.performAll qs db in
  let k := (IndexedDB.addRecord r db').1 in
  keysInv db'
  /\ IndexedDB.nextId db <= k
  /\ Records.getRecord k db' = None
  /\ Records.getRecord k (IndexedDB.addRecord r db').2
     = Some (IndexedDB.mkRecord k (IndexedDB.new_text r)
               (IndexedDB.new_embedding r) (IndexedDB.new_bank r))
  /\ forall k' rec, Records.getRecord k' db' = Some rec ->
       k' < k /\ Records.getRecord k' (IndexedDB.addRecord r db').2 = Some rec.
Proof.
  intros Hinv db' k. destruct (keysInv_performAll qs db Hinv) as [Hinv' Hle].
  fold db' in Hinv', Hle. subst k. simpl.
  assert (Records.getRecord (IndexedDB.nextId db') db' = None) as Hfresh.
  { apply getRecord_None. intros Hin. destruct Hinv' as [_ Hb].
    rewrite Forall_forall in Hb. specialize (Hb _ Hin). lia. }
  split; [exact Hinv'|]. split; [exact Hle|]. split; [exact Hfresh|]. split.
  - destruct db' as [l n m]. simpl in *. eapply getRecord_snoc; [exact Hfresh|reflexivity].
  - intros k' rec Hget. unfold Records.getRecord in Hget |- *. simpl.
    pose proof (find_some _ _ Hget) as [Hin Hp]. apply Nat.eqb_eq in Hp.
    split.
    + destruct Hinv' as [_ Hb]. rewrite Forall_forall in Hb. apply Hb.
      apply list_elem_of_fmap. exists rec.
      split; [symmetry; exact Hp|apply list_elem_of_In; exact Hin].
    + clear -Hget. induction (IndexedDB.memories db') as [|x l IH]; [discriminate|].
      simpl in *. destruct (Nat.eqb (IndexedDB.id x) k'); [exact Hget|].
      apply IH. exact Hget.
Qed.

Lemma keysInv_emptyDb : keysInv IndexedDB.emptyDb.
Proof. split; constructor. Qed.

Lemma keys_are_never_reused_witness :
  Records.getRecord 3
    (Records.performAll
       [Records.Add (IndexedDB.mkNew "General" "a" []);
        Records.Add (IndexedDB.mkNew "Science" "b" []);
        Records.ClearAll]
       IndexedDB.emptyDb) = None.
Proof.
  exact (proj1 (proj2 (proj2
           (keys_are_never_reused
              [Records.Add (IndexedDB.mkNew "General" "a" []);
               Records.Add (IndexedDB.mkNew "Science" "b" []);
               Records.ClearAll]
              IndexedDB.emptyDb (IndexedDB.mkNew "General" "c" [])
              keysInv_emptyDb)))).
Defined.

Lemma find_filter_implied {A : Type} (p q : A -> bool) (l : list A) :
  (forall x, p x = true -> q x = true) ->
  List.find p (List.filter q l) = List.find p l.
Proof.
  intros Himp. induction l as [|x l IH]; [reflexivity|]. simpl.
  destruct (p x) eqn:Hp.
  - rewrite (Himp x Hp). simpl. rewrite Hp. reflexivity.
  - destruct (q x); simpl; [rewrite Hp|]; exact IH.
Qed.

Lemma filter_all {A : Type} (q : A -> bool) (l : list A) :
  (forall x, In x l -> q x = true) -> List.filter q l = l.
Proof.
  induction l as [|x l IH]; [reflexivity|]. intros H. simpl.
  rewrite (H x (or_introl eq_refl)). f_equal. apply IH.
  intros y Hy. apply H. right. exact Hy.
Qed.

Lemma filter_idem {A : Type} (q : A -> bool) (l : list A) :
  List.filter q (List.filter q l) = List.filter q l.
Proof.
  apply filter_all. intros x Hx. apply filter_In in Hx as [_ Hx]. exact Hx.
Qed.

(** X8. Deleting a record removes exactly the record under the key: the
    key is no longer found, every other key is found as before, and the
    records of every bank keep their order.  Deleting a key that holds no
    record changes nothing, so deleting twice is deleting once. *)
Theorem deleteRecord_removes_one_key (k : nat) (db : IndexedDB.Database) :
  let db' := Records.deleteRecord k db in
  Records.getRecord k db' = None
  /\ (forall k', k' <> k -> Records.getRecord k' db' = Records.getRecord k' db)
  /\ (forall b, IndexedDB.getRecordsByBank b db'
                = List.filter (fun r => negb (Nat.eqb (IndexedDB.id r) k))
                    (IndexedDB.getRecordsByBank b db))
  /\ (Records.getRecord k db = None -> db' = db)
  /\ Records.deleteRecord k db' = db'
  /\ IndexedDB.custom_banks db' = IndexedDB.custom_banks db
  /\ IndexedDB.nextId db' = IndexedDB.nextId db.
Proof.
  intros db'. subst db'. unfold Records.deleteRecord, Records.getRecord. simpl.
  split.
  { destruct (List.find _ _) as [r|] eqn:Hfind; [|reflexivity].
    apply find_some in Hfind as [Hin Hp]. apply filter_In in Hin as [_ Hq].
    rewrite Hp in Hq. discriminate. }
  split.
  { intros k' Hne. apply find_filter_implied. intros x Hx.
    apply Nat.eqb_eq in Hx. apply negb_true_iff. apply Nat.eqb_neq. lia. }
  split.
  { intros b. unfold IndexedDB.getRecordsByBank. simpl.
    induction (IndexedDB.memories db) as [|x l IH]; [reflexivity|]. simpl.
    destruct (Nat.eqb (IndexedDB.id x) k) eqn:Hk;
      destruct (String.eqb (IndexedDB.bank x) b) eqn:Hb; simpl;
      rewrite ?Hk, ?Hb; simpl; rewrite IH; reflexivity. }
  split.
  { intros Hnone. destruct db as [l n m]. simpl in *. f_equal.
    apply filter_all. intros x Hx. pose proof (find_none _ _ Hnone x Hx) as Hp.
    simpl in Hp. rewrite Hp. reflexivity. }
  split; [|split; reflexivity].
  rewrite filter_idem. reflexivity.
Qed.

Lemma find_unique_key (k : nat) (l : list IndexedDB.MemoryRecord)
    (r : IndexedDB.MemoryRecord) :
  StronglySorted lt (IndexedDB.id <$> l) ->
  In r l -> IndexedDB.id r = k ->
  List.find (fun x => Nat.eqb (IndexedDB.id x) k) l = Some r.
Proof.
  induction l as [|x l IH]; [intros _ []|]. simpl. intros Hs Hin Hid.
  apply StronglySorted_inv in Hs as [Hs Hall].
  destruct Hin as [->|Hin].
  - rewrite Hid, Nat.eqb_refl. reflexivity.
  - destruct (Nat.eqb (IndexedDB.id x) k) eqn:Hk; [|apply IH; assumption].
    apply Nat.eqb_eq in Hk. exfalso. rewrite Forall_forall in Hall.
    assert (IndexedDB.id x < IndexedDB.id r) as Hlt.
    { apply Hall. apply list_elem_of_fmap. exists r.
      split; [reflexivity|apply list_elem_of_In; exact Hin]. }
    lia.
Qed.

(** X9. Emptying a bank leaves no record of that bank and changes nothing
    else: the other banks read as before, the custom banks and the key
    generator are untouched, and a second call changes nothing.  With
    distinct keys, a key is found afterwards exactly when it held a record
    of another bank before. *)
Theorem clearRecordsByBank_empties_one_bank (b : string) (db : IndexedDB.Database) :
  keysInv db ->
  let db' := IndexedDB.clearRecordsByBank b db in
  IndexedDB.getRecordsByBank b db' = []
  /\ (forall b', b' <> b ->
        IndexedDB.getRecordsByBank b' db' = IndexedDB.getRecordsByBank b' db)
  /\ (forall k, Records.getRecord k db'
                = match Records.getRecord k db with
                  | Some r => if String.eqb (IndexedDB.bank r) b then None else Some r
                  | None => None
                  end)
  /\ IndexedDB.clearRecordsByBank b db' = db'
  /\ IndexedDB.custom_banks db' = IndexedDB.custom_banks db
  /\ IndexedDB.nextId db' = IndexedDB.nextId db
  /\ keysInv db'.
Proof.
  intros Hinv db'. subst db'.
  unfold IndexedDB.clearRecordsByBank, IndexedDB.getRecordsByBank, Records.getRecord.
  simpl. split.
  { induction (IndexedDB.memories db) as [|x l IH]; [reflexivity|]. simpl.
    destruct (String.eqb (IndexedDB.bank x) b) eqn:Hb; simpl; [exact IH|].
    rewrite Hb. exact IH. }
  split.
  { intros b' Hne.
    induction (IndexedDB.memories db) as [|x l IH]; [reflexivity|]. simpl.
    destruct (String.eqb (IndexedDB.bank x) b) eqn:Hb; simpl.
    - apply String.eqb_eq in Hb.
      assert (String.eqb (IndexedDB.bank x) b' = false) as ->
        by (apply String.eqb_neq; congruence).
      exact IH.
    - rewrite IH. reflexivity. }
  split.
  { intros k. destruct Hinv as [Hs _].
    destruct (List.find _ (IndexedDB.memories db)) as [r|] eqn:Hfind.
    - pose proof (find_some _ _ Hfind) as [Hin Hp]. apply Nat.eqb_eq in Hp.
      destruct (String.eqb (IndexedDB.bank r) b) eqn:Hb.
      + destruct (List.find _ (List.filter _ _)) as [r'|] eqn:Hfind'; [|reflexivity].
        exfalso. apply find_some in Hfind' as [Hin' Hp'].
        apply Nat.eqb_eq in Hp'. apply filter_In in Hin' as [Hin' Hq].
        rewrite (find_unique_key k _ r' Hs Hin' Hp') in Hfind.
        injection Hfind as ->. rewrite Hb in Hq. discriminate.
      + revert Hfind. clear -Hb.
        induction (IndexedDB.memories db) as [|x l IH]; [discriminate|]. simpl.
        destruct (Nat.eqb (IndexedDB.id x) k) eqn:Hk.
        * intros [= ->]. rewrite Hb. simpl. rewrite Hk. reflexivity.
        * intros Hfind.
          destruct (String.eqb (IndexedDB.bank x) b); simpl; [|rewrite Hk];
            apply IH; exact Hfind.
    - destruct (List.find _ (List.filter _ _)) as [r'|] eqn:Hfind'; [|reflexivity].
      exfalso. apply find_some in Hfind' as [Hin' Hp'].
      apply filter_In in Hin' as [Hin' _].
      pose proof (find_none _ _ Hfind r' Hin') as Hq. simpl in Hq. congruence. }
  split; [rewrite filter_idem; reflexivity|].
  split; [reflexivity|]. split; [reflexivity|].
  apply (keysInv_filter _ db Hinv).
Qed.

Lemma clearRecordsByBank_empties_one_bank_witness :
  IndexedDB.getRecordsByBank "General"
    (IndexedDB.clearRecordsByBank "General" Fixture.cachedFive) = [].
Proof.
  refine (proj1 (clearRecordsByBank_empties_one_bank "General" Fixture.cachedFive _)).
  split.
  - repeat constructor.
  - repeat constructor.
Defined.

Lemma perform_custom (q : Records.request) (db : IndexedDB.Database) :
  onMemories q = true ->
  IndexedDB.custom_banks (Records.perform q db) = IndexedDB.custom_banks db.
Proof. destruct q; simpl; congruence. Qed.

Lemma perform_memories (q : Records.request) (db : IndexedDB.Database) :
  onMemories q = false ->
  IndexedDB.memories (Records.perform q db) = IndexedDB.memories db
  /\ IndexedDB.nextId (Records.perform q db) = IndexedDB.nextId db.
Proof. destruct q; simpl; try discriminate; auto. Qed.

Lemma perform_congruence (q : Records.request) (d1 d2 : IndexedDB.Database) :
  (IndexedDB.memories d1 = IndexedDB.memories d2
   /\ IndexedDB.nextId d1 = IndexedDB.nextId d2 ->
   IndexedDB.memories (Records.perform q d1) = IndexedDB.memories (Records.perform q d2)
   /\ IndexedDB.nextId (Records.perform q d1) = IndexedDB.nextId (Records.perform q d2))
  /\ (IndexedDB.custom_banks d1 = IndexedDB.custom_banks d2 ->
      IndexedDB.custom_banks (Records.perform q d1)
      = IndexedDB.custom_banks (Records.perform q d2)).
Proof.
  split.
  - intros [Hm Hn]. destruct q; simpl; rewrite ?Hm, ?Hn; auto.
  - intros Hc. destruct q; simpl; rewrite ?Hc; auto.
Qed.

(** X10. The two object stores do not interfere: after any sequence of
    requests the records and the key generator are what the requests to
    [memories] alone would have left, and the custom banks are what the
    requests to [custom_banks] alone would have left. *)
Theorem object_stores_are_independent (qs : list Records.request)
    (db : IndexedDB.Database) :
  let db' := Records.performAll qs db in
  let onlyMemories := Records.performAll (List.filter onMemories qs) db in
  let onlyCustom :=
    Records.performAll (List.filter (fun q => negb (onMemories q)) qs) db in
  IndexedDB.memories db' = IndexedDB.memories onlyMemories
  /\ IndexedDB.nextId db' = IndexedDB.nextId onlyMemories
  /\ IndexedDB.custom_banks db' = IndexedDB.custom_banks onlyCustom
  /\ IndexedDB.custom_banks onlyMemories = IndexedDB.custom_banks db
  /\ IndexedDB.memories onlyCustom = IndexedDB.memories db.
Proof.
  simpl. unfold Records.performAll.
  assert (forall d1 d2 d3,
            IndexedDB.memories d1 = IndexedDB.memories d2 ->
            IndexedDB.nextId d1 = IndexedDB.nextId d2 ->
            IndexedDB.custom_banks d1 = IndexedDB.custom_banks d3 ->
            let db' := fold_left (fun d q => Records.perform q d) qs d1 in
            let m := fold_left (fun d q => Records.perform q d)
                       (List.filter onMemories qs) d2 in
            let c := fold_left (fun d q => Records.perform q d)
                       (List.filter (fun q => negb (onMemories q)) qs) d3 in
            IndexedDB.memories db' = IndexedDB.memories m
            /\ IndexedDB.nextId db' = IndexedDB.nextId m
            /\ IndexedDB.custom_banks db' = IndexedDB.custom_banks c
            /\ IndexedDB.custom_banks m = IndexedDB.custom_banks d2
            /\ IndexedDB.memories c = IndexedDB.memories d3) as Hgen.
  { induction qs as [|q qs IH]; intros d1 d2 d3 Hm Hn Hc; simpl.
    - auto.
    - destruct (onMemories q) eqn:Hq; simpl.
      + destruct (proj1 (perform_congruence q d1 d2) (conj Hm Hn)) as [Hm' Hn'].
        destruct (IH (Records.perform q d1) (Records.perform q d2) d3 Hm' Hn')
          as (H1 & H2 & H3 & H4 & H5).
        { rewrite perform_custom by exact Hq. exact Hc. }
        repeat split; try assumption.
        rewrite H4. apply perform_custom. exact Hq.
      + destruct (perform_memories q d1 Hq) as [Hm1 Hn1].
        destruct (IH (Records.perform q d1) d2 (Records.perform q d3))
          as (H1 & H2 & H3 & H4 & H5).
        { congruence. }
        { congruence. }
        { apply (proj2 (perform_congruence q d1 d3)). exact Hc. }
        repeat split; try assumption.
        rewrite H5. apply (perform_memories q d3 Hq). }
  apply (Hgen db db db); reflexivity.
Qed.

(** ** The custom banks store and the schema *)

Lemma customBankNames_elem (db : IndexedDB.Database) (n : string) :
  n ∈ IndexedDB.getAllCustomBankNames db <-> is_Some (IndexedDB.getCustomBank n db).
Proof.
  unfold IndexedDB.getCustomBank. rewrite fmap_is_Some.
  apply (storedNames_elem (IndexedDB.custom_banks db) n).
Qed.

(** X11. [saveCustomBank] adds or replaces: the bank saved is read back as
    saved, whatever was stored under its name, every other name reads as
    before, and the list of names gains the name only if it was not there.
    [deleteCustomBank] removes the name and nothing else.  The names listed
    are exactly those that can be read, each listed once. *)
Theorem custom_banks_read_back (bk : IndexedDB.CustomBankRecord) (n : string)
    (db : IndexedDB.Database) :
  let saved := IndexedDB.saveCustomBank bk db in
  let deleted := IndexedDB.deleteCustomBank n db in
  IndexedDB.getCustomBank (IndexedDB.name bk) saved = Some bk
  /\ (n <> IndexedDB.name bk ->
      IndexedDB.getCustomBank n saved = IndexedDB.getCustomBank n db)
  /\ length (IndexedDB.getAllCustomBankNames saved)
     = (if bool_decide (IndexedDB.name bk ∈ IndexedDB.getAllCustomBankNames db)
        then length (IndexedDB.getAllCustomBankNames db)
        else S (length (IndexedDB.getAllCustomBankNames db)))
  /\ IndexedDB.getCustomBank n deleted = None
  /\ (forall m, m <> n ->
        IndexedDB.getCustomBank m deleted = IndexedDB.getCustomBank m db)
  /\ (forall d m, m ∈ IndexedDB.getAllCustomBankNames d
                  <-> is_Some (IndexedDB.getCustomBank m d))
  /\ (forall d, NoDup (IndexedDB.getAllCustomBankNames d))
  /\ IndexedDB.getRecordsByBank n deleted = IndexedDB.getRecordsByBank n db.
Proof.
  simpl. split.
  { unfold IndexedDB.getCustomBank, IndexedDB.saveCustomBank. simpl.
    rewrite lookup_insert_eq. destruct bk; reflexivity. }
  split.
  { intros Hne. unfold IndexedDB.getCustomBank, IndexedDB.saveCustomBank. simpl.
    rewrite lookup_insert_ne by congruence. reflexivity. }
  split.
  { unfold IndexedDB.getAllCustomBankNames, IndexedDB.saveCustomBank. simpl.
    rewrite !(Permutation_length (inKeyOrder_Permutation _)).
    rewrite !length_fmap, !length_map_to_list.
    destruct (IndexedDB.custom_banks db !! IndexedDB.name bk) as [v|] eqn:Hv.
    - rewrite bool_decide_eq_true_2.
      + rewrite <- (insert_delete_eq (IndexedDB.custom_banks db)) at 1.
        rewrite <- (insert_delete_id (IndexedDB.custom_banks db) _ _ Hv) at 2.
        rewrite !map_size_insert_None by apply lookup_delete_eq. reflexivity.
      + apply (customBankNames_elem db). unfold IndexedDB.getCustomBank.
        rewrite Hv. eexists. reflexivity.
    - rewrite bool_decide_eq_false_2.
      + apply map_size_insert_None. exact Hv.
      + intros Hin. apply (customBankNames_elem db) in Hin.
        unfold IndexedDB.getCustomBank in Hin. rewrite Hv in Hin.
        destruct Hin as [? ?]. discriminate. }
  split.
  { unfold IndexedDB.getCustomBank, IndexedDB.deleteCustomBank. simpl.
    rewrite lookup_delete_eq. reflexivity. }
  split.
  { intros m Hne. unfold IndexedDB.getCustomBank, IndexedDB.deleteCustomBank. simpl.
    rewrite lookup_delete_ne by congruence. reflexivity. }
  split; [intros d m; apply customBankNames_elem|].
  split; [intros d; apply (storedNames_NoDup (IndexedDB.custom_banks d))|reflexivity].
Qed.

Lemma upgraded_store (st : Schema.ObjectStore) :
  let withoutTimestamp :=
    if bool_decide (is_Some (Schema.indexes st !! "timestamp"))
    then Schema.mkStore (Schema.keyPath st) (Schema.autoIncrement st)
           (delete "timestamp" (Schema.indexes st))
    else st in
  let withBank :=
    if bool_decide (is_Some (Schema.indexes withoutTimestamp !! "bank"))
    then withoutTimestamp
    else Schema.mkStore (Schema.keyPath withoutTimestamp)
           (Schema.autoIncrement withoutTimestamp)
           (<["bank" := Schema.mkIndex "bank" false]> (Schema.indexes withoutTimestamp)) in
  Schema.keyPath withBank = Schema.keyPath st
  /\ Schema.autoIncrement withBank = Schema.autoIncrement st
  /\ Schema.indexes withBank !! "timestamp" = None
  /\ Schema.indexes withBank !! "bank"
     = Some (default (Schema.mkIndex "bank" false) (Schema.indexes st !! "bank"))
  /\ forall i, i <> "timestamp" -> i <> "bank" ->
       Schema.indexes withBank !! i = Schema.indexes st !! i.
Proof.
  cbv zeta. destruct st as [kp ai ix]. cbn [Schema.indexes].
  destruct (ix !! "timestamp") as [t|] eqn:Ht.
  - rewrite (bool_decide_eq_true_2 (is_Some (Some t))) by (eexists; reflexivity).
    cbn [Schema.indexes Schema.keyPath Schema.autoIncrement].
    rewrite (lookup_delete_ne ix "timestamp" "bank") by discriminate.
    destruct (ix !! "bank") as [b|] eqn:Hb.
    + rewrite (bool_decide_eq_true_2 (is_Some (Some b))) by (eexists; reflexivity).
      cbn [Schema.indexes Schema.keyPath Schema.autoIncrement default].
      rewrite lookup_delete_eq, lookup_delete_ne, Hb by discriminate.
      repeat split. intros i Hi _. rewrite lookup_delete_ne by congruence. reflexivity.
    + rewrite (bool_decide_eq_false_2 (is_Some None)) by (intros [? ?]; discriminate).
      cbn [Schema.indexes Schema.keyPath Schema.autoIncrement default].
      rewrite lookup_insert_ne, lookup_delete_eq, lookup_insert_eq by discriminate.
      repeat split. intros i Hi Hi'.
      rewrite lookup_insert_ne, lookup_delete_ne by congruence. reflexivity.
  - rewrite (bool_decide_eq_false_2 (is_Some None)) by (intros [? ?]; discriminate).
    cbn [Schema.indexes Schema.keyPath Schema.autoIncrement].
    destruct (ix !! "bank") as [b|] eqn:Hb.
    + rewrite (bool_decide_eq_true_2 (is_Some (Some b))) by (eexists; reflexivity).
      cbn [Schema.indexes Schema.keyPath Schema.autoIncrement default].
      rewrite Ht, Hb. repeat split.
    + rewrite (bool_decide_eq_false_2 (is_Some None)) by (intros [? ?]; discriminate).
      cbn [Schema.indexes Schema.keyPath Schema.autoIncrement default].
      rewrite lookup_insert_ne, lookup_insert_eq, Ht by discriminate.
      repeat split. intros i _ Hi. rewrite lookup_insert_ne by congruence. reflexivity.
Qed.

Lemma ObjectStore_eq (s1 s2 : Schema.ObjectStore) :
  Schema.keyPath s1 = Schema.keyPath s2 ->
  Schema.autoIncrement s1 = Schema.autoIncrement s2 ->
  (forall i, Schema.indexes s1 !! i = Schema.indexes s2 !! i) ->
  s1 = s2.
Proof.
  destruct s1, s2. simpl. intros -> -> H. f_equal. apply map_eq. exact H.
Qed.

(** X12. From whatever schema an earlier version left, the upgrade handler
    produces both object stores; [memories] then has a [bank] index and no
    [timestamp] index.  It creates only what is missing: a store that was
    there keeps its key path and its other indexes, an existing [bank]
    index is kept as it is, and all other stores are untouched.  Running
    the handler on its own result changes nothing, and without a
    transaction it does nothing at all. *)
Theorem onupgradeneeded_establishes_schema (db : Schema.Stores) :
  let db' := Schema.onupgradeneeded true db in
  (exists st,
     db' !! Schema.EMBEDDINGS_STORE_NAME = Some st
     /\ Schema.indexes st !! "timestamp" = None
     /\ (exists ix, Schema.indexes st !! "bank" = Some ix)
     /\ match db !! Schema.EMBEDDINGS_STORE_NAME with
        | Some old =>
            Schema.keyPath st = Schema.keyPath old
            /\ Schema.autoIncrement st = Schema.autoIncrement old
            /\ (forall ix, Schema.indexes old !! "bank" = Some ix ->
                           Schema.indexes st !! "bank" = Some ix)
            /\ forall i, i <> "timestamp" -> i <> "bank" ->
                 Schema.indexes st !! i = Schema.indexes old !! i
        | None =>
            st = Schema.mkStore "id" true {["bank" := Schema.mkIndex "bank" false]}
        end)
  /\ db' !! Schema.CUSTOM_BANKS_STORE_NAME
     = Some (default (Schema.mkStore "name" false ∅)
               (db !! Schema.CUSTOM_BANKS_STORE_NAME))
  /\ (forall s, s <> Schema.EMBEDDINGS_STORE_NAME ->
                s <> Schema.CUSTOM_BANKS_STORE_NAME -> db' !! s = db !! s)
  /\ Schema.onupgradeneeded true db' = db'
  /\ Schema.onupgradeneeded false db = db.
Proof.
  intros db'.
  assert (forall d : Schema.Stores,
            exists st,
              Schema.onupgradeneeded true d !! Schema.EMBEDDINGS_STORE_NAME = Some st
              /\ Schema.keyPath st
                 = Schema.keyPath (default (Schema.mkStore "id" true ∅)
                                     (d !! Schema.EMBEDDINGS_STORE_NAME))
              /\ Schema.autoIncrement st
                 = Schema.autoIncrement (default (Schema.mkStore "id" true ∅)
                                           (d !! Schema.EMBEDDINGS_STORE_NAME))
              /\ Schema.indexes st !! "timestamp" = None
              /\ Schema.indexes st !! "bank"
                 = Some (default (Schema.mkIndex "bank" false)
                           (Schema.indexes (default (Schema.mkStore "id" true ∅)
                                              (d !! Schema.EMBEDDINGS_STORE_NAME))
                            !! "bank"))
              /\ (forall i, i <> "timestamp" -> i <> "bank" ->
                    Schema.indexes st !! i
                    = Schema.indexes (default (Schema.mkStore "id" true ∅)
                                        (d !! Schema.EMBEDDINGS_STORE_NAME)) !! i)
              /\ Schema.onupgradeneeded true d !! Schema.CUSTOM_BANKS_STORE_NAME
                 = Some (default (Schema.mkStore "name" false ∅)
                           (d !! Schema.CUSTOM_BANKS_STORE_NAME))
              /\ forall s, s <> Schema.EMBEDDINGS_STORE_NAME ->
                           s <> Schema.CUSTOM_BANKS_STORE_NAME ->
                           Schema.onupgradeneeded true d !! s = d !! s) as Hgen.
  { intros d. unfold Schema.onupgradeneeded. simpl.
    set (st0 := match d !! Schema.EMBEDDINGS_STORE_NAME with
                | Some st => st
                | None => Schema.mkStore "id" true ∅
                end).
    assert (st0 = default (Schema.mkStore "id" true ∅)
                    (d !! Schema.EMBEDDINGS_STORE_NAME)) as Hst0
      by (unfold st0; destruct (d !! Schema.EMBEDDINGS_STORE_NAME); reflexivity).
    rewrite <- Hst0.
    pose proof (upgraded_store st0) as Hup. simpl in Hup.
    set (st1 := if bool_decide (is_Some (Schema.indexes
                     (if bool_decide (is_Some (Schema.indexes st0 !! "timestamp"))
                      then _ else st0) !! "bank")) then _ else _) in *.
    destruct Hup as (Hkp & Hai & Hts & Hbank & Hother).
    exists st1.
    assert (Schema.CUSTOM_BANKS_STORE_NAME <> Schema.EMBEDDINGS_STORE_NAME) as Hne
      by discriminate.
    rewrite (lookup_insert_ne d Schema.EMBEDDINGS_STORE_NAME
               Schema.CUSTOM_BANKS_STORE_NAME st1) by congruence.
    destruct (d !! Schema.CUSTOM_BANKS_STORE_NAME) as [c|] eqn:Hc.
    - rewrite bool_decide_eq_true_2 by (eexists; reflexivity).
      rewrite lookup_insert_eq, lookup_insert_ne, Hc by congruence.
      repeat split; try assumption.
      intros s Hs _. rewrite lookup_insert_ne by congruence. reflexivity.
    - rewrite bool_decide_eq_false_2 by (intros [? ?]; discriminate).
      rewrite lookup_insert_eq, lookup_insert_ne, lookup_insert_eq by congruence.
      repeat split; try assumption.
      intros s Hs Hs'. rewrite !lookup_insert_ne by congruence. reflexivity. }
  destruct (Hgen db) as (st & Hst & Hkp & Hai & Hts & Hbank & Hother & Hcb & Hrest).
  fold db' in Hst, Hcb, Hrest.
  split.
  { exists st. split; [exact Hst|]. split; [exact Hts|].
    split; [eexists; exact Hbank|].
    destruct (db !! Schema.EMBEDDINGS_STORE_NAME) as [old|] eqn:Hold; simpl in *.
    - split; [exact Hkp|]. split; [exact Hai|]. split; [|exact Hother].
      intros ix Hix. rewrite Hbank, Hix. reflexivity.
    - apply ObjectStore_eq; try assumption. intros i. simpl.
      destruct (decide (i = "bank")) as [->|Hb].
      + rewrite Hbank, lookup_singleton_eq. reflexivity.
      + rewrite lookup_singleton_ne by congruence.
        destruct (decide (i = "timestamp")) as [->|Ht]; [exact Hts|].
        rewrite Hother by assumption. apply lookup_empty. }
  split; [exact Hcb|]. split; [exact Hrest|]. split; [|reflexivity].
  destruct (Hgen db') as (st2 & Hst2 & Hkp2 & Hai2 & Hts2 & Hbank2 & Hother2 & Hcb2 & Hrest2).
  apply map_eq. intros s.
  destruct (decide (s = Schema.EMBEDDINGS_STORE_NAME)) as [->|Hs1].
  - rewrite Hst2, Hst. f_equal. rewrite Hst in *. simpl in *.
    apply ObjectStore_eq; try assumption. intros i.
    destruct (decide (i = "bank")) as [->|Hb].
    + rewrite Hbank2, Hbank. reflexivity.
    + destruct (decide (i = "timestamp")) as [->|Ht]; [congruence|].
      apply Hother2; assumption.
  - destruct (decide (s = Schema.CUSTOM_BANKS_STORE_NAME)) as [->|Hs2].
    + rewrite Hcb2, Hcb. reflexivity.
    + apply Hrest2; assumption.
Qed.

(** ** Embeddings of arrays and of queries *)

Lemma generateEmbedding_length (inst : Embedding.EmbeddingInstance)
    (opts : Embedding.options) (text : string) (v : IndexedDB.vector) :
  wellSized inst ->
  Embedding.notFalse (Embedding.truncate opts) = true ->
  Embedding.generateEmbedding (Some inst) text opts = Some v ->
  length v = if blank text then Embedding.nativeSize inst else 256.
Proof.
  intros [Hnorm Hpool] Htr. unfold Embedding.generateEmbedding, blank.
  destruct (String.eqb (Js.trim text) EmptyString).
  - intros [= <-]. apply repeat_length.
  - destruct (Embedding.pooled inst text) as [p|] eqn:Hp; [|discriminate].
    rewrite Htr. destruct (existsb Js.isNaN p).
    + intros [= <-]. apply repeat_length.
    + specialize (Hpool _ _ Hp).
      destruct (Embedding.notFalse (Embedding.normalize opts)); intros [= <-];
        rewrite ?Hnorm, length_take; lia.
Qed.

(** X13. A call of [generateEmbedding] on an array answers with one vector
    per text, in order, each being what the call on that text alone gives;
    it fails exactly when the model is not available or the call on some
    entry fails.  Under truncation and with tensors of the expected sizes,
    the vectors of blank texts have the model's native size and all others
    have 256 components. *)
Theorem generateEmbeddings_is_entrywise
    (loaded : option Embedding.EmbeddingInstance) (opts : Embedding.options)
    (texts : list string) :
  (forall vs,
     Embedding.generateEmbeddings loaded texts opts = Some vs
     <-> is_Some loaded
         /\ Forall2 (fun t v => Embedding.generateEmbedding loaded t opts = Some v)
              texts vs)
  /\ (Embedding.generateEmbeddings loaded texts opts = None
      <-> loaded = None
          \/ exists t, t ∈ texts /\ Embedding.generateEmbedding loaded t opts = None)
  /\ (forall inst vs,
        loaded = Some inst -> wellSized inst ->
        Embedding.notFalse (Embedding.truncate opts) = true ->
        Embedding.generateEmbeddings loaded texts opts = Some vs ->
        Forall2 (fun t v => length v = if blank t then Embedding.nativeSize inst
                                       else 256) texts vs).
Proof.
  assert (forall vs,
            Embedding.generateEmbeddings loaded texts opts = Some vs
            <-> is_Some loaded
                /\ Forall2 (fun t v => Embedding.generateEmbedding loaded t opts = Some v)
                     texts vs) as Hsome.
  { intros vs. unfold Embedding.generateEmbeddings. destruct loaded as [inst|].
    - rewrite mapM_Some. split; [intros H; split; [eexists; reflexivity|exact H]|].
      intros [_ H]. exact H.
    - split; [discriminate|]. intros [[? ?] _]. discriminate. }
  split; [exact Hsome|]. split.
  - unfold Embedding.generateEmbeddings. destruct loaded as [inst|].
    + split.
      * intros Hnone.
        destruct (decide (Forall (fun t => is_Some (Embedding.generateEmbedding
                                                     (Some inst) t opts)) texts))
          as [Hall|Hnot].
        -- apply mapM_is_Some_2 in Hall. rewrite Hnone in Hall.
           destruct Hall as [? ?]. discriminate.
        -- right. apply not_Forall_Exists in Hnot; [|intros t; apply _].
           apply Exists_exists in Hnot as (t & Hin & Ht). exists t.
           split; [exact Hin|].
           destruct (Embedding.generateEmbedding (Some inst) t opts) as [v|] eqn:Hv;
             [|reflexivity].
           exfalso. apply Ht. exists v. exact Hv.
      * intros [Hl|(t & Hin & Ht)]; [discriminate|].
        destruct (mapM _ texts) as [vs|] eqn:Hrun; [|reflexivity].
        apply mapM_Some in Hrun.
        apply list_elem_of_lookup in Hin as [i Hi].
        destruct (Forall2_lookup_l _ _ _ _ _ Hrun Hi) as (v & _ & Hv). congruence.
    + split; [intros _; left; reflexivity|reflexivity].
  - intros inst vs -> Hsized Htr Hrun. apply Hsome in Hrun as [_ Hrun].
    eapply Forall2_impl; [exact Hrun|]. intros t v Hv.
    eapply generateEmbedding_length; eassumption.
Qed.

Lemma trim_nonblank (c : ascii) (s : string) :
  Js.isWhiteSpace c = false -> Js.trim (String c s) <> EmptyString.
Proof.
  intros Hc. unfold Js.trim. cbn [Js.trimStart]. rewrite Hc.
  cbn [Js.trimEnd]. destruct (Js.trimEnd s); [rewrite Hc|]; discriminate.
Qed.

(** X14. The text [generateQueryEmbedding] embeds is never blank, whatever
    the query: the zero vector of a blank input is never the answer to a
    query, so the call fails exactly when the model is not available or
    the tokenizer or the model fails on the instructed query, and under
    truncation its answer has 256 components. *)
Theorem query_is_embedded_with_its_instruction (text : string) :
  exists instruction : string,
    let instructed := instruction +:+ text in
    blank instructed = false
    /\ forall loaded opts,
         App.generateQueryEmbedding loaded text opts
         = Embedding.generateEmbedding loaded instructed opts
         /\ (App.generateQueryEmbedding loaded text opts = None
             <-> loaded = None
                 \/ exists inst, loaded = Some inst
                                 /\ Embedding.pooled inst instructed = None)
         /\ forall inst v,
              loaded = Some inst -> wellSized inst ->
              Embedding.notFalse (Embedding.truncate opts) = true ->
              App.generateQueryEmbedding loaded text opts = Some v ->
              length v = 256.
Proof.
  exists ("Instruct: Given a web search query, retrieve relevant passages that answer the query"
          +:+ App.newline +:+ "Query: ").
  cbv zeta.
  set (instructed := _ +:+ text).
  assert (blank instructed = false) as Hblank.
  { unfold blank. apply String.eqb_neq. subst instructed. cbn [String.append].
    apply trim_nonblank. reflexivity. }
  split; [exact Hblank|]. intros loaded opts.
  assert (App.generateQueryEmbedding loaded text opts
          = Embedding.generateEmbedding loaded instructed opts) as Heq
    by reflexivity.
  split; [exact Heq|]. rewrite Heq. split.
  - unfold Embedding.generateEmbedding. unfold blank in Hblank.
    destruct loaded as [inst|].
    + rewrite Hblank. split.
      * intros Hnone. right. exists inst. split; [reflexivity|].
        destruct (Embedding.pooled inst instructed) as [p|]; [|reflexivity].
        destruct (existsb Js.isNaN p); discriminate.
      * intros [Hl|(i & [= <-] & Hp)]; [discriminate|]. rewrite Hp. reflexivity.
    + split; [intros _; left; reflexivity|reflexivity].
  - intros inst v -> Hsized Htr Hv.
    rewrite (generateEmbedding_length inst opts instructed v Hsized Htr Hv), Hblank.
    reflexivity.
Qed.

Lemma sizedInstance_wellSized : wellSized sizedInstance.
Proof.
  split; [reflexivity|]. intros t p [= <-].
  change (256 <= length (repeat (Js.Num 1) 300)). rewrite repeat_length. lia.
Qed.

Lemma generateEmbeddings_is_entrywise_witness :
  Forall2 (fun t v => length v = if blank t then 1024 else 256)
    [" "; "a"] [Js.zeros 1024; repeat (Js.Num 1) 256].
Proof.
  exact (proj2 (proj2 (generateEmbeddings_is_entrywise (Some sizedInstance)
                         Embedding.noOptions [" "; "a"]))
           sizedInstance [Js.zeros 1024; repeat (Js.Num 1) 256]
           eq_refl sizedInstance_wellSized eq_refl eq_refl).
Defined.

Lemma query_is_embedded_with_its_instruction_witness :
  exists v,
    App.generateQueryEmbedding (Some sizedInstance) " " Embedding.noOptions = Some v
    /\ length v = 256.
Proof.
  destruct (query_is_embedded_with_its_instruction " ") as (instruction & _ & H).
  destruct (H (Some sizedInstance) Embedding.noOptions) as (_ & _ & Hlen).
  exists (repeat (Js.Num 1) 256). split; [reflexivity|].
  exact (Hlen sizedInstance _ eq_refl sizedInstance_wellSized eq_refl eq_refl).
Defined.

(** ** What a search answers *)





(** ** Deleting a custom bank, step by step *)

Lemma filter_other_bank (b b' : string) (l : list IndexedDB.MemoryRecord) :
  b' <> b ->
  List.filter (fun r => String.eqb (IndexedDB.bank r) b')
    (List.filter (fun r => negb (String.eqb (IndexedDB.bank r) b)) l)
  = List.filter (fun r => String.eqb (IndexedDB.bank r) b') l.
Proof.
  intros Hne. induction l as [|x l IH]; [reflexivity|]. simpl.
  destruct (String.eqb (IndexedDB.bank x) b) eqn:Hb; simpl.
  - apply String.eqb_eq in Hb.
    assert (String.eqb (IndexedDB.bank x) b' = false) as ->
      by (apply String.eqb_neq; congruence).
    exact IH.
  - rewrite IH. reflexivity.
Qed.

(** X16. [handleConfirmDelete] never throws, and how far it gets depends
    on the store alone.  If the first request is rejected nothing has
    changed.  If only the deletion of the records is rejected, the bank's
    definition is gone from the store while its records stay and the
    interface still lists the bank.  If both requests are accepted, the
    bank is gone from the store and from the interface, the active bank
    falls back to "General" exactly when it was the deleted one, and every
    other bank is as before. *)
Theorem handleConfirmDelete_by_store_answers (env : App.Env) (b : string)
    (w : App.World) :
  let r := App.handleConfirmDelete env b w in
  let w' := r.2 in
  r.1 = App.Normal tt
  /\ App.memoryBankEmbeddings w' = App.memoryBankEmbeddings w
  /\ App.isAppLoading w' = App.isAppLoading w
  /\ (forall b', b' <> b ->
        IndexedDB.getRecordsByBank b' (App.db w')
        = IndexedDB.getRecordsByBank b' (App.db w)
        /\ IndexedDB.getCustomBank b' (App.db w') = IndexedDB.getCustomBank b' (App.db w)
        /\ (b' ∈ App.availableBanks w' <-> b' ∈ App.availableBanks w)
        /\ App.customBankData w' !! b' = App.customBankData w !! b')
  /\ (App.storeFails env (App.now w) = true ->
      App.db w' = App.db w /\ App.effects w' = App.effects w
      /\ App.availableBanks w' = App.availableBanks w
      /\ App.customBankData w' = App.customBankData w
      /\ App.activeBank w' = App.activeBank w)
  /\ (App.storeFails env (App.now w) = false ->
      App.storeFails env (S (App.now w)) = true ->
      IndexedDB.getCustomBank b (App.db w') = None
      /\ IndexedDB.getRecordsByBank b (App.db w')
         = IndexedDB.getRecordsByBank b (App.db w)
      /\ App.effects w' = App.effects w ++ [App.DeleteBank b]
      /\ App.availableBanks w' = App.availableBanks w
      /\ App.customBankData w' = App.customBankData w
      /\ App.activeBank w' = App.activeBank w)
  /\ (App.storeFails env (App.now w) = false ->
      App.storeFails env (S (App.now w)) = false ->
      IndexedDB.getCustomBank b (App.db w') = None
      /\ IndexedDB.getRecordsByBank b (App.db w') = []
      /\ App.effects w' = App.effects w ++ [App.DeleteBank b; App.ClearRecords b]
      /\ (b ∉ App.availableBanks w')
      /\ App.customBankData w' !! b = None
      /\ App.activeBank w'
         = (if String.eqb (App.activeBank w) b then "General" else App.activeBank w)).
Proof.
  cbv zeta. unfold App.handleConfirmDelete, App.tryCatch.
  unfold mbind, App.M_bind, App.await_write.
  destruct (App.storeFails env (App.now w)) eqn:Hf1.
  { simpl. repeat split; try discriminate; auto. }
  cbn [App.now App.withDb].
  destruct (App.storeFails env (S (App.now w))) eqn:Hf2.
  { simpl. split; [reflexivity|]. split; [reflexivity|]. split; [reflexivity|].
    split.
    { intros b' Hne. split; [reflexivity|]. split; [|split; reflexivity].
      unfold IndexedDB.getCustomBank. simpl.
      rewrite lookup_delete_ne by congruence. reflexivity. }
    split; [discriminate|]. split; [|discriminate]. intros _ _.
    split; [|repeat split].
    unfold IndexedDB.getCustomBank. simpl. rewrite lookup_delete_eq. reflexivity. }
  assert (forall l : list string,
            b ∉ List.filter (fun x => negb (String.eqb x b)) l) as Hgone.
  { intros l Hin. apply list_elem_of_In in Hin. apply filter_In in Hin as [_ Hq].
    rewrite String.eqb_refl in Hq. discriminate. }
  assert (forall (l : list string) b', b' <> b ->
            b' ∈ List.filter (fun x => negb (String.eqb x b)) l <-> b' ∈ l) as Hkept.
  { intros l b' Hne. split; intros Hin; apply list_elem_of_In in Hin;
      apply list_elem_of_In.
    - apply filter_In in Hin as [Hin _]. exact Hin.
    - apply filter_In. split; [exact Hin|]. apply negb_true_iff.
      apply String.eqb_neq. exact Hne. }
  destruct (String.eqb (App.activeBank w) b) eqn:Hact; simpl; rewrite ?Hact; simpl;
    (split; [reflexivity|]; split; [reflexivity|]; split; [reflexivity|];
     split;
     [intros b' Hne; split;
      [unfold IndexedDB.getRecordsByBank; simpl; apply filter_other_bank; exact Hne|];
      split;
      [unfold IndexedDB.getCustomBank; simpl;
       rewrite lookup_delete_ne by congruence; reflexivity|];
      split; [apply Hkept; exact Hne|];
      rewrite lookup_delete_ne by congruence; reflexivity|];
     split; [discriminate|]; split; [discriminate|]; intros _ _;
     split;
     [unfold IndexedDB.getCustomBank; simpl; rewrite lookup_delete_eq; reflexivity|];
     split; [unfold IndexedDB.getRecordsByBank; simpl; apply filter_bank_cleared|];
     split; [rewrite <- app_assoc; reflexivity|];
     split; [apply Hgone|];
     split; [apply lookup_delete_eq|reflexivity]).
Qed.

(** ** Which banks an operation can touch *)

Section Preserved.
Variable R : App.World -> App.World -> Prop.
Hypothesis R_refl : forall w, R w w.
Hypothesis R_trans : forall w1 w2 w3, R w1 w2 -> R w2 w3 -> R w1 w3.

Lemma preserves_ret {A : Type} (a : A) : preserves R (mret a : App.M A).
Proof. intros w. apply R_refl. Qed.

Lemma preserves_bind {A B : Type} (m : App.M A) (k : A -> App.M B) :
  preserves R m -> (forall a, preserves R (k a)) -> preserves R (m ≫= k).
Proof.
  intros Hm Hk w. unfold mbind, App.M_bind. specialize (Hm w).
  destruct (m w) as [[a| |] w1]; simpl in *; try exact Hm.
  eapply R_trans; [exact Hm|apply Hk].
Qed.

Lemma preserves_tryCatch (body : App.M unit) :
  preserves R body -> preserves R (App.tryCatch body).
Proof.
  intros Hb w. unfold App.tryCatch. specialize (Hb w).
  destruct (body w) as [[a| |] w1]; exact Hb.
Qed.

Lemma preserves_forEach {A : Type} (l : list A) (body : A -> App.M unit) :
  (forall x, x ∈ l -> preserves R (body x)) -> preserves R (App.forEach l body).
Proof.
  induction l as [|x l IH]; intros Hbody; simpl.
  - apply preserves_ret.
  - apply preserves_bind.
    + apply Hbody. left.
    + intros _. apply IH. intros y Hy. apply Hbody. right. exact Hy.
Qed.
End Preserved.

Lemma untouched_refl (S T : string -> bool) (w : App.World) : untouched S T w w.
Proof. split; reflexivity. Qed.

Lemma untouched_trans (S T : string -> bool) (w1 w2 w3 : App.World) :
  untouched S T w1 w2 -> untouched S T w2 w3 -> untouched S T w1 w3.
Proof.
  intros [H1 H2] [H3 H4]. split; intros b Hb.
  - rewrite H3, H1 by exact Hb. reflexivity.
  - rewrite H4, H2 by exact Hb. reflexivity.
Qed.

Lemma untouched_db {A : Type} (S T : string -> bool) (m : App.M A) :
  (forall w, App.db (m w).2 = App.db w) -> preserves (untouched S T) m.
Proof. intros H w. split; intros b _; rewrite H; reflexivity. Qed.

Lemma untouched_read {A : Type} (S T : string -> bool) (env : App.Env)
    (f : IndexedDB.Database -> A) :
  preserves (untouched S T) (App.await_read env f).
Proof.
  apply untouched_db. intros w. unfold App.await_read.
  destruct (App.storeFails env (App.now w)); reflexivity.
Qed.

Lemma untouched_check (S T : string -> bool) (env : App.Env) :
  preserves (untouched S T) (App.returnIfCancelled env).
Proof.
  apply untouched_db. intros w. unfold App.returnIfCancelled.
  destruct (App.cancelled env (App.now w)); reflexivity.
Qed.

Lemma untouched_embed (S T : string -> bool) (env : App.Env) (texts : list string) :
  preserves (untouched S T) (App.await_generateEmbedding env texts).
Proof.
  apply untouched_db. intros w. unfold App.await_generateEmbedding.
  destruct (Embedding.generateEmbeddings _ _ _); reflexivity.
Qed.

Lemma untouched_embedOf (S T : string -> bool) (env : App.Env) (content : Js.value) :
  preserves (untouched S T) (App.await_generateEmbeddingOf env content).
Proof.
  apply untouched_db. intros w. unfold App.await_generateEmbeddingOf.
  destruct (Embedding.generateEmbeddingOf _ _ _); reflexivity.
Qed.

Lemma untouched_clear (S T : string -> bool) (env : App.Env) (b : string) :
  S b = true ->
  preserves (untouched S T)
    (App.await_write env (App.ClearRecords b) (IndexedDB.clearRecordsByBank b)).
Proof.
  intros HS w. unfold App.await_write.
  destruct (App.storeFails env (App.now w)); [split; reflexivity|].
  split; intros b' Hb'; simpl; [|reflexivity].
  apply filter_other_bank. congruence.
Qed.

Lemma untouched_add (S T : string -> bool) (env : App.Env) (r : IndexedDB.NewRecord) :
  S (IndexedDB.new_bank r) = true ->
  preserves (untouched S T) (App.await_addRecord env r).
Proof.
  intros HS w. unfold App.await_addRecord.
  destruct (App.storeFails env (App.now w)); [split; reflexivity|].
  split; intros b' Hb'; simpl; [|reflexivity].
  unfold IndexedDB.getRecordsByBank. simpl. rewrite List.filter_app. simpl.
  assert (String.eqb (IndexedDB.new_bank r) b' = false) as ->
    by (apply String.eqb_neq; congruence).
  apply app_nil_r.
Qed.

Lemma untouched_save (S T : string -> bool) (env : App.Env)
    (bk : IndexedDB.CustomBankRecord) :
  T (IndexedDB.name bk) = true ->
  preserves (untouched S T)
    (App.await_write env (App.SaveBank bk) (IndexedDB.saveCustomBank bk)).
Proof.
  intros HT w. unfold App.await_write.
  destruct (App.storeFails env (App.now w)); [split; reflexivity|].
  split; intros b' Hb'; simpl; [reflexivity|].
  apply lookup_insert_ne. congruence.
Qed.

Lemma untouched_delete (S T : string -> bool) (env : App.Env) (n : string) :
  T n = true ->
  preserves (untouched S T)
    (App.await_write env (App.DeleteBank n) (IndexedDB.deleteCustomBank n)).
Proof.
  intros HT w. unfold App.await_write.
  destruct (App.storeFails env (App.now w)); [split; reflexivity|].
  split; intros b' Hb'; simpl; [reflexivity|].
  apply lookup_delete_ne. congruence.
Qed.

Lemma untouched_insertAll (S T : string -> bool) (env : App.Env)
    (check : App.M unit) (b : string) (texts : list string)
    (embeddings : list IndexedDB.vector) :
  S b = true -> preserves (untouched S T) check ->
  preserves (untouched S T) (App.insertAll env check b texts embeddings).
Proof.
  intros HS Hcheck. unfold App.insertAll.
  apply preserves_forEach; [apply untouched_refl|apply untouched_trans|].
  intros j _.
  apply preserves_bind; [apply untouched_trans|exact Hcheck|]. intros _.
  apply preserves_bind; [apply untouched_trans|apply untouched_add; exact HS|].
  intros _. apply preserves_ret. apply untouched_refl.
Qed.

Lemma untouched_cacheBank (S T : string -> bool) (env : App.Env) (b : string)
    (data : list string) :
  S b = true -> preserves (untouched S T) (App.cacheBank env b data).
Proof.
  intros HS. unfold App.cacheBank.
  apply preserves_bind; [apply untouched_trans|apply untouched_read|]. intros cached.
  apply preserves_bind; [apply untouched_trans|apply untouched_check|]. intros _.
  destruct (App.needsGeneration cached data);
    [|apply preserves_ret; apply untouched_refl].
  apply preserves_bind; [apply untouched_trans|apply untouched_clear; exact HS|].
  intros _.
  apply preserves_bind; [apply untouched_trans|apply untouched_embed|]. intros es.
  apply preserves_bind; [apply untouched_trans|apply untouched_check|]. intros _.
  destruct (App.isArrayOfArrays es); [|apply preserves_ret; apply untouched_refl].
  apply untouched_insertAll; [exact HS|apply untouched_check].
Qed.

Lemma untouched_setup (memoryBanks : list (string * list string)) (env : App.Env) :
  preserves (untouched (Js.includes (App.defaultBankNames memoryBanks)) noBank)
    (App.setup memoryBanks env).
Proof.
  set (S := Js.includes (App.defaultBankNames memoryBanks)).
  assert (forall (A : Type) (m : App.M A),
            (forall w, App.db (m w).2 = App.db w) ->
            preserves (untouched S noBank) m) as Hdb
    by (intros A m; apply untouched_db).
  unfold App.setup.
  apply preserves_bind; [apply untouched_trans|apply Hdb; reflexivity|]. intros _.
  apply preserves_bind; [apply untouched_trans|apply untouched_check|]. intros _.
  apply preserves_bind; [apply untouched_trans| |].
  { unfold App.cacheDefaultBanks.
    apply preserves_forEach; [apply untouched_refl|apply untouched_trans|].
    intros b Hb.
    apply preserves_bind; [apply untouched_trans|apply untouched_check|]. intros _.
    apply preserves_tryCatch. apply untouched_cacheBank.
    apply includes_elem. exact Hb. }
  intros _.
  apply preserves_bind; [apply untouched_trans| |].
  { unfold App.loadCustomBanks.
    apply preserves_bind; [apply untouched_trans|apply untouched_read|]. intros names.
    destruct (Nat.ltb 0 (length names)); [|apply preserves_ret; apply untouched_refl].
    apply preserves_bind; [apply untouched_trans|apply Hdb; reflexivity|]. intros _.
    apply preserves_bind; [apply untouched_trans| |].
    - generalize ((∅, None) : gmap string (list string) * option (list string)).
      induction names as [|n names IH]; intros acc; simpl.
      + apply preserves_ret. apply untouched_refl.
      + apply preserves_bind; [apply untouched_trans|apply untouched_read|].
        intros bk. apply IH.
    - intros data. apply Hdb. reflexivity. }
  intros _.
  apply preserves_bind; [apply untouched_trans|apply untouched_check|]. intros _.
  apply preserves_bind; [apply untouched_trans|apply Hdb; reflexivity|]. intros _.
  apply Hdb. reflexivity.
Qed.

Lemma untouched_loadBank (memoryBanks : list (string * list string)) (env : App.Env)
    (b : string) (custom : App.Dictionary) :
  preserves (untouched (String.eqb b) noBank) (App.loadBank memoryBanks env b custom).
Proof.
  set (S := String.eqb b).
  assert (S b = true) as HS by apply String.eqb_refl.
  assert (forall (A : Type) (m : App.M A),
            (forall w, App.db (m w).2 = App.db w) ->
            preserves (untouched S noBank) m) as Hdb
    by (intros A m; apply untouched_db).
  unfold App.loadBank.
  apply preserves_bind; [apply untouched_trans| |].
  { unfold App.fetchCustomBank.
    destruct (_ && _); [|apply preserves_ret; apply untouched_refl].
    apply preserves_bind; [apply untouched_trans|apply untouched_read|].
    intros [bk|]; [apply Hdb; reflexivity|apply preserves_ret; apply untouched_refl]. }
  intros _.
  apply preserves_bind; [apply untouched_trans|apply untouched_read|]. intros cached.
  apply preserves_bind; [apply untouched_trans|apply untouched_check|]. intros _.
  cbv zeta.
  destruct (App.lengthDiffersFrom cached _); [|apply Hdb; reflexivity].
  apply preserves_bind; [apply untouched_trans|apply untouched_clear; exact HS|].
  intros _.
  apply preserves_bind; [apply untouched_trans|apply untouched_embedOf|]. intros es.
  apply preserves_bind; [apply untouched_trans|apply untouched_check|]. intros _.
  destruct es as [v|es]; [apply preserves_ret; apply untouched_refl|].
  destruct (App.currentBankContent memoryBanks custom b) as [|texts| | | |];
    try (apply preserves_ret; apply untouched_refl).
  destruct (App.isArrayOfArrays es); [|apply preserves_ret; apply untouched_refl].
  apply preserves_bind; [apply untouched_trans| |].
  { apply untouched_insertAll; [exact HS|apply untouched_check]. }
  intros _.
  apply preserves_bind; [apply untouched_trans|apply untouched_read|]. intros new.
  apply preserves_bind; [apply untouched_trans|apply untouched_check|]. intros _.
  apply Hdb. reflexivity.
Qed.

Lemma untouched_handleSaveCustomBank (env : App.Env) (n inputText : string) :
  preserves (untouched (String.eqb n) (String.eqb n))
    (App.handleSaveCustomBank env n inputText).
Proof.
  set (S := String.eqb n).
  assert (S n = true) as HS by apply String.eqb_refl.
  assert (forall (A : Type) (m : App.M A),
            (forall w, App.db (m w).2 = App.db w) ->
            preserves (untouched S S) m) as Hdb
    by (intros A m; apply untouched_db).
  unfold App.handleSaveCustomBank. cbv zeta.
  destruct (Nat.eqb _ 0); [apply preserves_ret; apply untouched_refl|].
  apply preserves_bind; [apply untouched_trans|apply untouched_embed|]. intros es.
  apply preserves_bind; [apply untouched_trans|apply untouched_save; exact HS|].
  intros _.
  apply preserves_bind; [apply untouched_trans| |].
  { destruct (App.isArrayOfArrays es); [|apply Hdb; reflexivity].
    apply untouched_insertAll; [exact HS|apply preserves_ret; apply untouched_refl]. }
  intros _.
  apply preserves_bind; [apply untouched_trans|apply Hdb; reflexivity|]. intros _.
  apply preserves_bind; [apply untouched_trans|apply Hdb; reflexivity|]. intros _.
  apply Hdb. reflexivity.
Qed.

(** X17. Whatever the store, the provider and the cancellation flag do,
    the asynchronous functions of [App] touch the store only for the banks
    they are about.  [setup] leaves the records of every bank that is not
    built in and every custom bank definition as they were; [loadBank]
    leaves the records of every other bank and every definition; creating
    a bank leaves the records and the definition of every other bank. *)
Theorem operations_touch_only_their_banks
    (memoryBanks : list (string * list string)) (env : App.Env) (w : App.World) :
  (forall b,
     b ∉ App.defaultBankNames memoryBanks ->
     IndexedDB.getRecordsByBank b (App.db (App.setup memoryBanks env w).2)
     = IndexedDB.getRecordsByBank b (App.db w))
  /\ IndexedDB.custom_banks (App.db (App.setup memoryBanks env w).2)
     = IndexedDB.custom_banks (App.db w)
  /\ (forall active custom b,
        b <> active ->
        IndexedDB.getRecordsByBank b
          (App.db (App.loadBank memoryBanks env active custom w).2)
        = IndexedDB.getRecordsByBank b (App.db w))
  /\ (forall active custom,
        IndexedDB.custom_banks (App.db (App.loadBank memoryBanks env active custom w).2)
        = IndexedDB.custom_banks (App.db w))
  /\ (forall n inputText b,
        b <> n ->
        let w' := (App.handleSaveCustomBank env n inputText w).2 in
        IndexedDB.getRecordsByBank b (App.db w')
        = IndexedDB.getRecordsByBank b (App.db w)
        /\ IndexedDB.getCustomBank b (App.db w') = IndexedDB.getCustomBank b (App.db w)).
Proof.
  split; [|split; [|split; [|split]]].
  - intros b Hb. apply (untouched_setup memoryBanks env w).
    apply includes_not_elem. exact Hb.
  - apply map_eq. intros b. apply (untouched_setup memoryBanks env w). reflexivity.
  - intros active custom b Hb. apply (untouched_loadBank memoryBanks env active custom w).
    apply String.eqb_neq. congruence.
  - intros active custom. apply map_eq. intros b.
    apply (untouched_loadBank memoryBanks env active custom w). reflexivity.
  - intros n inputText b Hb. cbv zeta.
    destruct (untouched_handleSaveCustomBank env n inputText w) as [H1 H2].
    assert (String.eqb n b = false) as Hnb by (apply String.eqb_neq; congruence).
    split; [apply H1; exact Hnb|].
    unfold IndexedDB.getCustomBank. rewrite (H2 b Hnb). reflexivity.
Qed.

(** ** The embeddings [loadBank] hands to the search *)

Lemma sameEmbeddings_trans (w1 w2 w3 : App.World) :
  sameEmbeddings w1 w2 -> sameEmbeddings w2 w3 -> sameEmbeddings w1 w3.
Proof. unfold sameEmbeddings. congruence. Qed.

Lemma sameEmbeddings_read {A : Type} (env : App.Env) (f : IndexedDB.Database -> A) :
  preserves sameEmbeddings (App.await_read env f).
Proof.
  intros w. unfold App.await_read.
  destruct (App.storeFails env (App.now w)); reflexivity.
Qed.

Lemma sameEmbeddings_check (env : App.Env) :
  preserves sameEmbeddings (App.returnIfCancelled env).
Proof.
  intros w. unfold App.returnIfCancelled.
  destruct (App.cancelled env (App.now w)); reflexivity.
Qed.

Lemma sameEmbeddings_write (env : App.Env) (e : App.Effect)
    (f : IndexedDB.Database -> IndexedDB.Database) :
  preserves sameEmbeddings (App.await_write env e f).
Proof.
  intros w. unfold App.await_write.
  destruct (App.storeFails env (App.now w)); reflexivity.
Qed.

Lemma sameEmbeddings_embed (env : App.Env) (texts : list string) :
  preserves sameEmbeddings (App.await_generateEmbedding env texts).
Proof.
  intros w. unfold App.await_generateEmbedding.
  destruct (Embedding.generateEmbeddings _ _ _); reflexivity.
Qed.

Lemma sameEmbeddings_insertAll (env : App.Env) (check : App.M unit) (b : string)
    (texts : list string) (embeddings : list IndexedDB.vector) :
  preserves sameEmbeddings check ->
  preserves sameEmbeddings (App.insertAll env check b texts embeddings).
Proof.
  intros Hcheck. unfold App.insertAll.
  apply preserves_forEach; [reflexivity|apply sameEmbeddings_trans|].
  intros j _.
  apply preserves_bind; [apply sameEmbeddings_trans|exact Hcheck|]. intros _.
  apply preserves_bind; [apply sameEmbeddings_trans| |].
  - intros w. unfold App.await_addRecord.
    destruct (App.storeFails env (App.now w)); reflexivity.
  - intros _ w. reflexivity.
Qed.

Lemma sameEmbeddings_embedOf (env : App.Env) (content : Js.value) :
  preserves sameEmbeddings (App.await_generateEmbeddingOf env content).
Proof.
  intros w. unfold App.await_generateEmbeddingOf.
  destruct (Embedding.generateEmbeddingOf _ _ _); reflexivity.
Qed.

Lemma sameEmbeddings_fetch (memoryBanks : list (string * list string))
    (env : App.Env) (b : string) (custom : App.Dictionary) :
  preserves sameEmbeddings (App.fetchCustomBank memoryBanks env b custom).
Proof.
  unfold App.fetchCustomBank. destruct (_ && _); [|intros w; reflexivity].
  apply preserves_bind; [apply sameEmbeddings_trans|apply sameEmbeddings_read|].
  intros [bk|] w; reflexivity.
Qed.

Lemma embeddingsInStep_bind {A : Type} (b : string)
    (e0 : option (list IndexedDB.vector)) (m : App.M A) (k : A -> App.M unit)
    (w : App.World) :
  preserves sameEmbeddings m ->
  App.memoryBankEmbeddings w = e0 ->
  (forall a w1, App.memoryBankEmbeddings w1 = e0 -> embeddingsInStep b e0 (k a w1)) ->
  embeddingsInStep b e0 ((m ≫= k) w).
Proof.
  intros Hm Hw Hk. unfold mbind, App.M_bind. specialize (Hm w).
  unfold sameEmbeddings in Hm.
  destruct (m w) as [[a| |] w1]; simpl in Hm.
  - apply Hk. congruence.
  - left. simpl. congruence.
  - left. simpl. congruence.
Qed.

(** X18. Whatever happens during [loadBank], the embeddings the search
    uses are afterwards either the ones from before the call, or the call
    has completed and they are, in order, the embeddings of exactly the
    records the store then holds for the bank.  A call that is cancelled or
    fails leaves them as they were. *)
Theorem loadBank_embeddings_match_the_store
    (memoryBanks : list (string * list string)) (env : App.Env) (b : string)
    (custom : App.Dictionary) (w : App.World) :
  let r := App.loadBank memoryBanks env b custom w in
  embeddingsInStep b (App.memoryBankEmbeddings w) r
  /\ (r.1 <> App.Normal tt ->
      App.memoryBankEmbeddings r.2 = App.memoryBankEmbeddings w).
Proof.
  cbv zeta.
  assert (embeddingsInStep b (App.memoryBankEmbeddings w)
            (App.loadBank memoryBanks env b custom w)) as Hstep.
  { set (e0 := App.memoryBankEmbeddings w).
    unfold App.loadBank.
    apply embeddingsInStep_bind; [apply sameEmbeddings_fetch|reflexivity|].
    intros _ w1 Hw1.
    unfold mbind at 1, App.M_bind at 1. unfold App.await_read at 1.
    destruct (App.storeFails env (App.now w1)); [left; exact Hw1|].
    unfold mbind at 1, App.M_bind at 1. unfold App.returnIfCancelled at 1.
    cbn [App.now App.tick].
    destruct (App.cancelled env (S (App.now w1))); [left; exact Hw1|].
    cbv zeta.
    destruct (App.lengthDiffersFrom _ _).
    - apply embeddingsInStep_bind; [apply sameEmbeddings_write|exact Hw1|].
      intros _ w2 Hw2.
      apply embeddingsInStep_bind; [apply sameEmbeddings_embedOf|exact Hw2|].
      intros es w3 Hw3.
      apply embeddingsInStep_bind; [apply sameEmbeddings_check|exact Hw3|].
      intros _ w4 Hw4.
      destruct es as [v|es]; [left; exact Hw4|].
      destruct (App.currentBankContent memoryBanks custom b) as [|texts| | | |];
        try (left; exact Hw4).
      destruct (App.isArrayOfArrays es); [|left; exact Hw4].
      apply embeddingsInStep_bind;
        [apply sameEmbeddings_insertAll; apply sameEmbeddings_check|exact Hw4|].
      intros _ w5 Hw5.
      unfold mbind, App.M_bind, App.await_read, App.returnIfCancelled.
      destruct (App.storeFails env (App.now w5)); [left; exact Hw5|].
      cbn [App.now App.tick].
      destruct (App.cancelled env (S (App.now w5))); [left; exact Hw5|].
      right. split; reflexivity.
    - right. split; reflexivity. }
  split; [exact Hstep|].
  intros Hne. destruct Hstep as [H|[H _]]; [exact H|contradiction].
Qed.

(** ** Start-up without the embedding provider *)

(** X19. When the store answers and the effect is not cancelled, [setup]
    ends the loading state whatever the embedding provider does, a model
    that failed to load included: the custom banks of the store are then
    listed after the built-in ones, in the ascending order of their names
    in which [getAllKeys] answers; the content of each is what the
    interface reads under its name (as a property of [customBankData], or,
    for the bank stored as [__proto__], as the prototype the assignment
    has installed); and the stored definitions are unchanged.  A [setup]
    whose effect is cancelled from the start writes nothing and leaves the
    loading state on. *)
Theorem setup_ends_loading_without_provider
    (memoryBanks : list (string * list string)) (env : App.Env)
    (d : IndexedDB.Database) :
  App.storeReliable env ->
  let w' := (App.setup memoryBanks env (App.mount memoryBanks d)).2 in
  (neverCancelled env ->
   App.isAppLoading w' = false
   /\ App.availableBanks w'
      = App.defaultBankNames memoryBanks ++ IndexedDB.getAllCustomBankNames d
   /\ Sorted (fun a b => String.leb a b = true) (IndexedDB.getAllCustomBankNames d)
   /\ App.customBankData w' = delete "__proto__" (IndexedDB.custom_banks d)
   /\ App.customBankPrototype w' = IndexedDB.custom_banks d !! "__proto__"
   /\ (forall arrayProperty n content,
         IndexedDB.custom_banks d !! n = Some content ->
         App.get (App.customBankObject arrayProperty w') n = Js.Arr content)
   /\ IndexedDB.custom_banks (App.db w') = IndexedDB.custom_banks d)
  /\ (App.cancelled env 1 = true ->
      App.isAppLoading w' = true /\ App.effects w' = [] /\ App.db w' = d
      /\ App.availableBanks w' = App.defaultBankNames memoryBanks).
Proof.
  intros Hrel. cbv zeta. split.
  - intros Hnc.
    destruct (setup_run memoryBanks env d) as (o & w' & Hrun & Hcb & _ & Hlist & Hdone).
    rewrite Hrun. simpl. destruct (Hdone Hnc Hrel) as (Hload & Hown & Hproto).
    split; [exact Hload|]. split; [exact (Hlist Hload)|].
    split; [apply inKeyOrder_Sorted|].
    split; [exact Hown|]. split; [exact Hproto|]. split; [|exact Hcb].
    intros arrayProperty n content Hn.
    unfold App.get, App.customBankObject. cbn [App.properties App.inherited].
    rewrite Hown, Hproto.
    destruct (decide (n = "__proto__")) as [->|Hne].
    + rewrite lookup_delete_eq, Hn. reflexivity.
    + rewrite lookup_delete_ne by congruence. rewrite Hn. reflexivity.
  - intros Hc. unfold App.setup, mbind, App.M_bind, App.returnIfCancelled. simpl.
    rewrite Hc. simpl. repeat split.
Qed.

Lemma setup_ends_loading_without_provider_witness :
  let w' := (App.setup Fixture.builtin
               (App.mkEnv None (fun _ => false) (fun _ => false))
               (App.mount Fixture.builtin Fixture.threeCustomBanks)).2 in
  App.isAppLoading w' = false
  /\ App.availableBanks w'
     = ["General"; "Programming"; "Science"; "Other"; "Mine"; "Zeta"; "alpha"].
Proof.
  destruct (proj1 (setup_ends_loading_without_provider Fixture.builtin
                     (App.mkEnv None (fun _ => false) (fun _ => false))
                     Fixture.threeCustomBanks (fun t => eq_refl))
              (fun t => eq_refl)) as (Hload & Hlist & _).
  split; [exact Hload|]. cbv zeta. rewrite Hlist. vm_compute. reflexivity.
Defined.

(** ** The custom banks a session can leave in the store *)

Lemma trimEnd_idem (s : string) : Js.trimEnd (Js.trimEnd s) = Js.trimEnd s.
Proof.
  induction s as [|c s IH]; [reflexivity|]. cbn [Js.trimEnd].
  destruct (Js.trimEnd s) as [|d r] eqn:Hs.
  - destruct (Js.isWhiteSpace c) eqn:Hc; [reflexivity|].
    cbn [Js.trimEnd]. rewrite Hc. reflexivity.
  - cbn [Js.trimEnd] in IH |- *.
    change (match Js.trimEnd r with
            | EmptyString => if Js.isWhiteSpace d then EmptyString
                             else String d EmptyString
            | String a s0 => String d (String a s0)
            end) with (Js.trimEnd (String d r)) in *.
    rewrite IH. reflexivity.
Qed.

Lemma trimStart_head (s : string) (c : ascii) (r : string) :
  Js.trimStart s = String c r -> Js.isWhiteSpace c = false.
Proof.
  induction s as [|d s IH]; [discriminate|]. cbn [Js.trimStart].
  destruct (Js.isWhiteSpace d) eqn:Hd; [exact IH|]. intros [= <- <-]. exact Hd.
Qed.

Lemma trim_idem (s : string) : Js.trim (Js.trim s) = Js.trim s.
Proof.
  unfold Js.trim. destruct (Js.trimStart s) as [|c r] eqn:Hs; [reflexivity|].
  apply trimStart_head in Hs.
  assert (exists r', Js.trimEnd (String c r) = String c r') as [r' Hr'].
  { cbn [Js.trimEnd]. destruct (Js.trimEnd r); [rewrite Hs|]; eexists; reflexivity. }
  rewrite Hr'. cbn [Js.trimStart]. rewrite Hs, <- Hr'. apply trimEnd_idem.
Qed.

Lemma content_wellFormed (inputText : string) :
  Forall (fun line => line <> EmptyString /\ Js.trim line = line)
    (List.filter Js.truthy (Js.trim <$> Js.split_newline inputText)).
Proof.
  apply Forall_forall. intros line Hin. apply list_elem_of_In in Hin.
  apply filter_In in Hin as [Hin Htruthy]. split.
  - unfold Js.truthy in Htruthy. apply negb_true_iff in Htruthy.
    apply String.eqb_neq. exact Htruthy.
  - apply list_elem_of_In in Hin. apply list_elem_of_fmap in Hin as (x & -> & _).
    apply trim_idem.
Qed.

Lemma savedOrSame_trans (n : string) (content : list string) (w1 w2 w3 : App.World) :
  savedOrSame n content w1 w2 -> savedOrSame n content w2 w3 ->
  savedOrSame n content w1 w3.
Proof.
  unfold savedOrSame. intros [H1|H1] [H2|H2]; rewrite H2, H1; auto.
  right. apply insert_insert_eq.
Qed.

Lemma savedOrSame_frame {A : Type} (n : string) (content : list string) (m : App.M A) :
  keepsFrame m -> preserves (savedOrSame n content) m.
Proof. intros H w. left. apply (H w). Qed.

Lemma handleSaveCustomBank_definitions (env : App.Env) (n inputText : string) :
  preserves
    (savedOrSame n (List.filter Js.truthy (Js.trim <$> Js.split_newline inputText)))
    (App.handleSaveCustomBank env n inputText).
Proof.
  unfold App.handleSaveCustomBank. cbv zeta.
  set (content := List.filter Js.truthy (Js.trim <$> Js.split_newline inputText)).
  assert (forall w, savedOrSame n content w w) as Hrefl by (intros w; left; reflexivity).
  assert (forall (A : Type) (m : App.M A),
            (forall w, App.db (m w).2 = App.db w) ->
            preserves (savedOrSame n content) m) as Hdb
    by (intros A m H w; left; rewrite H; reflexivity).
  destruct (Nat.eqb _ 0); [apply preserves_ret; exact Hrefl|].
  apply preserves_bind; [apply savedOrSame_trans| |].
  { apply savedOrSame_frame. apply keepsFrame_embed. }
  intros es.
  apply preserves_bind; [apply savedOrSame_trans| |].
  { intros w. unfold App.await_write.
    destruct (App.storeFails env (App.now w)); [left|right]; reflexivity. }
  intros _.
  apply preserves_bind; [apply savedOrSame_trans| |].
  { destruct (App.isArrayOfArrays es); [|apply Hdb; reflexivity].
    apply savedOrSame_frame. apply keepsFrame_insertAll. apply keepsFrame_ret. }
  intros _.
  apply preserves_bind; [apply savedOrSame_trans|apply Hdb; reflexivity|]. intros _.
  apply preserves_bind; [apply savedOrSame_trans|apply Hdb; reflexivity|]. intros _.
  apply Hdb. reflexivity.
Qed.

(** X20. Every custom bank a session leaves in the store is one the modal
    let through: its name is trimmed and not empty, and it has between 1
    and 20 entries, each a trimmed line that is not empty.  This holds in
    every state a session reaches from a fresh installation by loading the
    page, synchronising the active bank, selecting, creating and deleting
    banks, whether or not the provider delivered and whichever requests
    the store rejected. *)
Theorem stored_banks_are_well_formed (memoryBanks : list (string * list string))
    (w : App.World) :
  App.sessionReachable memoryBanks w ->
  forall n content,
    IndexedDB.getCustomBank n (App.db w) = Some (IndexedDB.mkBank n content) ->
    wellFormedBank n content.
Proof.
  intros Hreach.
  assert (forall n content,
            IndexedDB.custom_banks (App.db w) !! n = Some content ->
            wellFormedBank n content) as Hinv.
  { induction Hreach as [|w w' _ IH Hstep].
    - intros n content H. simpl in H. rewrite lookup_empty in H. discriminate.
    - destruct Hstep as [env w|env arrayProperty w Hload|bankName w Hload Hshown Hin
                        |env bankName inputText w Hload Hshown
                        |env b w Hload Hshown Hin Hcustom].
      + destruct (setup_run memoryBanks env (App.db w)) as (o & w' & Hrun & Hcb & _).
        rewrite Hrun. simpl. rewrite Hcb. exact IH.
      + intros n content.
        rewrite (proj2 (untouched_loadBank memoryBanks env (App.activeBank w)
                          (App.customBankObject arrayProperty w) w) n eq_refl).
        apply IH.
      + exact IH.
      + unfold App.saveBankClicked.
        destruct (App.handleSave _ bankName inputText) as [msg|n0 t] eqn:Hsave;
          [exact IH|].
        apply handleSave_OnSave in Hsave as (-> & -> & Hn & _ & Hpos & Hmax).
        pose proof (handleSaveCustomBank_definitions env (Js.trim bankName)
                      inputText w) as Hdef.
        assert (IndexedDB.custom_banks
                  (App.db (match App.handleSaveCustomBank env (Js.trim bankName)
                                   inputText w with
                           | (App.Thrown, w') =>
                               (App.ShowsError
                                  "Failed to save and embed the bank. Please try again.",
                                w')
                           | (_, w') => (App.Closed, w')
                           end).2)
                = IndexedDB.custom_banks
                    (App.db (App.handleSaveCustomBank env (Js.trim bankName)
                               inputText w).2)) as ->
          by (destruct (App.handleSaveCustomBank _ _ _ _) as [[[]| |] ?]; reflexivity).
        destruct Hdef as [Hdef|Hdef]; rewrite Hdef; [exact IH|].
        intros n content Hlook.
        destruct (decide (n = Js.trim bankName)) as [->|Hne].
        * rewrite lookup_insert_eq in Hlook. injection Hlook as <-.
          split; [exact Hn|]. split; [apply trim_idem|].
          split; [rewrite content_length; lia|apply content_wellFormed].
        * rewrite lookup_insert_ne in Hlook by congruence. apply IH. exact Hlook.
      + destruct (handleConfirmDelete_run env b w) as (w' & Hrun & _ & Hcases & _).
        rewrite Hrun. simpl.
        assert (IndexedDB.custom_banks (App.db w') = IndexedDB.custom_banks (App.db w)
                \/ IndexedDB.custom_banks (App.db w')
                   = delete b (IndexedDB.custom_banks (App.db w))) as [Hcb|Hcb].
        { destruct Hcases as [[H _]|[[H _]|[H _]]]; auto. }
        * rewrite Hcb. exact IH.
        * rewrite Hcb. intros n content Hlook.
          apply lookup_delete_Some in Hlook as [_ Hlook]. apply IH. exact Hlook. }
  intros n content Hget. unfold IndexedDB.getCustomBank in Hget.
  destruct (IndexedDB.custom_banks (App.db w) !! n) as [c|] eqn:Hc; [|discriminate].
  simpl in Hget. injection Hget as <-. apply Hinv. exact Hc.
Qed.

Lemma stored_banks_are_well_formed_witness :
  wellFormedBank "Mine" ["a fact"].
Proof.
  apply (stored_banks_are_well_formed Fixture.builtin Fixture.afterCreation
           afterCreation_reachable "Mine" ["a fact"]).
  vm_compute. reflexivity.
Defined.

(** ** The history of the open requests and of the model loads *)

Lemma history_open {A : Type} (ps : list (IndexedDB.settled A)) :
  history ps None -> history (ps ++ [IndexedDB.Pending]) (Some (length ps)).
Proof.
  intros [[_ Hall]|(pre & s & _ & _ & _ & Hc)]; [|discriminate].
  right. exists ps, IndexedDB.Pending. repeat split; [exact Hall|discriminate].
Qed.

Lemma history_pending {A : Type} (ps : list (IndexedDB.settled A))
    (cached : option nat) (p : nat) :
  history ps cached -> ps !! p = Some IndexedDB.Pending ->
  exists pre,
    ps = pre ++ [IndexedDB.Pending]
    /\ Forall (fun s => s = IndexedDB.Rejected) pre
    /\ cached = Some (length pre) /\ p = length pre.
Proof.
  intros [[_ Hall]|(pre & s & -> & Hpre & Hs & Hc)] Hp.
  - rewrite Forall_forall in Hall.
    specialize (Hall _ (list_elem_of_lookup_2 _ _ _ Hp)). discriminate.
  - destruct (decide (p < length pre)) as [Hlt|Hge].
    + rewrite lookup_app_l in Hp by exact Hlt. rewrite Forall_forall in Hpre.
      specialize (Hpre _ (list_elem_of_lookup_2 _ _ _ Hp)). discriminate.
    + pose proof (lookup_lt_Some _ _ _ Hp) as Hlen. rewrite length_app in Hlen.
      simpl in Hlen. assert (p = length pre) as -> by lia.
      rewrite list_lookup_middle in Hp by reflexivity. injection Hp as ->.
      exists pre. auto.
Qed.

Lemma insert_last {A : Type} (pre : list A) (x y : A) :
  <[length pre := y]> (pre ++ [x]) = pre ++ [y].
Proof. induction pre as [|a pre IH]; [reflexivity|]. simpl. rewrite IH. reflexivity. Qed.

Lemma history_settled {A : Type} (ps : list (IndexedDB.settled A))
    (cached : option nat) (p : nat) (a : A) :
  history ps cached -> ps !! p = Some IndexedDB.Pending ->
  history (<[p := IndexedDB.Fulfilled a]> ps) cached
  /\ history (<[p := IndexedDB.Rejected]> ps) None.
Proof.
  intros Hh Hp. destruct (history_pending ps cached p Hh Hp) as (pre & -> & Hpre & -> & ->).
  rewrite !insert_last. split.
  - right. exists pre, (IndexedDB.Fulfilled a). repeat split; [exact Hpre|discriminate].
  - left. split; [reflexivity|]. apply Forall_app. split; [exact Hpre|].
    repeat constructor.
Qed.

Lemma history_opens {A : Type} (ps : list (IndexedDB.settled A))
    (cached : option nat) :
  history ps cached -> historyOfOpens ps cached.
Proof.
  intros [H|(pre & s & H1 & H2 & _ & H3)]; [left; exact H|].
  right. exists pre, s. auto.
Qed.

Lemma historyOfOpens_settled {A : Type} (ps : list (IndexedDB.settled A))
    (cached : option nat) (p : nat) (a : A) :
  historyOfOpens ps cached -> ps !! p = Some IndexedDB.Pending ->
  historyOfOpens (<[p := IndexedDB.Fulfilled a]> ps) cached
  /\ historyOfOpens (<[p := IndexedDB.Rejected]> ps) None.
Proof.
  intros [[_ Hall]|(pre & s & -> & Hpre & ->)] Hp.
  - rewrite Forall_forall in Hall.
    specialize (Hall _ (list_elem_of_lookup_2 _ _ _ Hp)). discriminate.
  - assert (p = length pre) as ->.
    { destruct (decide (p < length pre)) as [Hlt|Hge].
      - rewrite lookup_app_l in Hp by exact Hlt. rewrite Forall_forall in Hpre.
        specialize (Hpre _ (list_elem_of_lookup_2 _ _ _ Hp)). discriminate.
      - pose proof (lookup_lt_Some _ _ _ Hp) as Hlen. rewrite length_app in Hlen.
        simpl in Hlen. lia. }
    rewrite !insert_last. split.
    + right. exists pre, (IndexedDB.Fulfilled a). auto.
    + left. split; [reflexivity|]. apply Forall_app. split; [exact Hpre|].
      repeat constructor.
Qed.

Lemma history_one_live {A : Type} (ps : list (IndexedDB.settled A))
    (cached : option nat) (p q : nat) (sp sq : IndexedDB.settled A) :
  historyOfOpens ps cached ->
  ps !! p = Some sp -> sp <> IndexedDB.Rejected ->
  ps !! q = Some sq -> sq <> IndexedDB.Rejected ->
  p = q /\ cached = Some p /\ S p = length ps.
Proof.
  assert (forall pre (s : IndexedDB.settled A) i si,
            Forall (fun s => s = IndexedDB.Rejected) pre ->
            (pre ++ [s]) !! i = Some si -> si <> IndexedDB.Rejected ->
            i = length pre) as Hlast.
  { intros pre s i si Hpre Hi Hsi.
    destruct (decide (i < length pre)) as [Hlt|Hge].
    - rewrite lookup_app_l in Hi by exact Hlt. rewrite Forall_forall in Hpre.
      specialize (Hpre _ (list_elem_of_lookup_2 _ _ _ Hi)). contradiction.
    - pose proof (lookup_lt_Some _ _ _ Hi) as Hlen. rewrite length_app in Hlen.
      simpl in Hlen. lia. }
  intros [[_ Hall]|(pre & s & -> & Hpre & ->)] Hp Hsp Hq Hsq.
  - rewrite Forall_forall in Hall.
    specialize (Hall _ (list_elem_of_lookup_2 _ _ _ Hp)). contradiction.
  - rewrite (Hlast pre s p sp Hpre Hp Hsp), (Hlast pre s q sq Hpre Hq Hsq).
    rewrite length_app. simpl. repeat split. lia.
Qed.

(** X21. At every moment at most one open request of the store is pending
    or fulfilled, and it is the latest one and the cached one: every
    earlier request was rejected, and a request is issued only when none
    is cached.  A request is no longer cached once it has failed through
    [onerror]; one whose [indexedDB.open] threw stays cached, as the last
    request for good.  For the loads of the embedding model the same holds,
    and there the cached load is never a rejected one. *)
Theorem one_live_request_at_a_time :
  (forall c, IndexedDB.reachable c ->
     historyOfOpens (IndexedDB.promises c) (IndexedDB.dbPromise c)
     /\ forall p q sp sq,
          IndexedDB.promises c !! p = Some sp -> sp <> IndexedDB.Rejected ->
          IndexedDB.promises c !! q = Some sq -> sq <> IndexedDB.Rejected ->
          p = q /\ IndexedDB.dbPromise c = Some p
          /\ S p = length (IndexedDB.promises c))
  /\ (forall l, Embedding.reachable l ->
        history (Embedding.loads l) (Embedding.instancePromise l)
        /\ forall p q sp sq,
             Embedding.loads l !! p = Some sp -> sp <> IndexedDB.Rejected ->
             Embedding.loads l !! q = Some sq -> sq <> IndexedDB.Rejected ->
             p = q /\ Embedding.instancePromise l = Some p
             /\ S p = length (Embedding.loads l)).
Proof.
  split.
  - intros c Hreach.
    assert (historyOfOpens (IndexedDB.promises c) (IndexedDB.dbPromise c)) as Hh.
    { induction Hreach as [|c c' _ IH Hstep].
      - left. split; [reflexivity|constructor].
      - destruct Hstep as [b c|c p h Hp|c p Hp].
        + unfold IndexedDB.openDB.
          destruct (IndexedDB.dbPromise c) as [p|] eqn:Hc;
            cbn [snd IndexedDB.dbPromise IndexedDB.promises].
          * rewrite Hc. exact IH.
          * destruct IH as [[_ Hall]|(pre & s & _ & _ & Hsome)]; [|discriminate].
            right. eexists _, _. split; [reflexivity|]. split; [exact Hall|reflexivity].
        + apply (historyOfOpens_settled _ _ p h IH Hp).
        + apply (historyOfOpens_settled _ _ p 0 IH Hp). }
    split; [exact Hh|]. intros p q sp sq Hp Hsp Hq Hsq.
    eapply history_one_live; eassumption.
  - intros l Hreach.
    assert (history (Embedding.loads l) (Embedding.instancePromise l)) as Hh.
    { induction Hreach as [|l l' _ IH Hstep].
      - left. split; [reflexivity|constructor].
      - destruct Hstep as [l|l p i Hp|l p Hp].
        + unfold Embedding.getInstance.
          destruct (Embedding.instance l) as [i|]; [exact IH|].
          destruct (Embedding.instancePromise l) as [p|] eqn:Hc; simpl.
          * rewrite Hc. exact IH.
          * apply history_open. exact IH.
        + apply (history_settled _ _ p i IH Hp).
        + apply (history_settled _ _ p 0 IH Hp). }
    split; [exact Hh|]. intros p q sp sq Hp Hsp Hq Hsq.
    eapply history_one_live; [apply history_opens; exact Hh|eassumption..].
Qed.

Lemma one_live_request_at_a_time_witness :
  historyOfOpens [IndexedDB.Rejected; IndexedDB.Rejected (A := nat)] (Some 1)
  /\ history [IndexedDB.Rejected; IndexedDB.Pending (A := nat)] (Some 1).
Proof.
  split.
  - apply (proj1 (proj1 one_live_request_at_a_time
                    (IndexedDB.openDB true
                       (IndexedDB.onerror 0
                          (IndexedDB.openDB false IndexedDB.initial).2)).2
                    (IndexedDB.reach_step _ _
                       (IndexedDB.reach_step _ _
                          (IndexedDB.reach_step _ _ IndexedDB.reach_initial
                             (IndexedDB.step_call false IndexedDB.initial))
                          (IndexedDB.step_error
                             (IndexedDB.openDB false IndexedDB.initial).2 0 eq_refl))
                       (IndexedDB.step_call true _)))).
  - apply (proj1 (proj2 one_live_request_at_a_time
                    (Embedding.getInstance
                       (Embedding.loadFailed 0
                          (Embedding.getInstance Embedding.initial).2)).2
                    (Embedding.reach_step _ _
                       (Embedding.reach_step _ _
                          (Embedding.reach_step _ _ Embedding.reach_initial
                             (Embedding.step_call Embedding.initial))
                          (Embedding.step_failure
                             (Embedding.getInstance Embedding.initial).2 0 eq_refl))
                       (Embedding.step_call _)))).
Defined.

(** ** The tiers are ordered *)

(** X22. [getRelevance] is monotone: a score that is at least another
    score is never classified in a lower tier. *)
Theorem getRelevance_is_monotone (s t : Q) :
  (s <= t)%Q ->
  tier (Relevance.getRelevance (Js.Num s)) <= tier (Relevance.getRelevance (Js.Num t)).
Proof.
  intros Hle. unfold Relevance.getRelevance.
  destruct (Js.gt (Js.Num s) (Js.Num (49 # 100))) eqn:Hs1.
  - apply gt_Num_spec in Hs1.
    rewrite (proj2 (gt_Num_spec t (49 # 100))); [simpl; lia|].
    eapply Qlt_le_trans; eassumption.
  - destruct (Js.gt (Js.Num s) (Js.Num (38 # 100))) eqn:Hs2.
    + apply gt_Num_spec in Hs2.
      destruct (Js.gt (Js.Num t) (Js.Num (49 # 100))); [simpl; lia|].
      rewrite (proj2 (gt_Num_spec t (38 # 100))); [simpl; lia|].
      eapply Qlt_le_trans; eassumption.
    + simpl. lia.
Qed.

Lemma getRelevance_is_monotone_witness :
  tier (Relevance.getRelevance (Js.Num (2 # 5)))
  <= tier (Relevance.getRelevance (Js.Num (1 # 2))).
Proof.
  apply (getRelevance_is_monotone (2 # 5) (1 # 2)). discriminate.
Defined.

(** ** A synchronisation that went through leaves nothing to do *)

Lemma needsGeneration_false (cached : list IndexedDB.MemoryRecord)
    (content : list string) :
  App.needsGeneration cached content = false -> content = IndexedDB.text <$> cached.
Proof.
  unfold App.needsGeneration. intros H. apply orb_false_iff in H as [Hlen Hevery].
  apply negb_false_iff in Hlen. apply Nat.eqb_eq in Hlen.
  apply negb_false_iff in Hevery. rewrite every_text in Hevery.
  apply list_eq. intros i. rewrite list_lookup_fmap.
  destruct (cached !! i) as [r|] eqn:Hr; simpl.
  - apply Hevery. exact Hr.
  - apply lookup_ge_None. rewrite <- Hlen. apply lookup_ge_None. exact Hr.
Qed.

(** X23. After a synchronisation of [setup] that was not cancelled and for
    which the store and the provider delivered, the bank's records carry
    exactly the declared texts in order, whatever was cached before; so
    neither staleness test fires any more, and synchronising again changes
    nothing in the store and issues no request. *)
Theorem synchronisation_is_idempotent (env : App.Env) (b : string)
    (content : list string) (vs : list IndexedDB.vector) (w : App.World) :
  neverCancelled env -> App.storeReliable env ->
  Embedding.generateEmbeddings (App.loaded env) content Embedding.noOptions = Some vs ->
  let w1 := (App.cacheBank env b content w).2 in
  let cached := IndexedDB.getRecordsByBank b (App.db w1) in
  IndexedDB.text <$> cached = content
  /\ App.needsGeneration cached content = false
  /\ App.lengthDiffers cached content = false
  /\ App.db (App.cacheBank env b content w1).2 = App.db w1
  /\ App.effects (App.cacheBank env b content w1).2 = App.effects w1.
Proof.
  intros Hnc Hrel Hemb. cbv zeta.
  assert (IndexedDB.text <$> IndexedDB.getRecordsByBank b
            (App.db (App.cacheBank env b content w).2) = content) as Htexts.
  { destruct (App.needsGeneration (IndexedDB.getRecordsByBank b (App.db w)) content)
      eqn:Hstale.
    - rewrite (cacheBank_stale env b content vs w Hnc Hrel Hemb Hstale). simpl.
      pose proof (generateEmbeddings_length _ _ _ _ Hemb) as Hlen.
      destruct (cleared_replaced env b content vs w w _ Hlen eq_refl eq_refl
                  eq_refl eq_refl) as (_ & _ & Ht & _).
      exact Ht.
    - apply needsGeneration_false in Hstale. subst content.
      destruct (cacheBank_same_texts env b w) as (o & w' & Hrun & Hdb & _).
      rewrite Hrun. simpl. rewrite Hdb. reflexivity. }
  split; [exact Htexts|].
  set (w1 := (App.cacheBank env b content w).2) in *.
  rewrite <- Htexts.
  split; [apply needsGeneration_same_texts|].
  split; [apply lengthDiffers_same_texts|].
  destruct (cacheBank_same_texts env b w1) as (o & w' & Hrun & Hdb & Heff).
  rewrite Hrun. split; assumption.
Qed.

Lemma synchronisation_is_idempotent_witness :
  IndexedDB.text <$>
    IndexedDB.getRecordsByBank "General"
      (App.db (App.cacheBank Fixture.env "General" Fixture.five
                 (App.mount Fixture.builtin Fixture.cachedFive)).2)
  = Fixture.five.
Proof.
  refine (proj1 (synchronisation_is_idempotent Fixture.env "General" Fixture.five
                   [Fixture.e1; Fixture.e1; Fixture.e1; Fixture.e1; Fixture.e1]
                   (App.mount Fixture.builtin Fixture.cachedFive) _ _ _)).
  - intros t. reflexivity.
  - intros t. reflexivity.
  - reflexivity.
Defined.

(** ** A bank whose content the render does not know *)

(** X24. [loadBank] takes the content of the bank from the render that
    started it.  When what it reads there is the empty list while the
    store holds records of the bank, as for a custom bank the render does
    not know yet and whose name no object inherits a property for, the
    records are deleted and nothing is put in their place: the provider is
    asked for the embeddings of no text, no record is inserted, and the
    embeddings the search uses stay those of the bank shown before. *)
Theorem loadBank_without_content_empties_the_cache
    (memoryBanks : list (string * list string)) (env : App.Env) (b : string)
    (custom : App.Dictionary) (w : App.World) :
  neverCancelled env -> App.storeReliable env ->
  is_Some (App.loaded env) ->
  App.currentBankContent memoryBanks custom b = Js.Arr [] ->
  IndexedDB.getRecordsByBank b (App.db w) <> [] ->
  let r := App.loadBank memoryBanks env b custom w in
  r.1 = App.Normal tt
  /\ IndexedDB.getRecordsByBank b (App.db r.2) = []
  /\ App.effects r.2 = App.effects w ++ [App.ClearRecords b; App.EmbedRequest []]
  /\ App.memoryBankEmbeddings r.2 = App.memoryBankEmbeddings w
  /\ IndexedDB.custom_banks (App.db r.2) = IndexedDB.custom_banks (App.db w).
Proof.
  intros Hnc Hrel [inst Hinst] Hcontent Hcached. cbv zeta.
  assert (exists w',
            App.loadBank memoryBanks env b custom w = (App.Normal tt, w')
            /\ App.db w' = IndexedDB.clearRecordsByBank b (App.db w)
            /\ App.effects w'
               = App.effects w ++ [App.ClearRecords b; App.EmbedRequest []]
            /\ App.memoryBankEmbeddings w' = App.memoryBankEmbeddings w)
    as (w' & -> & Hdb' & Heff' & Hmbe'); [|simpl; rewrite Hdb'; repeat split;
      [unfold IndexedDB.getRecordsByBank; simpl; apply filter_bank_cleared
      |exact Heff'|exact Hmbe']].
  unfold App.loadBank.
  destruct (fetchCustomBank_run memoryBanks env b custom w)
    as (o & w1 & Hrun & Hdb & Heff & _ & Hmbe & _ & Hok).
  rewrite (Hok Hrel) in Hrun.
  unfold mbind at 1, App.M_bind at 1. rewrite Hrun.
  unfold mbind at 1, App.M_bind at 1. rewrite await_read_reliable by exact Hrel.
  unfold mbind at 1, App.M_bind at 1. rewrite returnIfCancelled_never by exact Hnc.
  cbv zeta. rewrite Hcontent, Hdb.
  assert (App.lengthDiffersFrom (IndexedDB.getRecordsByBank b (App.db w)) (Js.Arr [])
          = true) as ->.
  { unfold App.lengthDiffersFrom. simpl.
    destruct (IndexedDB.getRecordsByBank b (App.db w)); [contradiction|reflexivity]. }
  unfold mbind at 1, App.M_bind at 1. rewrite await_write_reliable by exact Hrel.
  unfold mbind at 1, App.M_bind at 1. unfold App.await_generateEmbeddingOf at 1.
  rewrite Hinst.
  assert (Embedding.generateEmbeddingOf (Some inst) (Js.Arr []) Embedding.noOptions
          = Some (Embedding.Many [])) as -> by reflexivity.
  cbv zeta.
  unfold mbind at 1, App.M_bind at 1. rewrite returnIfCancelled_never by exact Hnc.
  cbn [App.isArrayOfArrays]. eexists. split; [reflexivity|]. simpl.
  split; [rewrite Hdb; reflexivity|].
  split; [rewrite Heff, <- app_assoc; reflexivity|exact Hmbe].
Qed.

Lemma loadBank_without_content_empties_the_cache_witness :
  IndexedDB.getRecordsByBank "Mine"
    (App.db (App.loadBank Fixture.builtin Fixture.env "Mine" ∅
               (App.mount Fixture.builtin
                  (IndexedDB.mkDb [IndexedDB.mkRecord 1 "a fact" Fixture.e1 "Mine"] 2
                     {["Mine" := ["a fact"]]}))).2) = [].
Proof.
  refine (proj1 (proj2 (loadBank_without_content_empties_the_cache Fixture.builtin
                          Fixture.env "Mine" ∅
                          (App.mount Fixture.builtin
                             (IndexedDB.mkDb
                                [IndexedDB.mkRecord 1 "a fact" Fixture.e1 "Mine"] 2
                                {["Mine" := ["a fact"]]})) _ _ _ _ _))).
  - intros t. reflexivity.
  - intros t. reflexivity.
  - eexists. reflexivity.
  - reflexivity.
  - discriminate.
Defined.

(** ** A creation is listed when it is complete *)

Lemma interfaceKept_refl (w : App.World) : interfaceKept w w.
Proof. repeat split. Qed.

Lemma interfaceKept_trans (w1 w2 w3 : App.World) :
  interfaceKept w1 w2 -> interfaceKept w2 w3 -> interfaceKept w1 w3.
Proof.
  intros (A1 & A2 & A3 & A4) (B1 & B2 & B3 & B4).
  repeat split; congruence.
Qed.

Lemma interfaceKept_insertAll (env : App.Env) (b : string) (texts : list string)
    (embeddings : list IndexedDB.vector) :
  preserves interfaceKept (App.insertAll env (mret tt) b texts embeddings).
Proof.
  unfold App.insertAll.
  apply preserves_forEach; [apply interfaceKept_refl|apply interfaceKept_trans|].
  intros j _.
  apply preserves_bind; [apply interfaceKept_trans| |].
  { apply preserves_ret. apply interfaceKept_refl. }
  intros _.
  apply preserves_bind; [apply interfaceKept_trans| |].
  - intros w. unfold App.await_addRecord.
    destruct (App.storeFails env (App.now w)); repeat split.
  - intros _. apply preserves_ret. apply interfaceKept_refl.
Qed.

Lemma noReturn_insertAll_unchecked (env : App.Env) (b : string)
    (texts : list string) (embeddings : list IndexedDB.vector) :
  noReturn (App.insertAll env (mret tt) b texts embeddings).
Proof.
  unfold App.insertAll. apply noReturn_forEach. intros j.
  apply noReturn_bind; [intros w; discriminate|]. intros _.
  apply noReturn_bind; [|intros _ w; discriminate].
  intros w. unfold App.await_addRecord.
  destruct (App.storeFails env (App.now w)); discriminate.
Qed.

(** X25. A creation that gets as far as the provider ends in one of two
    ways.  It fails, and then the interface is as before: the bank is not
    listed, its content is not known and the active bank is unchanged,
    whatever has reached the store.  Or it completes, and then the bank is
    listed last, it is the active bank, and the content the interface
    knows is the definition the store holds. *)
Theorem creation_is_listed_when_complete (env : App.Env) (n inputText : string)
    (w : App.World) :
  let content := List.filter Js.truthy (Js.trim <$> Js.split_newline inputText) in
  content <> [] ->
  exists o w',
    App.handleSaveCustomBank env n inputText w = (o, w')
    /\ ((o = App.Thrown
         /\ App.availableBanks w' = App.availableBanks w
         /\ App.customBankData w' = App.customBankData w
         /\ App.activeBank w' = App.activeBank w)
        \/ (o = App.Normal tt
            /\ App.availableBanks w' = App.availableBanks w ++ [n]
            /\ App.customBankData w' = <[n := content]> (App.customBankData w)
            /\ App.activeBank w' = n
            /\ IndexedDB.getCustomBank n (App.db w') = Some (IndexedDB.mkBank n content)
            /\ App.customBankData w' !! n
               = IndexedDB.custom_banks (App.db w') !! n)).
Proof.
  intros content Hne. unfold App.handleSaveCustomBank. cbv zeta. fold content.
  assert (Nat.eqb (length content) 0 = false) as ->
    by (destruct content; [contradiction|reflexivity]).
  unfold mbind at 1, App.M_bind at 1. unfold App.await_generateEmbedding at 1.
  destruct (Embedding.generateEmbeddings _ content _) as [es|].
  2:{ do 2 eexists. split; [reflexivity|]. left. repeat split. }
  cbv zeta.
  unfold mbind at 1, App.M_bind at 1. unfold App.await_write at 1.
  cbn [App.now App.withEffect].
  destruct (App.storeFails env (S (App.now w))).
  { do 2 eexists. split; [reflexivity|]. left. repeat split. }
  set (w2 := App.withDb _ _ _).
  unfold mbind at 1, App.M_bind at 1.
  destruct (App.isArrayOfArrays es).
  2:{ do 2 eexists. split; [reflexivity|]. left. repeat split. }
  pose proof (interfaceKept_insertAll env n content es w2) as (K1 & K2 & K3 & K4).
  pose proof (noReturn_insertAll_unchecked env n content es w2) as Hnr.
  destruct (App.insertAll env (mret tt) n content es w2) as [[[]| |] w3];
    simpl in K1, K2, K3, K4, Hnr.
  - do 2 eexists. split; [reflexivity|]. right. simpl.
    split; [reflexivity|]. split; [rewrite K1; reflexivity|].
    split; [rewrite K2; reflexivity|]. split; [reflexivity|].
    unfold IndexedDB.getCustomBank. rewrite K4, !lookup_insert_eq.
    split; reflexivity.
  - contradiction.
  - do 2 eexists. split; [reflexivity|]. left. repeat split; assumption.
Qed.

Lemma creation_is_listed_when_complete_witness :
  exists o w',
    App.handleSaveCustomBank Fixture.env "Mine" "a fact"
      (App.mount Fixture.builtin IndexedDB.emptyDb) = (o, w')
    /\ (o = App.Thrown \/ App.activeBank w' = "Mine").
Proof.
  destruct (creation_is_listed_when_complete Fixture.env "Mine" "a fact"
              (App.mount Fixture.builtin IndexedDB.emptyDb))
    as (o & w' & Hrun & Hcases).
  - discriminate.
  - exists o, w'. split; [exact Hrun|].
    destruct Hcases as [[H _]|(_ & _ & _ & H & _)]; [left|right]; exact H.
Defined.

(** ** Progress events *)

(** X26. The callback of [getInstance] changes nothing but the [progress]
    of an event, and that only for a [progress] event whose value is
    missing, no number or NaN, which becomes 0; applying it twice is
    applying it once.  What it forwards is safe for the callback of
    [setup]: that callback never throws on a forwarded event and never
    sets the progress bar to NaN, while on a raw [progress] event without
    a number it would throw. *)
Theorem progress_events_are_made_safe (p : Progress.ProgressInfo) :
  let p' := Progress.progress_callback p in
  Progress.status p' = Progress.status p
  /\ Progress.file p' = Progress.file p
  /\ (Progress.status p = "progress" ->
      exists q, Progress.progress p' = Progress.Number (Js.Num q)
                /\ (Progress.unusable (Progress.progress p) = true -> q = 0%Q)
                /\ (Progress.unusable (Progress.progress p) = false ->
                    Progress.progress p = Progress.Number (Js.Num q)))
  /\ (Progress.status p <> "progress" -> p' = p)
  /\ Progress.progress_callback p' = p'
  /\ (exists shown,
        Progress.forwarded (Some Progress.setupCallback) p = Some (Some shown)
        /\ shown <> Some Js.NaN)
  /\ (Progress.status p = "progress" ->
      (forall n, Progress.progress p <> Progress.Number n) ->
      Progress.setupCallback p = None).
Proof.
  destruct p as [st f v]. cbv zeta. unfold Progress.progress_callback. simpl.
  destruct (String.eqb st "progress") eqn:Hst; simpl.
  - apply String.eqb_eq in Hst. subst st.
    destruct v as [| |[|q]]; simpl;
      (split; [reflexivity|]; split; [reflexivity|]; split;
       [intros _; eexists; split; [reflexivity|]; split;
        [try discriminate; reflexivity|try discriminate; reflexivity]|];
       split; [congruence|]; split; [reflexivity|]; split;
       [eexists; split; [reflexivity|discriminate]|]).
    + reflexivity.
    + reflexivity.
    + intros _ H. exfalso. apply (H Js.NaN). reflexivity.
    + intros _ H. exfalso. apply (H (Js.Num q)). reflexivity.
  - pose proof (proj1 (String.eqb_neq _ _) Hst) as Hne.
    split; [reflexivity|]. split; [reflexivity|]. split; [congruence|].
    split; [reflexivity|]. split; [rewrite Hst; reflexivity|]. split.
    + unfold Progress.forwarded, Progress.progress_callback,
        Progress.setupCallback. simpl. rewrite Hst. simpl.
      destruct (String.eqb st "initiate");
        [eexists; split; [reflexivity|discriminate]|].
      destruct (String.eqb st "download");
        [eexists; split; [reflexivity|discriminate]|].
      rewrite Hst. eexists. split; [reflexivity|discriminate].
    + congruence.
Qed.
